(** * Metapopulation dynamics engine: genome codec, fitness landscape,
      mutation matrix and per-cycle orchestration.

    Shallow embedding of [model/genome.py] and [model/Metapopulation.py].
    Python integers are unbounded ([N] for genotypes, [Z] elsewhere); numpy
    [int64] arrays wrap around modulo [2^64]; Python and numpy floats are
    modelled either by exact rationals ([Q]) or by IEEE binary64
    ([PrimFloat.float]) through the [Num] interface. *)

From Stdlib Require Import ZArith NArith QArith Qpower List Ascii Bool Lia.
From Stdlib Require Import FinFun.
From Stdlib Require Import Floats.
Import ListNotations.

Local Open Scope Z_scope.

(** ** numpy int64 arithmetic *)

Module Int64.

Definition modulus : Z := 2 ^ 64.
Definition half_modulus : Z := 2 ^ 63.

(** Two's complement reduction of an exact integer to a signed 64-bit one. *)
Definition wrap (x : Z) : Z := (x + half_modulus) mod modulus - half_modulus.

Definition add (x y : Z) : Z := wrap (x + y).
Definition mul (x y : Z) : Z := wrap (x * y).
(** [base ** e] on int64 operands, [e >= 0]. *)
Definition pow (base e : Z) : Z := wrap (base ^ e).

(** [np.sum] over an int64 array. *)
Definition sum (l : list Z) : Z := fold_left add l 0.

End Int64.

(** ** Array helpers *)

Module Array.

(** [range(n)] over Python integers, as genotypes. *)
Definition range (n : Z) : list N := map N.of_nat (seq 0 (Z.to_nat n)).

(** [np.zeros(n)] *)
Definition zeros {A} (z : A) (n : nat) : list A := repeat z n.

(** [a[i] = v]; numpy raises [IndexError] out of range. *)
Fixpoint set_item {A} (a : list A) (i : nat) (v : A) : option (list A) :=
  match a, i with
  | [], _ => None
  | _ :: a', O => Some (v :: a')
  | x :: a', S i' =>
      match set_item a' i' v with
      | Some r => Some (x :: r)
      | None => None
      end
  end.

(** Element-wise binary operation on arrays of the same shape. *)
Fixpoint map2 {A B C} (f : A -> B -> C) (a : list A) (b : list B) : list C :=
  match a, b with
  | x :: a', y :: b' => f x y :: map2 f a' b'
  | _, _ => []
  end.

(** Element-wise binary operation on two-dimensional arrays of the same
    shape. *)
Definition mat_map2 {A B C} (f : A -> B -> C)
  (a : list (list A)) (b : list (list B)) : list (list C) :=
  map2 (map2 f) a b.

Definition sumZ (l : list Z) : Z := fold_right Z.add 0 l.

Definition sumQ (l : list Q) : Q := fold_right Qplus 0%Q l.

End Array.

(** ** genome.py *)

Module Genome.

(** Digits of a positive number, most significant first, pushed in front
    of [acc]. *)
Fixpoint pos_digits (p : positive) (acc : list ascii) : list ascii :=
  match p with
  | xH => "1"%char :: acc
  | xO q => pos_digits q ("0"%char :: acc)
  | xI q => pos_digits q ("1"%char :: acc)
  end.

(** Python's [bin(a)] for [a >= 0]: the prefix [0b] and the minimal binary
    expansion. *)
Definition bin (a : N) : list ascii :=
  "0"%char :: "b"%char ::
  match a with
  | N0 => ["0"%char]
  | Npos p => pos_digits p []
  end.

(** Python's [int(c)] on a one-character digit string. *)
Definition int_of_char (c : ascii) : Z := Z.of_N (N_of_ascii c) - 48.

(** [np.arange(n)] *)
Definition arange (n : nat) : list Z := map Z.of_nat (seq 0 n).

(** [np.sum(a * 2**np.arange(len(a))[::-1])]: the exponents are
    reversed first, then [2] is raised to them. *)
Definition bitstring_as_base10 (a : list Z) : Z :=
  Int64.sum
    (Array.map2 Int64.mul a (map (Int64.pow 2) (rev (arange (length a))))).

(** [np.array(list(map(int, bin(a)[2:])))] *)
Definition base10_as_bitarray (a : N) : list Z :=
  map int_of_char (skipn 2 (bin a)).

(** [bin(a ^ b).count('1')] *)
Definition hamming_distance (a b : N) : nat :=
  count_occ ascii_dec (bin (N.lxor a b)) "1"%char.

(** [g & 2**bits == 2**bits] *)
Definition is_producer (g : N) (bits : N) : bool :=
  N.eqb (N.land g (2 ^ bits)) (2 ^ bits).

(** Exact value of a most-significant-first digit sequence. *)
Fixpoint be_value (a : list Z) : Z :=
  match a with
  | [] => 0
  | x :: a' => x * 2 ^ Z.of_nat (length a') + be_value a'
  end.

(** A sequence of binary digits. *)
Definition binary (l : list Z) : Prop := Forall (fun d => d = 0 \/ d = 1) l.

(** The bits of a genotype padded on the left with zeros to width [w]. *)
Definition padded_bits (w : nat) (i : N) : list Z :=
  repeat 0 (w - length (base10_as_bitarray i)) ++ base10_as_bitarray i.

(** Number of digits [1] of [bin(x)]. *)
Definition popcount (x : N) : nat := count_occ ascii_dec (bin x) "1"%char.

(** The parity bit [c] appended to the genotype [a]. *)
Definition with_low_bit (a : N) (c : bool) : N :=
  if c then N.succ_double a else N.double a.

(** The bits of a positive genotype, as integers. *)
Definition pos_bits (p : positive) : list Z :=
  map int_of_char (pos_digits p []).

End Genome.

(** ** Numbers of the fitness landscape

    The landscape code only adds and multiplies floats and converts
    integers to floats; [Num] abstracts exactly these operations. *)

Class Num (A : Type) := {
  num_add : A -> A -> A;
  num_mul : A -> A -> A;
  num_sub : A -> A -> A;
  num_of_int : Z -> A
}.

#[global] Instance Num_Q : Num Q := {
  num_add := Qplus;
  num_mul := Qmult;
  num_sub := Qminus;
  num_of_int := inject_Z
}.

(** Conversion of a Python integer to a binary64 float. *)
Definition float_of_int (z : Z) : PrimFloat.float :=
  if z <? 0 then PrimFloat.opp (PrimFloat.of_uint63 (Uint63.of_Z (- z)))
  else PrimFloat.of_uint63 (Uint63.of_Z z).

#[global] Instance Num_float : Num PrimFloat.float := {
  num_add := PrimFloat.add;
  num_mul := PrimFloat.mul;
  num_sub := PrimFloat.sub;
  num_of_int := float_of_int
}.

(** ** Python exceptions and results *)

Inductive exn : Type :=
| AssertionError | ValueError | KeyError | IndexError | TypeError
| ZeroDivisionError | OverflowError.

Inductive result (A : Type) : Type :=
| OK (a : A)
| Raise (e : exn).
Arguments OK {A} a.
Arguments Raise {A} e.

(** Sequencing of fallible pure computations. *)
Definition and_then {A B} (x : result A) (k : A -> result B) : result B :=
  match x with
  | OK a => k a
  | Raise e => Raise e
  end.

(** ** Python numbers in binary64 *)

(** Conversion of a Python integer to a float in arithmetic with a float:
    the nearest binary64 value, ties to even, and [OverflowError] when
    the integer is too large for a float. *)
Definition py_float (z : Z) : result PrimFloat.float :=
  match SpecFloat.binary_normalize FloatOps.prec FloatOps.emax z 0 false with
  | SpecFloat.S754_infinity _ => Raise OverflowError
  | f => OK (FloatOps.SF2Prim f)
  end.

(** Python's [int(x)] on a float: truncation toward zero;
    [OverflowError] on an infinity and [ValueError] on a NaN. *)
Definition py_int (x : PrimFloat.float) : result Z :=
  match FloatOps.Prim2SF x with
  | SpecFloat.S754_zero _ => OK 0
  | SpecFloat.S754_finite s m e =>
      let magnitude :=
        if 0 <=? e then Z.pos m * 2 ^ e else Z.pos m / 2 ^ (- e) in
      OK (if s then - magnitude else magnitude)
  | SpecFloat.S754_infinity _ => Raise OverflowError
  | SpecFloat.S754_nan => Raise ValueError
  end.

(** ** Fitness landscape table (body of [build_fitness_landscape]) *)

Section Landscape.

Context {A : Type} `{Num A}.

(** Python's builtin [sum]: left to right, starting from the integer 0. *)
Definition py_sum (l : list A) : A := fold_left num_add l (num_of_int 0).

(** One iteration of the loop: the genotype's bits, padded with zeros on
    the left to the length of [effects], times the effects.
    [np.zeros] of a negative length raises [ValueError]. *)
Definition landscape_entry (effects : list A) (base cost : A) (i : N)
  : result A :=
  let genotype := Genome.base10_as_bitarray i in
  if (length effects <? length genotype)%nat then Raise ValueError
  else
    let padded :=
      Array.zeros (num_of_int 0) (length effects - length genotype)
      ++ map num_of_int genotype in
    OK (num_add (py_sum (Array.map2 num_mul padded effects))
                (num_add base cost)).

(** [for i in range(...): landscape[i] = ...] *)
Fixpoint fill_landscape (effects : list A) (base cost : A)
  (genotypes : list N) (landscape : list A) : result (list A) :=
  match genotypes with
  | [] => OK landscape
  | i :: rest =>
      match landscape_entry effects base cost i with
      | Raise e => Raise e
      | OK v =>
          match Array.set_item landscape (N.to_nat i) v with
          | None => Raise IndexError
          | Some landscape' => fill_landscape effects base cost rest landscape'
          end
      end
  end.

(** The table computed from the drawn per-locus effects [draws]. *)
Definition landscape_table (genome_length : Z) (base cost : A)
  (draws : list A) : result (list A) :=
  let effects := num_mul (num_of_int (-1)) cost :: draws in
  let landscape :=
    Array.zeros (num_of_int 0) (Z.to_nat (2 ^ (genome_length + 1))) in
  fill_landscape effects base cost
    (Array.range (2 ^ (genome_length + 1))) landscape.

End Landscape.

(** The value the loop assigns to genotype [i] for effects of length
    [w]. *)
Definition entry_Q (w : nat) (effects : list Q) (base cost : Q) (i : N) : Q :=
  (py_sum (Array.map2 Qmult (map inject_Z (Genome.padded_bits w i)) effects)
   + (base + cost))%Q.

(** ** Configuration (the options read by the engine) *)

Inductive destination : Type := Single | Neighbors.

Inductive initial_policy : Type := Corners | Stress | OtherInitialState.

Inductive sink : Type := Demographics | Genotypes | Fitness.

Record Config : Type := mkConfig {
  migration_rate : Q;
  migration_dest : destination;
  migration_p_far : Q;
  log_frequency : Z;
  dilution_stochastic : bool;
  genome_length : Z;
  base_fitness : Q;
  production_cost : Q;
  fitness_exponential : bool;
  fitness_avg_effect : Q;
  fitness_min_effect : Q;
  mutation_rate_social : Q;
  mutation_rate_adaptation : Q;
  mutation_rate_tolerance : Q;
  initial_state : initial_policy;
  capacity_max : Z;
  capacity_min : Z;
  (** read with [getfloat] and used in binary64 arithmetic *)
  initial_producer_proportion : PrimFloat.float;
  mix_frequency : Z;
  env_change_frequency : Z;
  log_demographics : bool;
  log_genotypes : bool;
  log_fitness : bool
}.

(** ** Mutation matrix ([get_mutation_probabilities]) *)

Module Mutation.

(** The two stacked blocks of the social-locus indicator [S]:
    [h] rows [0]*h + [1]*h over [h] rows [1]*h + [0]*h. *)
Definition social_indicator (h : nat) : list (list Z) :=
  repeat (repeat 0 h ++ repeat 1 h) h ++ repeat (repeat 1 h ++ repeat 0 h) h.

(** [hamming_v(xx, yy)] over [meshgrid(genotypes, genotypes)]: entry
    [i][j] is [hamming_distance(genotypes[j], genotypes[i])]. *)
Definition hamming_distances (genotypes : list N) : list (list Z) :=
  map (fun y => map (fun x => Z.of_nat (Genome.hamming_distance x y)) genotypes)
      genotypes.

(** One entry of [mr] from the entries of [nonsocial_hd] and [S]. *)
Definition transition (L : Z) (m_s m_a : Q) (nonsocial_hd s : Z) : Q :=
  ((1 - m_a) ^ (L - nonsocial_hd) * m_a ^ nonsocial_hd
   * (1 - m_s) ^ (if s =? 0 then 1 else 0) * m_s ^ s)%Q.

(** [2**genome_length] is a float for a negative length, and a list
    cannot be repeated a float number of times. *)
Definition get_mutation_probabilities (cfg : Config) : result (list (list Q)) :=
  let L := genome_length cfg in
  if L <? 0 then Raise TypeError
  else
    let S := social_indicator (Z.to_nat (2 ^ L)) in
    let genotypes := Array.range (2 ^ (L + 1)) in
    let nonsocial_hd := Array.mat_map2 Z.sub (hamming_distances genotypes) S in
    OK (Array.mat_map2
          (transition L (mutation_rate_social cfg)
                      (mutation_rate_adaptation cfg))
          nonsocial_hd S).

(** [S[i][j]] for genome length [L]: the genotypes [i] and [j] lie in
    different halves of the genotype range. *)
Definition social_differs (L : nat) (i j : nat) : Z :=
  if xorb (i <? 2 ^ L)%nat (j <? 2 ^ L)%nat then 1 else 0.

(** [mr[i][j]] for genome length [L]. *)
Definition probability (L : nat) (m_s m_a : Q) (i j : nat) : Q :=
  transition (Z.of_nat L) m_s m_a
    (Z.of_nat (Genome.hamming_distance (N.of_nat j) (N.of_nat i))
     - social_differs L i j)
    (social_differs L i j).

End Mutation.

(** ** The Population collaborator *)

(** Modelled from the spec: the class [Population] (Population.py); a
    population owns its live abundance vector, indexed by genotype, and
    a buffer of pending immigrants that only [census] folds into it. *)
Record Population : Type := mkPopulation {
  abundances : list Z;
  immigrants : list Z
}.

Module Pop.

(** Modelled from the spec: the constructor [Population(...)]; a new
    population is empty, with one entry per genotype. *)
Definition new (cfg : Config) : Population :=
  let n := Z.to_nat (2 ^ (genome_length cfg + 1)) in
  mkPopulation (Array.zeros 0 n) (Array.zeros 0 n).

(** Modelled from the spec: [Population.add_immigrants]; buffered, not
    applied until [census]. *)
Definition add_immigrants (p : Population) (delta : list Z) : Population :=
  mkPopulation (abundances p) (Array.map2 Z.add (immigrants p) delta).

(** Modelled from the spec: [Population.remove_emigrants]; applied
    immediately. *)
Definition remove_emigrants (p : Population) (delta : list Z) : Population :=
  mkPopulation (Array.map2 Z.sub (abundances p) delta) (immigrants p).

(** Modelled from the spec: [Population.census]; merges the buffered
    immigrants into the live abundances. *)
Definition census (p : Population) : Population :=
  mkPopulation (Array.map2 Z.add (abundances p) (immigrants p))
               (Array.zeros 0 (length (immigrants p))).

(** Modelled from the spec: [Population.__len__]; the abundances sum to
    the population's size. *)
Definition size (p : Population) : Z := Array.sumZ (abundances p).

(** Modelled from the spec: [Population.num_producers]; the abundance of
    the genotypes whose social bit is set. *)
Definition num_producers (cfg : Config) (p : Population) : Z :=
  Array.sumZ
    (Array.map2
       (fun g a => if Genome.is_producer g (Z.to_N (genome_length cfg))
                   then a else 0)
       (map N.of_nat (seq 0 (length (abundances p)))) (abundances p)).

(** Individuals waiting in the immigrant buffer. *)
Definition pending (p : Population) : Z := Array.sumZ (immigrants p).

End Pop.

(** ** External collaborators: numpy's sampler and the stochastic
    methods of [Population] *)

Class Externals : Type := {
  (** state of numpy's global random generator *)
  Rand : Type;
  (** [binomial(n=1, p=p, size=None) == 1] *)
  np_binomial1 : Q -> Rand -> bool * Rand;
  (** [random_integers(low, high)] *)
  np_random_integers : Z -> Z -> Rand -> Z * Rand;
  (** [choice(a)] on a non-empty list *)
  np_choice : list nat -> Rand -> nat * Rand;
  (** [binomial(n, p)] on an array [n] *)
  np_binomial : list Z -> Q -> Rand -> list Z * Rand;
  (** the values [np.random.exponential(scale, size)] draws for a scale
      that is not negative; numpy refuses a negative scale before it
      draws (see [np_exponential] below) *)
  exponential_draw : Q -> nat -> Rand -> list Q * Rand;
  (** [np.random.uniform(low, high, size)] *)
  np_uniform : Q -> Q -> nat -> Rand -> list Q * Rand;
  (** [Population.grow], reading the engine's fitness landscape *)
  pop_grow : list Q -> Population -> Rand -> Population * Rand;
  (** [Population.mutate], reading the engine's mutation matrix *)
  pop_mutate : list (list Q) -> Population -> Rand -> Population * Rand;
  (** [Population.dilute(stochastic)] *)
  pop_dilute : bool -> Population -> Rand -> Population * Rand;
  (** [Population.bottleneck(survival_rate)] *)
  pop_bottleneck : Q -> Population -> Rand -> Population * Rand;
  (** [Population.reset_loci] *)
  pop_reset_loci : Population -> Rand -> Population * Rand;
  (** [Population.select_migrants(migration_rate)] *)
  pop_select_migrants : Q -> Population -> Rand -> list Z * Rand
}.

(** What the engine relies on from its collaborators. *)
Class ExternalsOk (ext : Externals) : Prop := {
  np_random_integers_range :
    forall lo hi r, lo <= hi -> lo <= fst (np_random_integers lo hi r) <= hi;
  np_choice_in :
    forall a r, a <> [] -> In (fst (np_choice a r)) a;
  exponential_draw_size :
    forall scale n r, length (fst (exponential_draw scale n r)) = n;
  np_uniform_size :
    forall lo hi n r, length (fst (np_uniform lo hi n r)) = n;
  (** the migrants are taken from the live abundances *)
  pop_select_migrants_le :
    forall rate p r,
      Forall2 Z.le (fst (pop_select_migrants rate p r)) (abundances p)
}.

(** A graph on the nodes [0 .. number_of_nodes - 1]. *)
Record Topology : Type := mkTopology {
  number_of_nodes : nat;
  neighbors : nat -> list nat
}.

Definition nodes (t : Topology) : list nat := seq 0 (number_of_nodes t).

(** [degree(n)] of a simple graph. *)
Definition degree (t : Topology) (n : nat) : nat := length (neighbors t n).

(** ** The engine's state *)

Inductive step : Type :=
| Grow | Mutate | Migrate | Census | WriteLogfiles | Mix
| ChangeEnvironment | Dilute.

Inductive pop_method : Type :=
| PGrow | PMutate | PDilute (stochastic : bool) | PBottleneck (rate : Q)
| PResetLoci | PSelectMigrants (rate : Q) | PAddImmigrants
| PRemoveEmigrants | PCensus.

(** Observable calls, in the order they happen. *)
Inductive event : Type :=
| Enter (s : step)
| PopCall (node : nat) (m : pop_method)
| SinkUpdate (k : sink) (time : Z).

Definition is_enter (e : event) : bool :=
  match e with Enter _ => true | _ => false end.

(** The attributes of a [Metapopulation] object. The options copied from
    the configuration at construction are never reassigned and are read
    through [config]. *)
Record Metapopulation : Type := mkMetapopulation {
  config : Config;
  time : Z;
  topology : Topology;
  mutation_probs : list (list Q);
  fitness_landscape : list Q;
  populations : list Population;
  environment_changed : bool;
  log_objects : list sink
}.

Section Engine.

Context {ext : Externals}.

(** The object, numpy's generator state and the calls made so far. *)
Record Machine : Type := mkMachine {
  self : Metapopulation;
  random_state : Rand;
  history : list event
}.

(** State and exception monad of the engine's methods. *)
Definition M (A : Type) : Type := Machine -> result (A * Machine).

Definition ret {A} (a : A) : M A := fun w => OK (a, w).

Definition bind {A B} (c : M A) (k : A -> M B) : M B :=
  fun w => match c w with
           | OK (a, w') => k a w'
           | Raise e => Raise e
           end.

Definition raise {A} (e : exn) : M A := fun _ => Raise e.

Notation "x <- c ;; k" := (bind c (fun x => k))
  (at level 61, c at next level, right associativity).
Notation "c ;; k" := (bind c (fun _ => k))
  (at level 61, right associativity).

Definition get_self : M Metapopulation := fun w => OK (self w, w).

Definition put_self (s : Metapopulation) : M unit :=
  fun w => OK (tt, mkMachine s (random_state w) (history w)).

Definition record (e : event) : M unit :=
  fun w => OK (tt, mkMachine (self w) (random_state w) (history w ++ [e])).

(** Run a sampler on numpy's generator. *)
Definition sample {A} (f : Rand -> A * Rand) : M A :=
  fun w => let ar := f (random_state w) in
           OK (fst ar, mkMachine (self w) (snd ar) (history w)).

Definition assert (b : bool) : M unit :=
  if b then ret tt else raise AssertionError.

(** The result of a fallible pure computation. *)
Definition lift {A} (x : result A) : M A :=
  match x with
  | OK a => ret a
  | Raise e => raise e
  end.

(** [np.random.exponential(scale, size)]: numpy raises [ValueError] for
    a negative scale and draws otherwise. *)
Definition np_exponential (scale : Q) (size : nat) : M (list Q) :=
  if Qle_bool 0 scale then sample (exponential_draw scale size)
  else raise ValueError.

(** [for n in nodes: body(n)] *)
Fixpoint for_each {A} (l : list A) (body : A -> M unit) : M unit :=
  match l with
  | [] => ret tt
  | n :: rest => body n ;; for_each rest body
  end.

Definition set_populations (s : Metapopulation) (pops : list Population)
  : Metapopulation :=
  mkMetapopulation (config s) (time s) (topology s) (mutation_probs s)
    (fitness_landscape s) pops (environment_changed s) (log_objects s).

(** [self.topology.node[n]['population']] *)
Definition population_at (n : nat) : M Population :=
  s <- get_self ;;
  match nth_error (populations s) n with
  | Some p => ret p
  | None => raise KeyError
  end.

Fixpoint replace_nth {A} (l : list A) (n : nat) (v : A) : list A :=
  match l, n with
  | [], _ => []
  | _ :: l', O => v :: l'
  | x :: l', S n' => x :: replace_nth l' n' v
  end.

(** The population object of node [n] is updated in place. *)
Definition store_population (n : nat) (p : Population) : M unit :=
  s <- get_self ;;
  put_self (set_populations s (replace_nth (populations s) n p)).

(** Call a stochastic method of the population of node [n]. *)
Definition call_population (n : nat) (m : pop_method)
  (f : Population -> Rand -> Population * Rand) : M unit :=
  p <- population_at n ;;
  record (PopCall n m) ;;
  p' <- sample (f p) ;;
  store_population n p'.

(** Call a deterministic method of the population of node [n]. *)
Definition update_population (n : nat) (m : pop_method)
  (f : Population -> Population) : M unit :=
  p <- population_at n ;;
  record (PopCall n m) ;;
  store_population n (f p).

(** [for n, d in self.topology.nodes_iter(data=True)] *)
Definition for_each_node (body : nat -> M unit) : M unit :=
  s <- get_self ;;
  for_each (nodes (topology s)) body.

(** *** build_fitness_landscape *)

Definition build_fitness_landscape : M (list Q) :=
  s <- get_self ;;
  let cfg := config s in
  assert (0 <=? genome_length cfg) ;;
  assert (Qle_bool 0 (base_fitness cfg)) ;;
  draws <-
    (if fitness_exponential cfg
     then np_exponential (fitness_avg_effect cfg)
            (Z.to_nat (genome_length cfg))
     else sample
            (np_uniform (fitness_min_effect cfg)
               (2 * fitness_avg_effect cfg - fitness_min_effect cfg)%Q
               (Z.to_nat (genome_length cfg)))) ;;
  match landscape_table (genome_length cfg) (base_fitness cfg)
          (production_cost cfg) draws with
  | OK landscape => ret landscape
  | Raise e => raise e
  end.

(** *** dilute, grow, mutate, census *)

Definition dilute (stochastic : bool) : M unit :=
  record (Enter Dilute) ;;
  for_each_node (fun n =>
    call_population n (PDilute stochastic) (pop_dilute stochastic)).

Definition grow : M unit :=
  record (Enter Grow) ;;
  for_each_node (fun n =>
    s <- get_self ;;
    call_population n PGrow (pop_grow (fitness_landscape s))).

Definition mutate : M unit :=
  record (Enter Mutate) ;;
  for_each_node (fun n =>
    s <- get_self ;;
    call_population n PMutate (pop_mutate (mutation_probs s))).

Definition census : M unit :=
  record (Enter Census) ;;
  for_each_node (fun n => update_population n PCensus Pop.census).

(** *** mix *)

Definition mix : M unit :=
  record (Enter Mix) ;;
  s <- get_self ;;
  let total :=
    fold_left (fun acc p => Array.map2 Int64.add acc (abundances p))
      (populations s)
      (Array.zeros 0 (length (fitness_landscape s))) in
  for_each_node (fun n =>
    p <- population_at n ;;
    a <- sample (np_binomial total
                   (1 / inject_Z (Z.of_nat (number_of_nodes (topology s))))%Q) ;;
    store_population n (mkPopulation a (immigrants p))).

(** *** migrate *)

(** Deliver [migrants] from node [n] to node [dest]. *)
Definition deliver (n dest : nat) (migrants : list Z) : M unit :=
  update_population dest PAddImmigrants
    (fun q => Pop.add_immigrants q migrants) ;;
  update_population n PRemoveEmigrants
    (fun q => Pop.remove_emigrants q migrants).

Definition select_migrants (n : nat) (rate : Q) : M (list Z) :=
  p <- population_at n ;;
  record (PopCall n (PSelectMigrants rate)) ;;
  sample (pop_select_migrants rate p).

Definition random_node : M nat :=
  s <- get_self ;;
  i <- sample (np_random_integers 0
                 (Z.of_nat (number_of_nodes (topology s)) - 1)) ;;
  ret (Z.to_nat i).

(** The body of the loop for destination mode [single]. *)
Definition migrate_single (n : nat) : M unit :=
  s <- get_self ;;
  let cfg := config s in
  migrants <- select_migrants n (migration_rate cfg) ;;
  far <- sample (np_binomial1 (migration_p_far cfg)) ;;
  neighbor_index <-
    (if far : bool then random_node
     else match neighbors (topology s) n with
          | [] => raise ValueError
          | a => sample (np_choice a)
          end) ;;
  deliver n neighbor_index migrants.

(** The body of the loop for destination mode [neighbors]. *)
Definition migrate_neighbors (n : nat) : M unit :=
  s <- get_self ;;
  let cfg := config s in
  let num_neighbors := degree (topology s) n in
  for_each (neighbors (topology s) n) (fun neighbor_node =>
    far <- sample (np_binomial1 (migration_p_far cfg)) ;;
    neighbor_node <- (if far : bool then random_node else ret neighbor_node) ;;
    migrants <- select_migrants n
      (migration_rate cfg / inject_Z (Z.of_nat num_neighbors))%Q ;;
    deliver n neighbor_node migrants).

(** The parameter [single_dest] of the source is never read. *)
Definition migrate : M unit :=
  record (Enter Migrate) ;;
  s <- get_self ;;
  if Qeq_bool (migration_rate (config s)) 0 then ret tt
  else
    for_each_node (fun n =>
      match migration_dest (config s) with
      | Single => migrate_single n
      | Neighbors => migrate_neighbors n
      end).

(** *** change_environment *)

Definition set_fitness_landscape (s : Metapopulation) (l : list Q)
  : Metapopulation :=
  mkMetapopulation (config s) (time s) (topology s) (mutation_probs s)
    l (populations s) (environment_changed s) (log_objects s).

Definition change_environment : M unit :=
  record (Enter ChangeEnvironment) ;;
  landscape <- build_fitness_landscape ;;
  s <- get_self ;;
  put_self (set_fitness_landscape s landscape) ;;
  let mutation_rate_tolerance := mutation_rate_tolerance (config s) in
  for_each_node (fun n =>
    call_population n (PBottleneck mutation_rate_tolerance)
      (pop_bottleneck mutation_rate_tolerance) ;;
    call_population n PResetLoci pop_reset_loci).

(** *** write_logfiles *)

(** Python's [a % b] on integers. *)
Definition py_mod (a b : Z) : M Z :=
  if b =? 0 then raise ZeroDivisionError else ret (a mod b).

Definition write_logfiles : M unit :=
  record (Enter WriteLogfiles) ;;
  s <- get_self ;;
  r <- py_mod (time s) (log_frequency (config s)) ;;
  if r =? 0
  then for_each (log_objects s) (fun l => record (SinkUpdate l (time s)))
  else ret tt.

(** *** cycle *)

Definition set_environment_changed (b : bool) : M unit :=
  s <- get_self ;;
  put_self (mkMetapopulation (config s) (time s) (topology s)
              (mutation_probs s) (fitness_landscape s) (populations s)
              b (log_objects s)).

Definition advance_time : M unit :=
  s <- get_self ;;
  put_self (mkMetapopulation (config s) (time s + 1) (topology s)
              (mutation_probs s) (fitness_landscape s) (populations s)
              (environment_changed s) (log_objects s)).

(** [freq > 0 and self.time > 0 and self.time % freq == 0] *)
Definition due (freq t : Z) : bool :=
  (0 <? freq) && (0 <? t) && (t mod freq =? 0).

Definition cycle : M unit :=
  grow ;;
  mutate ;;
  migrate ;;
  census ;;
  write_logfiles ;;
  s <- get_self ;;
  (if due (mix_frequency (config s)) (time s) then mix else ret tt) ;;
  s <- get_self ;;
  (if due (env_change_frequency (config s)) (time s)
   then change_environment ;; set_environment_changed true
   else dilute (dilution_stochastic (config s)) ;;
        set_environment_changed false) ;;
  advance_time.

(** The engine's state-changing methods, by name. *)
Definition run (m : step) : M unit :=
  match m with
  | Grow => grow
  | Mutate => mutate
  | Migrate => migrate
  | Census => census
  | WriteLogfiles => write_logfiles
  | Mix => mix
  | ChangeEnvironment => change_environment
  | Dilute => s <- get_self ;; dilute (dilution_stochastic (config s))
  end.

(** A driver calling [cycle] [k] times. *)
Fixpoint run_cycles (k : nat) : M unit :=
  match k with
  | O => ret tt
  | S k' => cycle ;; run_cycles k'
  end.

(** *** size, num_producers, prop_producers *)

Definition size (s : Metapopulation) : Z :=
  Array.sumZ (map Pop.size (populations s)).

Definition num_producers (s : Metapopulation) : Z :=
  Array.sumZ (map (Pop.num_producers (config s)) (populations s)).

Inductive proportion : Type :=
| NA
| Proportion (p : Q).

Definition prop_producers (s : Metapopulation) : proportion :=
  let metapopsize := size s in
  if metapopsize =? 0 then NA
  else Proportion (1 * inject_Z (num_producers s) / inject_Z (size s))%Q.

(** Individuals waiting in the immigrant buffers of all nodes. *)
Definition pending (s : Metapopulation) : Z :=
  Array.sumZ (map Pop.pending (populations s)).

(** *** __init__ *)

(** The three assignments of the policy [stress], in binary64:
    [cap = int(min_cap + ((max_cap - min_cap) * initial_producer_proportion))],
    [num_producers = int(cap * initial_producer_proportion)] and
    [num_nonproducers = cap - num_producers]; the result is
    [(num_producers, num_nonproducers)]. *)
Definition stress_counts (cfg : Config) : result (Z * Z) :=
  let p := initial_producer_proportion cfg in
  and_then (py_float (capacity_max cfg - capacity_min cfg)) (fun spread =>
  and_then (py_float (capacity_min cfg)) (fun low =>
  and_then (py_int (PrimFloat.add low (PrimFloat.mul spread p))) (fun cap =>
  and_then (py_float cap) (fun cap_float =>
  and_then (py_int (PrimFloat.mul cap_float p)) (fun num_producers =>
  OK (num_producers, cap - num_producers)))))).

(** [d['population'].abundances[g] = v] *)
Definition set_abundance (n : nat) (g : nat) (v : Z) : M unit :=
  p <- population_at n ;;
  match Array.set_item (abundances p) g v with
  | Some a => store_population n (mkPopulation a (immigrants p))
  | None => raise IndexError
  end.

(** The body of the loop that creates the populations; the node's
    population is appended, the nodes being visited in order. *)
Definition seed_node (n : nat) : M unit :=
  s <- get_self ;;
  let cfg := config s in
  put_self (set_populations s (populations s ++ [Pop.new cfg])) ;;
  match initial_state cfg with
  | Corners =>
      if (n =? 0)%nat then
        set_abundance n (Z.to_nat (2 ^ genome_length cfg)) (capacity_max cfg) ;;
        call_population n (PDilute (dilution_stochastic cfg))
          (pop_dilute (dilution_stochastic cfg))
      else if Z.of_nat n =? Z.of_nat (number_of_nodes (topology s)) - 1 then
        set_abundance n 0 (capacity_min cfg) ;;
        call_population n (PDilute (dilution_stochastic cfg))
          (pop_dilute (dilution_stochastic cfg))
      else ret tt
  | Stress =>
      counts <- lift (stress_counts cfg) ;;
      set_abundance n 0 (fst counts) ;;
      set_abundance n (Z.to_nat (2 ^ genome_length cfg)) (snd counts) ;;
      call_population n (PBottleneck (mutation_rate_tolerance cfg))
        (pop_bottleneck (mutation_rate_tolerance cfg))
  | OtherInitialState => ret tt
  end.

Definition sinks (cfg : Config) : list sink :=
  (if log_demographics cfg then [Demographics] else [])
  ++ (if log_genotypes cfg then [Genotypes] else [])
  ++ (if log_fitness cfg then [Fitness] else []).

(** The scale numpy accepts in [build_fitness_landscape]: with
    exponential effects, [fitness_avg_effect] is not negative. *)
Definition effects_scale_ok (cfg : Config) : bool :=
  negb (fitness_exponential cfg) || Qle_bool 0 (fitness_avg_effect cfg).

(** The conditions on the options that the constructor and
    [build_fitness_landscape] check, numpy's check of the exponential
    scale included. *)
Definition valid_config (cfg : Config) : bool :=
  Qle_bool 0 (migration_rate cfg) && Qle_bool (migration_rate cfg) 1
  && Qle_bool 0 (migration_p_far cfg) && Qle_bool (migration_p_far cfg) 1
  && (0 <? log_frequency cfg)
  && (0 <=? genome_length cfg) && Qle_bool 0 (base_fitness cfg)
  && effects_scale_ok cfg
  && (0 <=? mix_frequency cfg) && (0 <=? env_change_frequency cfg).

(** A new population in which genotype [g] has abundance [v]. *)
Definition seeded (cfg : Config) (g : nat) (v : Z) : Population :=
  mkPopulation (replace_nth (abundances (Pop.new cfg)) g v)
               (immigrants (Pop.new cfg)).

(** The draw of the per-locus effects in [build_fitness_landscape]. *)
Definition effects_sampler (cfg : Config) : Rand -> list Q * Rand :=
  if fitness_exponential cfg
  then exponential_draw (fitness_avg_effect cfg) (Z.to_nat (genome_length cfg))
  else np_uniform (fitness_min_effect cfg)
         (2 * fitness_avg_effect cfg - fitness_min_effect cfg)%Q
         (Z.to_nat (genome_length cfg)).

(** The constructor's statements after [self.config = config] and
    [self.time = 0], on an already built topology. *)
Definition init : M unit :=
  s <- get_self ;;
  let cfg := config s in
  let topo := topology s in
  assert (Qle_bool 0 (migration_rate cfg) && Qle_bool (migration_rate cfg) 1) ;;
  assert (Qle_bool 0 (migration_p_far cfg) && Qle_bool (migration_p_far cfg) 1) ;;
  assert (0 <? log_frequency cfg) ;;
  match Mutation.get_mutation_probabilities cfg with
  | Raise e => raise e
  | OK mr =>
      put_self (mkMetapopulation cfg (time s) topo mr [] [] false []) ;;
      landscape <- build_fitness_landscape ;;
      s <- get_self ;;
      put_self (set_fitness_landscape s landscape) ;;
      for_each (nodes topo) seed_node ;;
      assert (0 <=? mix_frequency cfg) ;;
      assert (0 <=? env_change_frequency cfg) ;;
      s <- get_self ;;
      put_self (mkMetapopulation cfg (time s) topo (mutation_probs s)
                  (fitness_landscape s) (populations s) false (sinks cfg))
  end.

(** The object right after [self.config = config] and [self.time = 0]. *)
Definition fresh (cfg : Config) (topo : Topology) (r : Rand) : Machine :=
  mkMachine (mkMetapopulation cfg 0 topo [] [] [] false []) r [].

(** [Metapopulation(config)] *)
Definition new_metapopulation (cfg : Config) (topo : Topology) (r : Rand)
  : result Machine :=
  match init (fresh cfg topo r) with
  | OK (_, w) => OK w
  | Raise e => Raise e
  end.

End Engine.

(** ** Vocabulary of the specifications *)

Section Vocabulary.

Context {ext : Externals}.

(** The machine after a corner node [n] has been given abundance [v] of
    genotype [g] and has been diluted. *)
Definition corner_seeded (w : Machine) (n g : nat) (v : Z) : Machine :=
  let cfg := config (self w) in
  let d := pop_dilute (dilution_stochastic cfg) (seeded cfg g v)
             (random_state w) in
  mkMachine (set_populations (self w) (populations (self w) ++ [fst d]))
    (snd d)
    (history w ++ [PopCall n (PDilute (dilution_stochastic cfg))]).

(** The populations the loop leaves on [N] nodes under policy [corners],
    the generator being in state [r] when the loop starts: node 0 seeded
    with genotype [2^L] at [capacity_max] and diluted, the last node (if
    it is not node 0) seeded with genotype 0 at [capacity_min] and
    diluted, new populations in between. *)
Definition corners_populations (cfg : Config) (N : nat) (r : Rand)
  : list Population :=
  let st := dilution_stochastic cfg in
  let d0 := pop_dilute st
              (seeded cfg (Z.to_nat (2 ^ genome_length cfg)) (capacity_max cfg))
              r in
  let d1 := pop_dilute st (seeded cfg 0 (capacity_min cfg)) (snd d0) in
  match N with
  | O => []
  | S O => [fst d0]
  | S (S m) => fst d0 :: repeat (Pop.new cfg) m ++ [fst d1]
  end.

(** What no method changes once the object is constructed. *)
Definition core_same (s s' : Metapopulation) : Prop :=
  config s' = config s
  /\ topology s' = topology s
  /\ mutation_probs s' = mutation_probs s
  /\ log_objects s' = log_objects s
  /\ length (populations s') = length (populations s).

(** Only the populations may differ. *)
Definition same_frame (s s' : Metapopulation) : Prop :=
  core_same s s'
  /\ time s' = time s
  /\ fitness_landscape s' = fitness_landscape s
  /\ environment_changed s' = environment_changed s.

(** Events among which no engine method is entered. *)
Definition silent (evs : list event) : Prop := filter is_enter evs = [].

(** A run that only touches populations and the generator and enters no
    engine method. *)
Definition quiet (w w' : Machine) : Prop :=
  same_frame (self w) (self w')
  /\ exists evs, history w' = history w ++ evs /\ silent evs.

(** Every neighbor is a node. *)
Definition topology_ok (t : Topology) : Prop :=
  forall n d, (n < number_of_nodes t)%nat -> In d (neighbors t n) ->
              (d < number_of_nodes t)%nat.

(** [choice] is never asked to pick from an empty neighborhood. *)
Definition can_migrate (cfg : Config) (t : Topology) : Prop :=
  Qeq_bool (migration_rate cfg) 0 = false ->
  migration_dest cfg = Single ->
  forall n, (n < number_of_nodes t)%nat -> neighbors t n <> [].

(** A constructed engine: a valid configuration, one population per
    node, a well-formed topology. *)
Definition well_formed (w : Machine) : Prop :=
  valid_config (config (self w)) = true
  /\ length (populations (self w)) = number_of_nodes (topology (self w))
  /\ topology_ok (topology (self w)).

(** Running on a well-formed engine over the topology [T]. *)
Definition on (T : Topology) (w : Machine) : Prop :=
  well_formed w /\ topology (self w) = T.

(** The result of running [c] on [w]: if it returns, the states are
    related by [R]; it raises only if [strict] fails. *)
Definition outcome (strict : Prop) (R : Machine -> Machine -> Prop)
  (c : M unit) (w : Machine) : Prop :=
  match c w with
  | OK (_, w') => R w w'
  | Raise _ => ~ strict
  end.

(** The engine method [e] was entered and ran quietly otherwise. *)
Definition entered (e : step) (w w' : Machine) : Prop :=
  same_frame (self w) (self w')
  /\ exists evs, history w' = history w ++ Enter e :: evs /\ silent evs.

(** Every population has [G] live entries and [G] buffered entries. *)
Definition shaped (G : nat) (s : Metapopulation) : Prop :=
  Forall (fun p => length (abundances p) = G /\ length (immigrants p) = G)
         (populations s).

(** Live and buffered individuals of all nodes. *)
Definition total (s : Metapopulation) : Z := size s + pending s.

(** [f] applied, in turn, to the populations of the nodes [l]. *)
Fixpoint apply_at (f : Population -> Population) (l : list nat)
  (pops : list Population) : list Population :=
  match l with
  | [] => pops
  | n :: l' =>
      apply_at f l'
        (match nth_error pops n with
         | Some p => replace_nth pops n (f p)
         | None => pops
         end)
  end.

(** While the populations are created nothing else of the object
    changes, and [k] populations are added. *)
Definition populated (k : nat) (w w' : Machine) : Prop :=
  config (self w') = config (self w)
  /\ time (self w') = time (self w)
  /\ topology (self w') = topology (self w)
  /\ mutation_probs (self w') = mutation_probs (self w)
  /\ length (populations (self w')) = (length (populations (self w)) + k)%nat.

(** A quiet run that neither creates nor destroys individuals. *)
Definition conserving (G : nat) (w w' : Machine) : Prop :=
  quiet w w'
  /\ (shaped G (self w) ->
      shaped G (self w') /\ total (self w') = total (self w)).

(** The clock and what no method changes are untouched. *)
Definition timed (s s' : Metapopulation) : Prop :=
  core_same s s' /\ time s' = time s.

(** The engine method [e] was entered and left the clock alone. *)
Definition entered_timed (e : step) (w w' : Machine) : Prop :=
  timed (self w) (self w')
  /\ exists evs, history w' = history w ++ Enter e :: evs /\ silent evs.

(** [change_environment] ran: the landscape is the table of effects
    freshly drawn from the generator. *)
Definition environment_changed_by (w w' : Machine) : Prop :=
  entered_timed ChangeEnvironment w w'
  /\ landscape_table (genome_length (config (self w)))
       (base_fitness (config (self w))) (production_cost (config (self w)))
       (fst (effects_sampler (config (self w)) (random_state w)))
     = OK (fitness_landscape (self w')).

(** The events of the last step of a cycle at time [t]. *)
Definition closing_events (cfg : Config) (t : Z) (topo : Topology)
  (evs : list event) : list event :=
  if due (env_change_frequency cfg) t
  then Enter ChangeEnvironment :: evs
  else Enter Dilute
       :: map (fun n => PopCall n (PDilute (dilution_stochastic cfg)))
              (nodes topo).

(** The events of one cycle at time [t], the [e]s being the calls made
    inside each method. *)
Definition cycle_events (cfg : Config) (t : Z) (topo : Topology)
  (e1 e2 e3 e4 e5 e6 e7 : list event) : list event :=
  Enter Grow :: e1 ++ Enter Mutate :: e2 ++ Enter Migrate :: e3
  ++ Enter Census :: e4 ++ Enter WriteLogfiles :: e5
  ++ (if due (mix_frequency cfg) t then Enter Mix :: e6 else [])
  ++ closing_events cfg t topo e7.

(** The engine methods one cycle at time [t] enters, in order. *)
Definition cycle_order (cfg : Config) (t : Z) : list event :=
  map Enter
    ([Grow; Mutate; Migrate; Census; WriteLogfiles]
     ++ (if due (mix_frequency cfg) t then [Mix] else [])
     ++ [if due (env_change_frequency cfg) t then ChangeEnvironment
         else Dilute]).

(** One cycle ran from [w] to [w']. *)
Definition cycled (w w' : Machine) : Prop :=
  let cfg := config (self w) in
  let t := time (self w) in
  core_same (self w) (self w')
  /\ time (self w') = t + 1
  /\ environment_changed (self w') = due (env_change_frequency cfg) t
  /\ (due (env_change_frequency cfg) t = false ->
      fitness_landscape (self w') = fitness_landscape (self w))
  /\ exists e1 e2 e3 e4 e5 e6 e7,
       silent e1 /\ silent e2 /\ silent e3 /\ silent e4 /\ silent e5
       /\ silent e6 /\ silent e7
       /\ history w'
          = history w
            ++ cycle_events cfg t (topology (self w)) e1 e2 e3 e4 e5 e6 e7.

End Vocabulary.

(** ** Deterministic stand-ins for the collaborators

    A fixed, computable choice for every external function, used to run
    the engine on concrete inputs. The generator state is a counter. *)

Module Reference.

(** The integer part of [rate * a]. *)
Definition scale (rate : Q) (a : Z) : Z :=
  Z.quot (Qnum rate * a) (Z.pos (Qden rate)).

#[global] Instance externals : Externals := {
  Rand := nat;
  np_binomial1 p r :=
    (Qle_bool 1 p || (negb (Qle_bool p 0) && Nat.odd r), S r);
  np_random_integers lo hi r :=
    (lo + Z.of_nat r mod (hi - lo + 1), S r);
  np_choice a r := (nth (r mod length a) a 0%nat, S r);
  np_binomial n p r := (map (scale p) n, S r);
  exponential_draw scale n r := (repeat scale n, S r);
  np_uniform lo hi n r := (repeat ((lo + hi) / 2)%Q n, S r);
  pop_grow _ p r :=
    (mkPopulation (map (Z.mul 2) (abundances p)) (immigrants p), r);
  pop_mutate _ p r := (p, r);
  pop_dilute _ p r :=
    (mkPopulation (map (fun a => a / 10) (abundances p)) (immigrants p), r);
  pop_bottleneck rate p r :=
    (mkPopulation (map (scale rate) (abundances p)) (immigrants p), r);
  pop_reset_loci p r := (p, r);
  pop_select_migrants rate p r :=
    (map (fun a => Z.min a (scale rate a)) (abundances p), S r)
}.

(** A ring of [n] nodes: node [k] is adjacent to [k-1] and [k+1]. *)
Definition ring (n : nat) : Topology :=
  mkTopology n (fun k => [(k + n - 1) mod n; (k + 1) mod n]%nat).

(** A complete graph of a single node. *)
Definition single_node : Topology := mkTopology 1 (fun _ => []).

Definition example_config : Config :=
  mkConfig (1 # 2) Single (1 # 4) 1 false 1 1 (3 # 10) false (1 # 10) 0
    (1 # 100) (1 # 100) (1 # 10) Corners 100 10 0.5%float 3 5 true false false.

(** The example configuration with migration switched off. *)
Definition sessile_config : Config :=
  mkConfig 0 Single (1 # 4) 1 false 1 1 (3 # 10) false (1 # 10) 0
    (1 # 100) (1 # 100) (1 # 10) Corners 100 10 0.5%float 3 5 true false false.

(** The example configuration with local migration only. *)
Definition local_config : Config :=
  mkConfig (1 # 2) Single 0 1 false 1 1 (3 # 10) false (1 # 10) 0
    (1 # 100) (1 # 100) (1 # 10) Corners 100 10 0.5%float 3 5 true false false.

(** The initial state of the generator. *)
Definition seed : @Rand externals := 0%nat.

(** The engine constructed from the example configuration on a ring of
    three nodes. *)
Definition engine : Machine :=
  match new_metapopulation example_config (ring 3) seed with
  | OK w => w
  | Raise _ => fresh example_config (ring 3) seed
  end.

(** The engine constructed without migration. *)
Definition sessile_engine : Machine :=
  match new_metapopulation sessile_config (ring 3) seed with
  | OK w => w
  | Raise _ => fresh sessile_config (ring 3) seed
  end.

(** The engine constructed on a single node, with local migration
    only. *)
Definition lonely_engine : Machine :=
  match new_metapopulation local_config single_node seed with
  | OK w => w
  | Raise _ => fresh local_config single_node seed
  end.

End Reference.

(** ** Further vocabulary *)

(** The bits of the adaptive loci of genotype [i] for genome length [L]:
    its bits padded to [L + 1] places, without the leading social bit. *)
Definition adaptive_bits (L : nat) (i : N) : list Z :=
  tl (Genome.padded_bits (S L) i).

(** The summed effects of the adaptive loci that genotype [i] carries. *)
Definition adaptive_effect (L : nat) (draws : list Q) (i : N) : Q :=
  Array.sumQ (Array.map2 Qmult (map inject_Z (adaptive_bits L i)) draws).

Section Threading.

Context {ext : Externals}.

(** A stochastic method [f] applied to the populations in order, each
    call drawing from the generator where the previous one left it. *)
Fixpoint thread (f : Population -> Rand -> Population * Rand)
  (pops : list Population) (r : Rand) : list Population * Rand :=
  match pops with
  | [] => ([], r)
  | p :: rest =>
      let pr := f p r in
      let qs := thread f rest (snd pr) in
      (fst pr :: fst qs, snd qs)
  end.

(** [bottleneck] followed by [reset_loci] on one population. *)
Definition bottleneck_and_reset (rate : Q) (p : Population) (r : Rand)
  : Population * Rand :=
  let b := pop_bottleneck rate p r in
  pop_reset_loci (fst b) (snd b).

(** One population's share of the pooled abundances [pool] in [mix]; the
    immigrant buffer is not touched. *)
Definition redraw (pool : list Z) (q : Q) (p : Population) (r : Rand)
  : Population * Rand :=
  let a := np_binomial pool q r in
  (mkPopulation (fst a) (immigrants p), snd a).

End Threading.

(** The abundances of all nodes summed per genotype into an int64
    array, as [mix] pools them. *)
Definition pooled_abundances (s : Metapopulation) : list Z :=
  fold_left (fun acc p => Array.map2 Int64.add acc (abundances p))
    (populations s)
    (Array.zeros 0 (length (fitness_landscape s))).

(** The population the policy [stress] builds on every node before its
    bottleneck: [num_producers] at genotype 0 and [num_nonproducers] at
    genotype [2^L]. *)
Definition stress_population (cfg : Config) (counts : Z * Z) : Population :=
  mkPopulation
    (replace_nth
       (replace_nth (abundances (Pop.new cfg)) 0 (fst counts))
       (Z.to_nat (2 ^ genome_length cfg))
       (snd counts))
    (immigrants (Pop.new cfg)).

(** The policy [stress] can count its individuals on every node it
    visits. *)
Definition stress_ready (cfg : Config) (topo : Topology) : Prop :=
  initial_state cfg = Stress -> number_of_nodes topo <> 0%nat ->
  exists counts, stress_counts cfg = OK counts.

(** The first three assertions of the constructor. *)
Definition early_asserts (cfg : Config) : bool :=
  Qle_bool 0 (migration_rate cfg) && Qle_bool (migration_rate cfg) 1
  && Qle_bool 0 (migration_p_far cfg) && Qle_bool (migration_p_far cfg) 1
  && (0 <? log_frequency cfg).

(** ** Further example configurations *)

Module Extra.

(** The example configuration without mutation. *)
Definition clonal_config : Config :=
  mkConfig (1 # 2) Single (1 # 4) 1 false 1 1 (3 # 10) false (1 # 10) 0
    0 0 (1 # 10) Corners 100 10 0.5%float 3 5 true false false.

(** The example configuration under the policy [stress], with
    capacities 0 and 100 and the producer proportion [0.29]. *)
Definition stress_config : Config :=
  mkConfig (1 # 2) Single (1 # 4) 1 false 1 1 (3 # 10) false (1 # 10) 0
    (1 # 100) (1 # 100) (1 # 10) Stress 100 0 (29 / 100)%float 3 5
    true false false.

(** The example configuration with exponential effects of a negative
    average. *)
Definition negative_scale_config : Config :=
  mkConfig (1 # 2) Single (1 # 4) 1 false 1 1 (3 # 10) true (-1 # 10) 0
    (1 # 100) (1 # 100) (1 # 10) Corners 100 10 0.5%float 3 5
    true false false.

(** The example configuration with an unrecognised initial state. *)
Definition unseeded_config : Config :=
  mkConfig (1 # 2) Single (1 # 4) 1 false 1 1 (3 # 10) false (1 # 10) 0
    (1 # 100) (1 # 100) (1 # 10) OtherInitialState 100 10 0.5%float 3 5
    true false false.

(** The example configuration with a negative genome length. *)
Definition negative_length_config : Config :=
  mkConfig (1 # 2) Single (1 # 4) 1 false (-1) 1 (3 # 10) false (1 # 10) 0
    (1 # 100) (1 # 100) (1 # 10) Corners 100 10 0.5%float 3 5 true false false.

End Extra.

(** * Properties *)

(** ** int64 arithmetic *)

Lemma wrap_idemp_add (a x : Z) :
  Int64.wrap (Int64.wrap a + x) = Int64.wrap (a + x).
Proof.
  unfold Int64.wrap.
  replace ((a + Int64.half_modulus) mod Int64.modulus - Int64.half_modulus
           + x + Int64.half_modulus)
    with ((a + Int64.half_modulus) mod Int64.modulus + x) by ring.
  rewrite Zplus_mod_idemp_l. f_equal. f_equal. ring.
Qed.

Lemma wrap_idemp_add_r (a x : Z) :
  Int64.wrap (a + Int64.wrap x) = Int64.wrap (a + x).
Proof.
  rewrite Z.add_comm, wrap_idemp_add. f_equal. ring.
Qed.

Lemma wrap_idemp_mul_r (a x : Z) :
  Int64.wrap (a * Int64.wrap x) = Int64.wrap (a * x).
Proof.
  unfold Int64.wrap.
  f_equal.
  rewrite <- (Zplus_mod_idemp_l (a * _)), <- (Zplus_mod_idemp_l (a * x)).
  f_equal. f_equal.
  rewrite <- (Zmult_mod_idemp_r (_ - _)), <- (Zmult_mod_idemp_r x).
  f_equal. f_equal.
  rewrite Zminus_mod_idemp_l.
  f_equal. ring.
Qed.

Lemma wrap_small (x : Z) : - 2 ^ 63 <= x < 2 ^ 63 -> Int64.wrap x = x.
Proof.
  unfold Int64.wrap, Int64.modulus, Int64.half_modulus.
  change (2 ^ 64) with 18446744073709551616.
  change (2 ^ 63) with 9223372036854775808.
  intros Hx. rewrite Z.mod_small; lia.
Qed.

Lemma int64_sum_from (l : list Z) (a : Z) :
  fold_left Int64.add l (Int64.wrap a) = Int64.wrap (a + Array.sumZ l).
Proof.
  revert a. induction l as [|x l IH]; intros a; simpl.
  - f_equal. ring.
  - unfold Int64.add at 2. rewrite wrap_idemp_add, IH. f_equal. ring.
Qed.

Lemma int64_sum_exact (l : list Z) : Int64.sum l = Int64.wrap (Array.sumZ l).
Proof.
  unfold Int64.sum. change 0 with (Int64.wrap 0) at 1.
  rewrite int64_sum_from. reflexivity.
Qed.

(** ** The genome codec *)

Lemma arange_S (n : nat) :
  Genome.arange (S n) = Genome.arange n ++ [Z.of_nat n].
Proof.
  unfold Genome.arange. rewrite seq_S, map_app. reflexivity.
Qed.

Lemma weights_S (n : nat) :
  map (Int64.pow 2) (rev (Genome.arange (S n)))
  = Int64.pow 2 (Z.of_nat n) :: map (Int64.pow 2) (rev (Genome.arange n)).
Proof.
  rewrite arange_S, rev_app_distr. reflexivity.
Qed.

Lemma weighted_sum_exact (a : list Z) :
  Int64.wrap
    (Array.sumZ
       (Array.map2 Int64.mul a
          (map (Int64.pow 2) (rev (Genome.arange (length a))))))
  = Int64.wrap (Genome.be_value a).
Proof.
  induction a as [|x a IH].
  - reflexivity.
  - cbn [length]. rewrite weights_S. cbn [Array.map2 Array.sumZ fold_right].
    change (fold_right Z.add 0 ?l) with (Array.sumZ l).
    cbn [Genome.be_value].
    rewrite <- wrap_idemp_add_r, IH, wrap_idemp_add_r.
    unfold Int64.mul, Int64.pow.
    rewrite wrap_idemp_add.
    rewrite <- (wrap_idemp_add (x * _)), wrap_idemp_mul_r, wrap_idemp_add.
    reflexivity.
Qed.

Lemma bitstring_as_base10_exact (a : list Z) :
  Genome.bitstring_as_base10 a = Int64.wrap (Genome.be_value a).
Proof.
  unfold Genome.bitstring_as_base10.
  rewrite int64_sum_exact. apply weighted_sum_exact.
Qed.

Lemma pos_digits_app (p : positive) (acc : list ascii) :
  Genome.pos_digits p acc = Genome.pos_digits p [] ++ acc.
Proof.
  revert acc. induction p as [q IH|q IH|]; intros acc; simpl.
  - rewrite (IH ["1"%char]), IH, <- app_assoc. reflexivity.
  - rewrite (IH ["0"%char]), IH, <- app_assoc. reflexivity.
  - reflexivity.
Qed.

Lemma be_value_app (a b : list Z) :
  Genome.be_value (a ++ b)
  = Genome.be_value a * 2 ^ Z.of_nat (length b) + Genome.be_value b.
Proof.
  induction a as [|x a IH]; simpl Genome.be_value.
  - simpl. lia.
  - rewrite IH. cbn [app]. simpl Genome.be_value.
    rewrite length_app, Nat2Z.inj_add, Z.pow_add_r by lia. ring.
Qed.

Lemma pos_bits_xO (p : positive) : Genome.pos_bits (xO p) = Genome.pos_bits p ++ [0].
Proof.
  unfold Genome.pos_bits. simpl. rewrite pos_digits_app, map_app. reflexivity.
Qed.

Lemma pos_bits_xI (p : positive) : Genome.pos_bits (xI p) = Genome.pos_bits p ++ [1].
Proof.
  unfold Genome.pos_bits. simpl. rewrite pos_digits_app, map_app. reflexivity.
Qed.

Lemma be_value_pos_bits (p : positive) : Genome.be_value (Genome.pos_bits p) = Z.pos p.
Proof.
  induction p as [q IH|q IH|].
  - rewrite pos_bits_xI, be_value_app, IH. simpl. lia.
  - rewrite pos_bits_xO, be_value_app, IH. simpl. lia.
  - reflexivity.
Qed.

Lemma pos_bits_leading (p : positive) :
  exists rest, Genome.pos_bits p = 1 :: rest /\ Genome.binary rest.
Proof.
  induction p as [q [rest [E F]]|q [rest [E F]]|].
  - exists (rest ++ [1]). rewrite pos_bits_xI, E. split; [reflexivity|].
    apply Forall_app. split; [exact F|]. constructor; [right; reflexivity|constructor].
  - exists (rest ++ [0]). rewrite pos_bits_xO, E. split; [reflexivity|].
    apply Forall_app. split; [exact F|]. constructor; [left; reflexivity|constructor].
  - exists []. split; [reflexivity|constructor].
Qed.

Lemma base10_as_bitarray_pos (p : positive) :
  Genome.base10_as_bitarray (N.pos p) = Genome.pos_bits p.
Proof. reflexivity. Qed.

Lemma be_value_base10_as_bitarray (g : N) :
  Genome.be_value (Genome.base10_as_bitarray g) = Z.of_N g.
Proof.
  destruct g as [|p]; [reflexivity|].
  rewrite base10_as_bitarray_pos. apply be_value_pos_bits.
Qed.

(** C10 (as amended): for every genotype [g] below [2^63], encoding the
    decoded bit sequence gives [g] back; decoding 0 yields the
    one-element sequence [0]; the decoded sequence of a positive [g]
    starts with the digit 1, consists of binary digits and has the
    most-significant-first value [g]. *)
Theorem bitstring_roundtrip_below_2_63 (g : N) :
  (Z.of_N g < 2 ^ 63 ->
   Genome.bitstring_as_base10 (Genome.base10_as_bitarray g) = Z.of_N g)
  /\ Genome.base10_as_bitarray 0 = [0]
  /\ ((0 < g)%N ->
      exists rest,
        Genome.base10_as_bitarray g = 1 :: rest
        /\ Genome.binary rest
        /\ Genome.be_value (Genome.base10_as_bitarray g) = Z.of_N g).
Proof.
  split; [|split].
  - intros Hg. rewrite bitstring_as_base10_exact, be_value_base10_as_bitarray.
    apply wrap_small. lia.
  - reflexivity.
  - intros Hpos. destruct g as [|p]; [lia|].
    destruct (pos_bits_leading p) as [rest [E F]].
    exists rest. rewrite base10_as_bitarray_pos. repeat split; try assumption.
    apply be_value_pos_bits.
Qed.

Lemma bitstring_roundtrip_below_2_63_witness :
  Genome.bitstring_as_base10 (Genome.base10_as_bitarray 5) = 5
  /\ exists rest,
       Genome.base10_as_bitarray 5 = 1 :: rest
       /\ Genome.binary rest
       /\ Genome.be_value (Genome.base10_as_bitarray 5) = 5.
Proof.
  split.
  - apply (proj1 (bitstring_roundtrip_below_2_63 5)). reflexivity.
  - apply (proj2 (proj2 (bitstring_roundtrip_below_2_63 5))). reflexivity.
Defined.

(** C10 (as stated) fails at [g = 2^63]: the weight [2**63] wraps to
    [-2^63] in int64, and so does the encoded value. *)
Lemma bitstring_roundtrip_fails_at_2_63 :
  Genome.bitstring_as_base10 (Genome.base10_as_bitarray (2 ^ 63))
    = - 2 ^ 63
  /\ Genome.bitstring_as_base10 (Genome.base10_as_bitarray (2 ^ 63))
     <> Z.of_N (2 ^ 63).
Proof.
  split; [vm_compute; reflexivity | vm_compute; discriminate].
Qed.

(** ** Fixed-width binary expansions *)

Lemma bits_binary (g : N) : Genome.binary (Genome.base10_as_bitarray g).
Proof.
  destruct g as [|p].
  - repeat constructor.
  - rewrite base10_as_bitarray_pos.
    destruct (pos_bits_leading p) as [rest [E F]]. rewrite E.
    constructor; [right; reflexivity | exact F].
Qed.

Lemma pos_bits_length (p : positive) (n : nat) :
  Z.pos p < 2 ^ Z.of_nat n -> (length (Genome.pos_bits p) <= n)%nat.
Proof.
  revert n. induction p as [q IH|q IH|]; intros n Hn.
  - destruct n as [|n]; [simpl in Hn; lia|].
    rewrite pos_bits_xI, length_app. simpl.
    rewrite Nat2Z.inj_succ, Z.pow_succ_r in Hn by lia.
    specialize (IH n). lia.
  - destruct n as [|n]; [simpl in Hn; lia|].
    rewrite pos_bits_xO, length_app. simpl.
    rewrite Nat2Z.inj_succ, Z.pow_succ_r in Hn by lia.
    specialize (IH n). lia.
  - destruct n as [|n]; [simpl in Hn; lia|]. simpl. lia.
Qed.

Lemma bits_length (g : N) (n : nat) :
  Z.of_N g < 2 ^ Z.of_nat (S n) ->
  (length (Genome.base10_as_bitarray g) <= S n)%nat.
Proof.
  destruct g as [|p]; intros Hg.
  - simpl. lia.
  - rewrite base10_as_bitarray_pos. apply pos_bits_length. exact Hg.
Qed.

Lemma be_value_zeros (k : nat) (l : list Z) :
  Genome.be_value (repeat 0 k ++ l) = Genome.be_value l.
Proof.
  induction k as [|k IH]; simpl; [reflexivity|]. rewrite IH. lia.
Qed.

Lemma be_value_bound (l : list Z) :
  Genome.binary l -> 0 <= Genome.be_value l < 2 ^ Z.of_nat (length l).
Proof.
  induction 1 as [|d l Hd Hl IH]; simpl Genome.be_value.
  - simpl. lia.
  - cbn [length]. rewrite Nat2Z.inj_succ, Z.pow_succ_r by lia.
    destruct Hd; subst d; lia.
Qed.

Lemma binary_unique (l1 l2 : list Z) :
  Genome.binary l1 -> Genome.binary l2 -> length l1 = length l2 ->
  Genome.be_value l1 = Genome.be_value l2 -> l1 = l2.
Proof.
  intros B1. revert l2.
  induction B1 as [|d1 l1 Hd1 Hl1 IH]; intros l2 B2 Hlen Hval.
  - destruct l2; [reflexivity | discriminate].
  - destruct B2 as [|d2 l2 Hd2 Hl2]; [discriminate|].
    injection Hlen as Hlen. simpl in Hval. rewrite Hlen in Hval.
    pose proof (be_value_bound l1 Hl1) as Hb1.
    pose proof (be_value_bound l2 Hl2) as Hb2.
    rewrite Hlen in Hb1.
    assert (d1 = d2) by (destruct Hd1, Hd2; subst; lia).
    subst d2. f_equal. apply IH; [assumption | assumption | lia].
Qed.

Lemma padded_bits_spec (n : nat) (g : N) :
  Z.of_N g < 2 ^ Z.of_nat (S n) ->
  length (Genome.padded_bits (S n) g) = S n
  /\ Genome.binary (Genome.padded_bits (S n) g)
  /\ Genome.be_value (Genome.padded_bits (S n) g) = Z.of_N g.
Proof.
  intros Hg. pose proof (bits_length g n Hg) as Hlen.
  unfold Genome.padded_bits. repeat split.
  - rewrite length_app, repeat_length. lia.
  - apply Forall_app. split; [|apply bits_binary].
    apply Forall_forall. intros x Hx. apply repeat_spec in Hx. left. exact Hx.
  - rewrite be_value_zeros. apply be_value_base10_as_bitarray.
Qed.

(** A non-producer genotype and its matching producer genotype have the
    same adaptation bits. *)
Lemma padded_bits_social (n : nat) (i : N) :
  Z.of_N i < 2 ^ Z.of_nat n ->
  exists t,
    length t = n
    /\ Genome.padded_bits (S n) i = 0 :: t
    /\ Genome.padded_bits (S n) (i + 2 ^ N.of_nat n) = 1 :: t.
Proof.
  intros Hi.
  assert (Hp : Z.of_N (2 ^ N.of_nat n) = 2 ^ Z.of_nat n).
  { rewrite N2Z.inj_pow, nat_N_Z. reflexivity. }
  assert (H2 : 2 ^ Z.of_nat (S n) = 2 * 2 ^ Z.of_nat n).
  { rewrite Nat2Z.inj_succ, Z.pow_succ_r by lia. reflexivity. }
  assert (H0 : 0 < 2 ^ Z.of_nat n) by (apply Z.pow_pos_nonneg; lia).
  destruct (padded_bits_spec n i) as [L1 [B1 V1]]; [lia|].
  destruct (padded_bits_spec n (i + 2 ^ N.of_nat n)) as [L2 [B2 V2]].
  { rewrite N2Z.inj_add, Hp. lia. }
  destruct (Genome.padded_bits (S n) i) as [|b t] eqn:E; [discriminate|].
  injection L1 as L1.
  pose proof (Forall_inv B1) as Hb. pose proof (Forall_inv_tail B1) as Ht.
  pose proof (be_value_bound t Ht) as Hbt.
  cbn [Genome.be_value] in V1. rewrite L1 in V1, Hbt.
  assert (Eb : b = 0) by (destruct Hb; subst b; [reflexivity | lia]).
  subst b. exists t. split; [exact L1|]. split; [reflexivity|].
  apply binary_unique.
  - exact B2.
  - constructor; [right; reflexivity | exact Ht].
  - rewrite L2. simpl. rewrite L1. reflexivity.
  - rewrite V2, N2Z.inj_add, Hp. cbn [Genome.be_value]. rewrite L1. lia.
Qed.

(** ** Array updates *)

Lemma set_item_spec {A} (a : list A) (i : nat) (v : A) :
  (i < length a)%nat ->
  exists a',
    Array.set_item a i v = Some a'
    /\ length a' = length a
    /\ (forall d, nth i a' d = v)
    /\ (forall j d, j <> i -> nth j a' d = nth j a d).
Proof.
  revert i. induction a as [|x a IH]; intros i Hi; [simpl in Hi; lia|].
  destruct i as [|i].
  - exists (v :: a). simpl.
    refine (conj eq_refl (conj eq_refl (conj (fun _ => eq_refl) _))).
    intros j d Hj. destruct j; [congruence | reflexivity].
  - destruct (IH i) as [a' [E [Hl [Hs Ho]]]]; [simpl in Hi; lia|].
    exists (x :: a'). simpl. rewrite E.
    refine (conj eq_refl (conj _ (conj Hs _))).
    + congruence.
    + intros j d Hj. destruct j; [reflexivity|]. apply Ho. congruence.
Qed.

Section LandscapeFacts.

Context {A : Type} `{Num A}.

(** The loop writes every listed genotype's entry and nothing else. *)
Lemma fill_landscape_spec (effects : list A) (base cost : A) (f : N -> A)
  (d : A) (genotypes : list N) :
  forall landscape,
    NoDup genotypes ->
    (forall i, In i genotypes ->
       (N.to_nat i < length landscape)%nat
       /\ landscape_entry effects base cost i = OK (f i)) ->
    exists landscape',
      fill_landscape effects base cost genotypes landscape = OK landscape'
      /\ length landscape' = length landscape
      /\ (forall i, In i genotypes -> nth (N.to_nat i) landscape' d = f i)
      /\ (forall j, ~ In (N.of_nat j) genotypes ->
            nth j landscape' d = nth j landscape d).
Proof.
  induction genotypes as [|i rest IH]; intros landscape Hnd Hall.
  - exists landscape. simpl.
    refine (conj eq_refl (conj eq_refl (conj _ _)));
      [contradiction | reflexivity].
  - destruct (Hall i (or_introl eq_refl)) as [Hi He].
    destruct (set_item_spec landscape (N.to_nat i) (f i) Hi)
      as [l1 [E1 [Hl1 [Hs1 Ho1]]]].
    inversion Hnd as [|? ? Hnotin Hnd']; subst.
    destruct (IH l1 Hnd') as [l2 [E2 [Hl2 [Hin2 Hout2]]]].
    { intros k Hk. rewrite Hl1. apply Hall. right. exact Hk. }
    exists l2. simpl. rewrite He, E1.
    refine (conj E2 (conj _ (conj _ _))).
    + congruence.
    + intros k [Hk|Hk].
      * subst k. rewrite Hout2; [apply Hs1|].
        rewrite N2Nat.id. exact Hnotin.
      * apply Hin2. exact Hk.
    + intros j Hj. rewrite Hout2.
      * apply Ho1. intros Hji. apply Hj. left. subst j.
        rewrite N2Nat.id. reflexivity.
      * intros Hk. apply Hj. right. exact Hk.
Qed.

End LandscapeFacts.

Lemma range_NoDup (n : Z) : NoDup (Array.range n).
Proof.
  unfold Array.range. apply Injective_map_NoDup.
  - intros x y. apply Nat2N.inj.
  - apply seq_NoDup.
Qed.

Lemma range_In (n : Z) (i : N) :
  In i (Array.range n) <-> (N.to_nat i < Z.to_nat n)%nat.
Proof.
  unfold Array.range. rewrite in_map_iff. split.
  - intros [x [Hx Hin]]. subst i. rewrite Nat2N.id.
    apply in_seq in Hin. lia.
  - intros Hi. exists (N.to_nat i). split; [apply N2Nat.id|].
    apply in_seq. lia.
Qed.

(** ** The fitness landscape over exact rationals *)

Lemma fold_left_Qplus (l : list Q) (a : Q) :
  (fold_left Qplus l a == a + Array.sumQ l)%Q.
Proof.
  revert a. induction l as [|x l IH]; intros a; simpl.
  - ring.
  - rewrite IH. ring.
Qed.

Lemma landscape_entry_Q (n : nat) (effects : list Q) (base cost : Q) (i : N) :
  length effects = S n ->
  Z.of_N i < 2 ^ Z.of_nat (S n) ->
  landscape_entry effects base cost i = OK (entry_Q (S n) effects base cost i).
Proof.
  intros Hlen Hi. unfold landscape_entry, entry_Q.
  pose proof (bits_length i n Hi) as Hb.
  rewrite Hlen.
  destruct (Nat.ltb_spec (S n) (length (Genome.base10_as_bitarray i)));
    [lia|].
  unfold Genome.padded_bits, Array.zeros. rewrite map_app, map_repeat.
  reflexivity.
Qed.

Lemma entry_Q_social (n : nat) (e_s : Q) (draws : list Q) (base cost : Q)
  (i : N) :
  Z.of_N i < 2 ^ Z.of_nat n ->
  (entry_Q (S n) (e_s :: draws) base cost i
   - entry_Q (S n) (e_s :: draws) base cost (i + 2 ^ N.of_nat n)
   == - e_s)%Q.
Proof.
  intros Hi. destruct (padded_bits_social n i Hi) as [t [_ [E0 E1]]].
  unfold entry_Q, py_sum. rewrite E0, E1. cbn [map Array.map2].
  rewrite !fold_left_Qplus. cbn [Array.sumQ fold_right].
  change (num_of_int 0) with 0%Q.
  change (inject_Z 0) with 0%Q. change (inject_Z 1) with 1%Q.
  ring.
Qed.

Lemma landscape_table_Q (n : nat) (base cost : Q) (draws : list Q) :
  length draws = n ->
  exists landscape,
    landscape_table (Z.of_nat n) base cost draws = OK landscape
    /\ length landscape = Z.to_nat (2 ^ (Z.of_nat n + 1))
    /\ forall i : nat,
         Z.of_nat i < 2 ^ Z.of_nat n ->
         (nth i landscape 0 - nth (i + Z.to_nat (2 ^ Z.of_nat n)) landscape 0
          == cost)%Q.
Proof.
  intros Hlen. unfold landscape_table.
  set (effects := (num_mul (num_of_int (-1)) cost :: draws)).
  assert (HS : Z.of_nat n + 1 = Z.of_nat (S n)) by lia.
  assert (H2 : 2 ^ Z.of_nat (S n) = 2 * 2 ^ Z.of_nat n).
  { rewrite Nat2Z.inj_succ, Z.pow_succ_r by lia. reflexivity. }
  assert (H0 : 0 < 2 ^ Z.of_nat n) by (apply Z.pow_pos_nonneg; lia).
  rewrite HS.
  destruct (fill_landscape_spec effects base cost
              (entry_Q (S n) effects base cost) 0%Q
              (Array.range (2 ^ Z.of_nat (S n)))
              (Array.zeros (num_of_int 0) (Z.to_nat (2 ^ Z.of_nat (S n)))))
    as [landscape [E [Hl [Hin _]]]].
  - apply range_NoDup.
  - intros i Hi. apply range_In in Hi. split.
    + unfold Array.zeros. rewrite repeat_length. exact Hi.
    + apply landscape_entry_Q; [simpl; congruence | lia].
  - exists landscape. split; [exact E|]. split.
    + rewrite Hl. unfold Array.zeros. apply repeat_length.
    + intros i Hi.
      assert (Hp : Z.of_N (2 ^ N.of_nat n) = 2 ^ Z.of_nat n).
      { rewrite N2Z.inj_pow, nat_N_Z. reflexivity. }
      assert (E1 : nth i landscape 0%Q
                   = entry_Q (S n) effects base cost (N.of_nat i)).
      { rewrite <- (Nat2N.id i) at 1. apply Hin. apply range_In. lia. }
      assert (E2 : nth (i + Z.to_nat (2 ^ Z.of_nat n)) landscape 0%Q
                   = entry_Q (S n) effects base cost
                       (N.of_nat i + 2 ^ N.of_nat n)).
      { replace (i + Z.to_nat (2 ^ Z.of_nat n))%nat
          with (N.to_nat (N.of_nat i + 2 ^ N.of_nat n)) by lia.
        apply Hin. apply range_In. lia. }
      rewrite E1, E2. unfold effects. rewrite entry_Q_social by lia.
      change (num_mul (num_of_int (-1)) cost) with (inject_Z (-1) * cost)%Q.
      change (inject_Z (-1)) with (-1 # 1)%Q. ring.
Qed.

(** ** The reference collaborators honour the contract *)

Lemma reference_ok : ExternalsOk Reference.externals.
Proof.
  constructor.
  - intros lo hi r Hle. simpl.
    pose proof (Z.mod_pos_bound (Z.of_nat r) (hi - lo + 1)). lia.
  - intros a r Ha. simpl. apply nth_In.
    apply Nat.mod_upper_bound. destruct a; [congruence | discriminate].
  - intros scale n r. simpl. apply repeat_length.
  - intros lo hi n r. simpl. apply repeat_length.
  - intros rate p r. simpl.
    induction (abundances p) as [|a l IH]; simpl; constructor;
      [apply Z.le_min_l | exact IH].
Qed.

(** ** C1: the fitness landscape *)

Section LandscapeClaim.

Context {ext : Externals} {ok : ExternalsOk ext}.

Lemma effects_sampler_size (cfg : Config) (r : Rand) :
  length (fst (effects_sampler cfg r)) = Z.to_nat (genome_length cfg).
Proof.
  unfold effects_sampler. destruct (fitness_exponential cfg);
    [apply exponential_draw_size | apply np_uniform_size].
Qed.

Lemma effects_scale_ok_spec (cfg : Config) :
  effects_scale_ok cfg = true
  <-> (fitness_exponential cfg = true -> (0 <= fitness_avg_effect cfg)%Q).
Proof.
  unfold effects_scale_ok. rewrite <- Qle_bool_iff.
  destruct (fitness_exponential cfg); cbn [negb orb];
    split; auto; intros _; discriminate.
Qed.

(** Under its two assertions and numpy's check of the exponential scale
    [build_fitness_landscape] draws the effects once and returns their
    table; the object is left as it was. *)
Lemma build_fitness_landscape_runs (w : Machine) :
  0 <= genome_length (config (self w)) ->
  (0 <= base_fitness (config (self w)))%Q ->
  effects_scale_ok (config (self w)) = true ->
  exists landscape,
    build_fitness_landscape w
    = OK (landscape,
          mkMachine (self w)
            (snd (effects_sampler (config (self w)) (random_state w)))
            (history w))
    /\ landscape_table (genome_length (config (self w)))
         (base_fitness (config (self w)))
         (production_cost (config (self w)))
         (fst (effects_sampler (config (self w)) (random_state w)))
       = OK landscape.
Proof.
  intros HL Hbase Hscale.
  pose proof (effects_sampler_size (config (self w)) (random_state w))
    as Hsize.
  destruct (landscape_table_Q (Z.to_nat (genome_length (config (self w))))
              (base_fitness (config (self w)))
              (production_cost (config (self w)))
              (fst (effects_sampler (config (self w)) (random_state w)))
              Hsize)
    as [landscape [E _]].
  rewrite Z2Nat.id in E by exact HL.
  exists landscape. split; [|exact E].
  unfold build_fitness_landscape, bind, get_self, assert, ret.
  destruct (Z.leb_spec 0 (genome_length (config (self w)))) as [_|]; [|lia].
  apply Qle_bool_iff in Hbase. rewrite Hbase.
  unfold effects_sampler in E |- *. unfold effects_scale_ok in Hscale.
  destruct (fitness_exponential (config (self w))); cbn [negb orb] in Hscale.
  - unfold np_exponential. rewrite Hscale. unfold sample.
    cbn [random_state self]. rewrite E. reflexivity.
  - unfold sample. cbn [random_state self]. rewrite E. reflexivity.
Qed.

Lemma build_fitness_landscape_refuses_scale (w : Machine) :
  0 <= genome_length (config (self w)) ->
  (0 <= base_fitness (config (self w)))%Q ->
  effects_scale_ok (config (self w)) = false ->
  build_fitness_landscape w = Raise ValueError.
Proof.
  intros HL Hbase Hscale.
  unfold build_fitness_landscape, bind, get_self, assert, ret.
  destruct (Z.leb_spec 0 (genome_length (config (self w)))) as [_|]; [|lia].
  apply Qle_bool_iff in Hbase. rewrite Hbase.
  unfold effects_scale_ok in Hscale.
  destruct (fitness_exponential (config (self w))); cbn [negb orb] in Hscale;
    [|discriminate].
  unfold np_exponential. rewrite Hscale. reflexivity.
Qed.

(** C1 (as amended): for every genome length [L >= 0], base fitness
    [>= 0] and, when the effects are exponential, average effect [>= 0]
    (numpy raises [ValueError] for a negative scale),
    [build_fitness_landscape] returns a table of exactly [2^(L+1)]
    entries and, in exact arithmetic, for every genotype [i < 2^L] the
    entry of [i] minus the entry of the matching producer genotype
    [i + 2^L] equals [production_cost], for every draw of the per-locus
    effects. *)

Theorem build_fitness_landscape_cost_offset (w : Machine) :
  0 <= genome_length (config (self w)) ->
  (0 <= base_fitness (config (self w)))%Q ->
  (fitness_exponential (config (self w)) = true ->
   (0 <= fitness_avg_effect (config (self w)))%Q) ->
  exists landscape w',
    build_fitness_landscape w = OK (landscape, w')
    /\ self w' = self w
    /\ length landscape
       = Z.to_nat (2 ^ (genome_length (config (self w)) + 1))
    /\ forall i : nat,
         Z.of_nat i < 2 ^ genome_length (config (self w)) ->
         (nth i landscape 0
          - nth (i + Z.to_nat (2 ^ genome_length (config (self w))))
                landscape 0
          == production_cost (config (self w)))%Q.
Proof.
  intros HL Hbase Hscale. apply effects_scale_ok_spec in Hscale.
  destruct (build_fitness_landscape_runs w HL Hbase Hscale)
    as [landscape [Erun Etable]].
  pose proof (effects_sampler_size (config (self w)) (random_state w))
    as Hsize.
  destruct (landscape_table_Q (Z.to_nat (genome_length (config (self w))))
              (base_fitness (config (self w)))
              (production_cost (config (self w)))
              (fst (effects_sampler (config (self w)) (random_state w)))
              Hsize)
    as [landscape' [E [Hlen Hdiff]]].
  rewrite Z2Nat.id in E, Hlen, Hdiff by exact HL.
  rewrite E in Etable. injection Etable as <-.
  eexists. eexists.
  split; [exact Erun|]. split; [reflexivity|]. split; assumption.
Qed.

End LandscapeClaim.

Lemma build_fitness_landscape_cost_offset_witness :
  exists landscape w',
    build_fitness_landscape
      (fresh Reference.example_config (Reference.ring 3) Reference.seed)
    = OK (landscape, w')
    /\ self w' = self (fresh Reference.example_config (Reference.ring 3) Reference.seed)
    /\ length landscape = 4%nat
    /\ forall i : nat,
         Z.of_nat i < 2 ->
         (nth i landscape 0 - nth (i + 2) landscape 0 == 3 # 10)%Q.
Proof.
  apply (@build_fitness_landscape_cost_offset Reference.externals reference_ok
           (fresh Reference.example_config (Reference.ring 3) Reference.seed)).
  - simpl. lia.
  - simpl. unfold Qle. simpl. lia.
  - simpl. discriminate.
Defined.

Set Warnings "-inexact-float".

(** C1 (as stated) fails in binary64 arithmetic: for genome length 0,
    base fitness 1.0 and production cost 0.3 the table is [1.3; 1.0] and
    [1.3 - 1.0] is not the float [0.3]. *)
Lemma cost_offset_inexact_in_binary64 :
  landscape_table (A := PrimFloat.float) 0 1%float 0.3%float []
    = OK [1.3%float; 1%float]
  /\ PrimFloat.eqb (num_sub 1.3%float 1%float) 0.3%float = false.
Proof.
  split; vm_compute; reflexivity.
Qed.

Set Warnings "+inexact-float".

(** ** Hamming distance, bit by bit *)

Lemma popcount_double (x : N) :
  Genome.popcount (N.double x) = Genome.popcount x.
Proof.
  destruct x as [|p]; [reflexivity|].
  unfold Genome.popcount, Genome.bin. cbn [N.double Genome.pos_digits].
  rewrite pos_digits_app.
  cbn [count_occ]. destruct (ascii_dec "0" "1"); [discriminate|].
  destruct (ascii_dec "b" "1"); [discriminate|].
  rewrite count_occ_app. cbn [count_occ].
  destruct (ascii_dec "0" "1"); [discriminate|]. lia.
Qed.

Lemma popcount_succ_double (x : N) :
  Genome.popcount (N.succ_double x) = S (Genome.popcount x).
Proof.
  destruct x as [|p]; [reflexivity|].
  unfold Genome.popcount, Genome.bin. cbn [N.succ_double Genome.pos_digits].
  rewrite pos_digits_app.
  cbn [count_occ]. destruct (ascii_dec "0" "1"); [discriminate|].
  destruct (ascii_dec "b" "1"); [discriminate|].
  rewrite count_occ_app. cbn [count_occ].
  destruct (ascii_dec "1" "1"); [|congruence]. lia.
Qed.

Lemma lxor_double_double (a b : N) :
  N.lxor (N.double a) (N.double b) = N.double (N.lxor a b).
Proof. destruct a, b; reflexivity. Qed.

Lemma lxor_succ_double_succ_double (a b : N) :
  N.lxor (N.succ_double a) (N.succ_double b) = N.double (N.lxor a b).
Proof. destruct a, b; reflexivity. Qed.

Lemma lxor_double_succ_double (a b : N) :
  N.lxor (N.double a) (N.succ_double b) = N.succ_double (N.lxor a b).
Proof.
  destruct a as [|p], b as [|q]; reflexivity.
Qed.

Lemma lxor_succ_double_double (a b : N) :
  N.lxor (N.succ_double a) (N.double b) = N.succ_double (N.lxor a b).
Proof.
  destruct a as [|p], b as [|q]; reflexivity.
Qed.

Lemma hamming_distance_low_bit (a b : N) (c d : bool) :
  Genome.hamming_distance (Genome.with_low_bit a c) (Genome.with_low_bit b d)
  = (Genome.hamming_distance a b + (if xorb c d then 1 else 0))%nat.
Proof.
  unfold Genome.hamming_distance.
  change (count_occ ascii_dec (Genome.bin ?x) "1"%char)
    with (Genome.popcount x).
  destruct c, d; unfold Genome.with_low_bit; cbn [xorb].
  - rewrite lxor_succ_double_succ_double, popcount_double. lia.
  - rewrite lxor_succ_double_double, popcount_succ_double. lia.
  - rewrite lxor_double_succ_double, popcount_succ_double. lia.
  - rewrite lxor_double_double, popcount_double. lia.
Qed.

Lemma of_nat_low_bit (k : nat) (c : bool) :
  N.of_nat (2 * k + (if c then 1 else 0)) = Genome.with_low_bit (N.of_nat k) c.
Proof.
  unfold Genome.with_low_bit. destruct c.
  - rewrite N.succ_double_spec. lia.
  - rewrite N.double_spec. lia.
Qed.

(** ** Sums of rationals *)

Lemma sumQ_app (l1 l2 : list Q) :
  (Array.sumQ (l1 ++ l2) == Array.sumQ l1 + Array.sumQ l2)%Q.
Proof.
  induction l1 as [|x l1 IH]; simpl.
  - ring.
  - rewrite IH. ring.
Qed.

Lemma sumQ_map_ext {A} (f g : A -> Q) (l : list A) :
  (forall x, In x l -> (f x == g x)%Q) ->
  (Array.sumQ (map f l) == Array.sumQ (map g l))%Q.
Proof.
  induction l as [|x l IH]; intros Hfg; simpl.
  - reflexivity.
  - rewrite (Hfg x (or_introl eq_refl)), IH; [reflexivity|].
    intros y Hy. apply Hfg. right. exact Hy.
Qed.

(** A sum over [0 .. 2n-1] taken two consecutive terms at a time. *)
Lemma sumQ_pairs (F : nat -> Q) (n : nat) :
  (Array.sumQ (map F (seq 0 (2 * n)))
   == Array.sumQ (map (fun k => F (2 * k)%nat + F (2 * k + 1)%nat) (seq 0 n)))%Q.
Proof.
  induction n as [|n IH].
  - reflexivity.
  - replace (2 * S n)%nat with (S (S (2 * n))) by lia.
    rewrite !seq_S, !map_app, !sumQ_app, IH. cbn [map Array.sumQ fold_right].
    replace (0 + 2 * n)%nat with (2 * n)%nat by lia.
    replace (0 + S (2 * n))%nat with (2 * n + 1)%nat by lia.
    replace (0 + n)%nat with n by lia.
    ring.
Qed.

Lemma Qpower_succ_nonneg (q : Q) (z : Z) :
  0 <= z -> (q ^ (z + 1) == q ^ z * q)%Q.
Proof.
  intros Hz. destruct z as [|p|p]; [simpl; ring | | lia].
  change (Z.pos p + 1) with (Z.pos (p + 1)).
  simpl. rewrite Qpower_plus_positive. simpl. reflexivity.
Qed.

(** ** Row sums of the mutation matrix *)

Lemma split_low_bit (i : nat) :
  exists i' c, i = (2 * i' + (if c : bool then 1 else 0))%nat.
Proof.
  exists (i / 2)%nat, (i mod 2 =? 1)%nat.
  pose proof (Nat.div_mod_eq i 2) as E.
  pose proof (Nat.mod_upper_bound i 2) as B.
  destruct (Nat.eqb_spec (i mod 2) 1); lia.
Qed.

Lemma social_differs_low_bit (L i j : nat) (c d : bool) :
  Mutation.social_differs (S L)
    (2 * i + (if c then 1 else 0)) (2 * j + (if d then 1 else 0))
  = Mutation.social_differs L i j.
Proof.
  unfold Mutation.social_differs. rewrite Nat.pow_succ_r'.
  set (h := (2 ^ L)%nat).
  assert (Hi : ((2 * i + (if c then 1 else 0) <? 2 * h) = (i <? h))%nat).
  { destruct (Nat.ltb_spec i h), (Nat.ltb_spec (2 * i + (if c then 1 else 0)) (2 * h));
      destruct c; try reflexivity; lia. }
  assert (Hj : ((2 * j + (if d then 1 else 0) <? 2 * h) = (j <? h))%nat).
  { destruct (Nat.ltb_spec j h), (Nat.ltb_spec (2 * j + (if d then 1 else 0)) (2 * h));
      destruct d; try reflexivity; lia. }
  rewrite Hi, Hj. reflexivity.
Qed.

Lemma hamming_distance_nat_low_bit (i j : nat) (c d : bool) :
  Genome.hamming_distance
    (N.of_nat (2 * j + (if d then 1 else 0)))
    (N.of_nat (2 * i + (if c then 1 else 0)))
  = (Genome.hamming_distance (N.of_nat j) (N.of_nat i)
     + (if xorb d c then 1 else 0))%nat.
Proof.
  rewrite !of_nat_low_bit. apply hamming_distance_low_bit.
Qed.

(** The adaptation-only Hamming distance lies between 0 and [L]. *)
Lemma adaptation_distance_bound (L : nat) :
  forall i j : nat,
    (i < 2 ^ S L)%nat -> (j < 2 ^ S L)%nat ->
    0 <= Z.of_nat (Genome.hamming_distance (N.of_nat j) (N.of_nat i))
         - Mutation.social_differs L i j
      <= Z.of_nat L.
Proof.
  induction L as [|L IH]; intros i j Hi Hj.
  - change (2 ^ 1)%nat with 2%nat in Hi, Hj.
    destruct i as [|[|i]]; [| |lia]; destruct j as [|[|j]]; try lia;
      vm_compute; split; discriminate.
  - destruct (split_low_bit i) as [i' [c Ei]].
    destruct (split_low_bit j) as [j' [d Ej]].
    rewrite Nat.pow_succ_r' in Hi, Hj.
    assert (Hi' : (i' < 2 ^ S L)%nat) by (destruct c; lia).
    assert (Hj' : (j' < 2 ^ S L)%nat) by (destruct d; lia).
    specialize (IH i' j' Hi' Hj').
    subst i j.
    rewrite hamming_distance_nat_low_bit, social_differs_low_bit.
    destruct (xorb d c); lia.
Qed.

Lemma transition_low_bit (L : nat) (m_s m_a : Q) (ha s : Z) (e : bool) :
  0 <= ha <= Z.of_nat L ->
  (Mutation.transition (Z.of_nat (S L)) m_s m_a
     (ha + (if e then 1 else 0)) s
   == Mutation.transition (Z.of_nat L) m_s m_a ha s
      * (if e then m_a else 1 - m_a))%Q.
Proof.
  intros Hha. unfold Mutation.transition. destruct e.
  - replace (Z.of_nat (S L) - (ha + 1)) with (Z.of_nat L - ha) by lia.
    rewrite (Qpower_succ_nonneg m_a ha) by lia. ring.
  - replace (Z.of_nat (S L) - (ha + 0)) with (Z.of_nat L - ha + 1) by lia.
    replace (ha + 0) with ha by lia.
    rewrite (Qpower_succ_nonneg (1 - m_a) (Z.of_nat L - ha)) by lia. ring.
Qed.

Lemma probability_low_bit (L : nat) (m_s m_a : Q) (i j : nat) (c d : bool) :
  (i < 2 ^ S L)%nat -> (j < 2 ^ S L)%nat ->
  (Mutation.probability (S L) m_s m_a
     (2 * i + (if c then 1 else 0)) (2 * j + (if d then 1 else 0))
   == Mutation.probability L m_s m_a i j
      * (if xorb d c then m_a else 1 - m_a))%Q.
Proof.
  intros Hi Hj. pose proof (adaptation_distance_bound L i j Hi Hj) as Hb.
  unfold Mutation.probability.
  rewrite hamming_distance_nat_low_bit, social_differs_low_bit.
  set (hd := Genome.hamming_distance (N.of_nat j) (N.of_nat i)) in *.
  set (s := Mutation.social_differs L i j) in *.
  replace (Z.of_nat (hd + (if xorb d c then 1 else 0)) - s)
    with (Z.of_nat hd - s + (if xorb d c then 1 else 0))
    by (destruct (xorb d c); lia).
  apply transition_low_bit. exact Hb.
Qed.

(** Two consecutive columns of a row add up to one column of the matrix
    of the genome without its lowest locus. *)
Lemma probability_pair (L : nat) (m_s m_a : Q) (i j : nat) (c : bool) :
  (i < 2 ^ S L)%nat -> (j < 2 ^ S L)%nat ->
  (Mutation.probability (S L) m_s m_a (2 * i + (if c then 1 else 0)) (2 * j)
   + Mutation.probability (S L) m_s m_a
       (2 * i + (if c then 1 else 0)) (2 * j + 1)
   == Mutation.probability L m_s m_a i j)%Q.
Proof.
  intros Hi Hj.
  pose proof (probability_low_bit L m_s m_a i j c false Hi Hj) as H0.
  pose proof (probability_low_bit L m_s m_a i j c true Hi Hj) as H1.
  cbn [xorb] in H0, H1. rewrite Nat.add_0_r in H0.
  rewrite H0, H1. destruct c; cbn [negb]; ring.
Qed.

Lemma row_sum (m_s m_a : Q) (L : nat) :
  forall i : nat,
    (i < 2 ^ S L)%nat ->
    (Array.sumQ (map (Mutation.probability L m_s m_a i) (seq 0 (2 ^ S L)))
     == 1)%Q.
Proof.
  induction L as [|L IH]; intros i Hi.
  - change (2 ^ 1)%nat with 2%nat in *.
    destruct i as [|[|i]]; [| |lia];
      cbn [seq map Array.sumQ fold_right];
      unfold Mutation.probability, Mutation.transition;
      cbn; ring.
  - destruct (split_low_bit i) as [i' [c Ei]].
    rewrite (Nat.pow_succ_r' 2 (S L)) in *.
    assert (Hi' : (i' < 2 ^ S L)%nat) by (destruct c; lia).
    rewrite sumQ_pairs. subst i.
    rewrite (sumQ_map_ext _ (Mutation.probability L m_s m_a i')).
    + apply IH. exact Hi'.
    + intros j Hj. apply in_seq in Hj.
      apply probability_pair; [exact Hi' | lia].
Qed.

(** ** The mutation matrix as a table of [Mutation.probability] *)

Lemma map2_map_map {A B C D} (f : B -> C -> D) (g : A -> B) (k : A -> C)
  (l : list A) :
  Array.map2 f (map g l) (map k l) = map (fun x => f (g x) (k x)) l.
Proof.
  induction l as [|x l IH]; simpl; [reflexivity | rewrite IH; reflexivity].
Qed.

Lemma map_constant {A B} (F : A -> B) (c : B) (l : list A) :
  (forall x, In x l -> F x = c) -> map F l = repeat c (length l).
Proof.
  induction l as [|x l IH]; intros HF; simpl; [reflexivity|].
  rewrite (HF x (or_introl eq_refl)), IH; [reflexivity|].
  intros y Hy. apply HF. right. exact Hy.
Qed.

Lemma indicator_row (h i : nat) (lo hi : Z) :
  map (fun j => if xorb (i <? h)%nat (j <? h)%nat then hi else lo)
      (seq 0 (h + h))
  = if (i <? h)%nat then repeat lo h ++ repeat hi h
    else repeat hi h ++ repeat lo h.
Proof.
  rewrite seq_app, map_app. cbn [Nat.add].
  rewrite (map_constant _ (if (i <? h)%nat then lo else hi) (seq 0 h)).
  - rewrite (map_constant _ (if (i <? h)%nat then hi else lo) (seq h h)).
    + rewrite !length_seq. destruct (i <? h)%nat; reflexivity.
    + intros j Hj. apply in_seq in Hj.
      destruct (Nat.ltb_spec j h); [lia|].
      destruct (i <? h)%nat; reflexivity.
  - intros j Hj. apply in_seq in Hj.
    destruct (Nat.ltb_spec j h); [|lia].
    destruct (i <? h)%nat; reflexivity.
Qed.

Lemma social_indicator_table (L : nat) :
  Mutation.social_indicator (2 ^ L)
  = map (fun i => map (Mutation.social_differs L i) (seq 0 (2 ^ S L)))
        (seq 0 (2 ^ S L)).
Proof.
  unfold Mutation.social_indicator, Mutation.social_differs.
  rewrite Nat.pow_succ_r'. set (h := (2 ^ L)%nat).
  replace (2 * h)%nat with (h + h)%nat by lia.
  rewrite (seq_app h h 0), map_app. cbn [Nat.add].
  f_equal.
  - transitivity (repeat (repeat 0 h ++ repeat 1 h) (length (seq 0 h)));
      [rewrite length_seq; reflexivity|].
    symmetry. apply map_constant.
    intros i Hi. apply in_seq in Hi. cbv beta.
    change (seq 0 h ++ seq h h) with (seq 0 h ++ seq (0 + h) h).
    rewrite <- seq_app, indicator_row.
    destruct (Nat.ltb_spec i h); [reflexivity | lia].
  - transitivity (repeat (repeat 1 h ++ repeat 0 h) (length (seq h h)));
      [rewrite length_seq; reflexivity|].
    symmetry. apply map_constant.
    intros i Hi. apply in_seq in Hi. cbv beta.
    change (seq 0 h ++ seq h h) with (seq 0 h ++ seq (0 + h) h).
    rewrite <- seq_app, indicator_row.
    destruct (Nat.ltb_spec i h); [lia | reflexivity].
Qed.

Lemma to_nat_pow2 (n : nat) : Z.to_nat (2 ^ Z.of_nat n) = (2 ^ n)%nat.
Proof.
  induction n as [|n IH]; [reflexivity|].
  rewrite Nat2Z.inj_succ, Z.pow_succ_r, Nat.pow_succ_r' by lia.
  rewrite Z2Nat.inj_mul by (try apply Z.pow_nonneg; lia).
  rewrite IH. reflexivity.
Qed.

Lemma mutation_matrix_table (cfg : Config) (L : nat) :
  genome_length cfg = Z.of_nat L ->
  Mutation.get_mutation_probabilities cfg
  = OK (map (fun i =>
               map (Mutation.probability L (mutation_rate_social cfg)
                      (mutation_rate_adaptation cfg) i)
                   (seq 0 (2 ^ S L)))
            (seq 0 (2 ^ S L))).
Proof.
  intros HL. unfold Mutation.get_mutation_probabilities. rewrite HL.
  destruct (Z.ltb_spec (Z.of_nat L) 0); [lia|].
  replace (Z.of_nat L + 1) with (Z.of_nat (S L)) by lia.
  unfold Array.range. rewrite !to_nat_pow2, social_indicator_table.
  unfold Mutation.hamming_distances. rewrite map_map.
  f_equal. unfold Array.mat_map2.
  rewrite map2_map_map, map2_map_map.
  apply map_ext. intros i.
  rewrite map_map, map2_map_map, map2_map_map. reflexivity.
Qed.

Lemma nth_table {A} (F : nat -> list A) (n i : nat) :
  (i < n)%nat -> nth i (map F (seq 0 n)) [] = F i.
Proof.
  intros Hi. rewrite (nth_indep _ [] (F 0%nat)) by (rewrite length_map, length_seq; exact Hi).
  rewrite map_nth, seq_nth by exact Hi. reflexivity.
Qed.

(** C2: for every genome length [L >= 0] and mutation rates in [0,1],
    [get_mutation_probabilities] returns a [2^(L+1)] by [2^(L+1)] matrix
    whose entry [i][j] is
    [(1-m_a)^(L-H_a) * m_a^H_a * (1-m_s)^(1-S) * m_s^S], with [H_a] the
    adaptation-only Hamming distance and [S] the social-bit indicator,
    and every row of which sums to exactly 1. *)
Theorem mutation_rows_sum_to_one (cfg : Config) :
  0 <= genome_length cfg ->
  (0 <= mutation_rate_social cfg <= 1)%Q ->
  (0 <= mutation_rate_adaptation cfg <= 1)%Q ->
  exists mr,
    Mutation.get_mutation_probabilities cfg = OK mr
    /\ length mr = Z.to_nat (2 ^ (genome_length cfg + 1))
    /\ forall i : nat,
         (i < length mr)%nat ->
         nth i mr []
         = map (Mutation.probability (Z.to_nat (genome_length cfg))
                  (mutation_rate_social cfg) (mutation_rate_adaptation cfg) i)
               (seq 0 (length mr))
         /\ (Array.sumQ (nth i mr []) == 1)%Q.
Proof.
  intros HL _ _.
  set (L := Z.to_nat (genome_length cfg)).
  assert (EL : genome_length cfg = Z.of_nat L) by (unfold L; lia).
  rewrite (mutation_matrix_table cfg L EL). eexists. split; [reflexivity|].
  rewrite length_map, length_seq. split.
  - rewrite EL. replace (Z.of_nat L + 1) with (Z.of_nat (S L)) by lia.
    symmetry. apply to_nat_pow2.
  - intros i Hi. rewrite nth_table by exact Hi.
    split; [reflexivity|]. apply row_sum. exact Hi.
Qed.

Lemma mutation_rows_sum_to_one_witness :
  exists mr,
    Mutation.get_mutation_probabilities Reference.example_config = OK mr
    /\ length mr = 4%nat
    /\ forall i : nat,
         (i < length mr)%nat ->
         nth i mr []
         = map (Mutation.probability 1 (1 # 100) (1 # 100) i)
               (seq 0 (length mr))
         /\ (Array.sumQ (nth i mr []) == 1)%Q.
Proof.
  apply (mutation_rows_sum_to_one Reference.example_config).
  - simpl. lia.
  - split; unfold Qle; simpl; lia.
  - split; unfold Qle; simpl; lia.
Defined.

(** ** Running the engine's monad *)

Section MonadFacts.

Context {ext : Externals}.

Lemma bind_OK {A B} (c : M A) (k : A -> M B) (w w' : Machine) (a : A) :
  c w = OK (a, w') -> bind c k w = k a w'.
Proof. intros E. unfold bind. rewrite E. reflexivity. Qed.

Lemma bind_Raise {A B} (c : M A) (k : A -> M B) (w : Machine) (e : exn) :
  c w = Raise e -> bind c k w = Raise e.
Proof. intros E. unfold bind. rewrite E. reflexivity. Qed.

Lemma get_self_OK (w : Machine) : get_self w = OK (self w, w).
Proof. reflexivity. Qed.

Lemma put_self_OK (s : Metapopulation) (w : Machine) :
  put_self s w = OK (tt, mkMachine s (random_state w) (history w)).
Proof. reflexivity. Qed.

Lemma record_OK (e : event) (w : Machine) :
  record e w
  = OK (tt, mkMachine (self w) (random_state w) (history w ++ [e])).
Proof. reflexivity. Qed.

Lemma ret_OK {A} (a : A) (w : Machine) : ret a w = OK (a, w).
Proof. reflexivity. Qed.

Lemma sample_OK {A} (f : Rand -> A * Rand) (w : Machine) :
  sample f w
  = OK (fst (f (random_state w)),
        mkMachine (self w) (snd (f (random_state w))) (history w)).
Proof. reflexivity. Qed.

End MonadFacts.

(** [run E] steps over a computation whose result [E] gives. *)
Tactic Notation "run" uconstr(E) := rewrite (bind_OK _ _ _ _ _ E).
Tactic Notation "run" uconstr(E) "in" hyp(H) :=
  rewrite (bind_OK _ _ _ _ _ E) in H.

(** ** The loop that creates the populations *)

Section EngineFacts.

Context {ext : Externals}.

Lemma for_each_app {A} (l1 l2 : list A) (body : A -> M unit) (w : Machine) :
  for_each (l1 ++ l2) body w
  = bind (for_each l1 body) (fun _ => for_each l2 body) w.
Proof.
  revert w. induction l1 as [|x l1 IH]; intros w; simpl.
  - reflexivity.
  - unfold bind. destruct (body x w) as [[[] w1]|e]; [|reflexivity].
    rewrite IH. reflexivity.
Qed.

Lemma nth_error_last {A} (l : list A) (x : A) :
  nth_error (l ++ [x]) (length l) = Some x.
Proof.
  rewrite nth_error_app2 by lia. rewrite Nat.sub_diag. reflexivity.
Qed.

Lemma replace_nth_last {A} (l : list A) (x y : A) :
  replace_nth (l ++ [x]) (length l) y = l ++ [y].
Proof.
  induction l as [|z l IH]; simpl; [reflexivity | rewrite IH; reflexivity].
Qed.

Lemma set_item_replace {A} (a : list A) (i : nat) (v : A) :
  (i < length a)%nat -> Array.set_item a i v = Some (replace_nth a i v).
Proof.
  revert i. induction a as [|x a IH]; intros i Hi; [simpl in Hi; lia|].
  destruct i as [|i]; simpl; [reflexivity|].
  rewrite IH by (simpl in Hi; lia). reflexivity.
Qed.

(** *** The loop that creates the populations, policy [corners] *)

Lemma seed_corner (w : Machine) (g : nat) (v : Z) :
  (g < Z.to_nat (2 ^ (genome_length (config (self w)) + 1)))%nat ->
  let n := length (populations (self w)) in
  let cfg := config (self w) in
  bind (set_abundance n g v)
       (fun _ => call_population n (PDilute (dilution_stochastic cfg))
                   (pop_dilute (dilution_stochastic cfg)))
       (mkMachine
          (set_populations (self w) (populations (self w) ++ [Pop.new cfg]))
          (random_state w) (history w))
  = OK (tt, corner_seeded w n g v).
Proof.
  intros Hg n cfg.
  unfold set_abundance, call_population, population_at, store_population,
    record, sample, bind, get_self, put_self, ret.
  cbn [self populations set_populations random_state history].
  unfold n. rewrite nth_error_last.
  rewrite set_item_replace
    by (unfold Pop.new, Array.zeros; cbn [abundances];
        rewrite repeat_length; exact Hg).
  cbn [self populations set_populations random_state history].
  rewrite replace_nth_last, nth_error_last.
  cbn [self populations set_populations random_state history config time
       topology mutation_probs fitness_landscape environment_changed
       log_objects].
  rewrite replace_nth_last. reflexivity.
Qed.

Lemma pow2_lt_succ (L : Z) :
  0 <= L -> (Z.to_nat (2 ^ L) < Z.to_nat (2 ^ (L + 1)))%nat.
Proof.
  intros HL. apply Z2Nat.inj_lt; try (apply Z.pow_nonneg; lia).
  apply Z.pow_lt_mono_r; lia.
Qed.

Lemma pow2_pos_nat (L : Z) : 0 <= L -> (0 < Z.to_nat (2 ^ L))%nat.
Proof.
  intros HL. pose proof (Z.pow_pos_nonneg 2 L). lia.
Qed.

Lemma seed_node_first (w : Machine) :
  initial_state (config (self w)) = Corners ->
  populations (self w) = [] ->
  0 <= genome_length (config (self w)) ->
  seed_node 0 w
  = OK (tt, corner_seeded w 0
              (Z.to_nat (2 ^ genome_length (config (self w))))
              (capacity_max (config (self w)))).
Proof.
  intros Hc Hp HL.
  pose proof (seed_corner w (Z.to_nat (2 ^ genome_length (config (self w))))
                (capacity_max (config (self w))) (pow2_lt_succ _ HL)) as E.
  unfold corner_seeded in E. rewrite Hp in E. cbn [length] in E.
  cbv zeta in E.
  unfold seed_node. unfold bind at 1. unfold get_self at 1.
  unfold bind at 1. unfold put_self at 1. cbn [self random_state history].
  rewrite Hc. cbn [Nat.eqb]. unfold corner_seeded. rewrite Hp. exact E.
Qed.

Lemma seed_node_last (w : Machine) (n : nat) :
  initial_state (config (self w)) = Corners ->
  length (populations (self w)) = n ->
  n <> 0%nat ->
  Z.of_nat n = Z.of_nat (number_of_nodes (topology (self w))) - 1 ->
  0 <= genome_length (config (self w)) ->
  seed_node n w
  = OK (tt, corner_seeded w n 0 (capacity_min (config (self w)))).
Proof.
  intros Hc Hn Hn0 HnN HL.
  assert (HL1 : 0 <= genome_length (config (self w)) + 1) by lia.
  pose proof (seed_corner w 0 (capacity_min (config (self w)))
                (pow2_pos_nat _ HL1)) as E.
  rewrite Hn in E. cbv zeta in E.
  unfold seed_node. unfold bind at 1. unfold get_self at 1.
  unfold bind at 1. unfold put_self at 1. cbn [self random_state history].
  rewrite Hc.
  destruct (Nat.eqb_spec n 0); [contradiction|].
  destruct (Z.eqb_spec (Z.of_nat n)
              (Z.of_nat (number_of_nodes (topology (self w))) - 1));
    [|contradiction].
  exact E.
Qed.

Lemma seed_node_middle (w : Machine) (n : nat) :
  initial_state (config (self w)) = Corners ->
  n <> 0%nat ->
  Z.of_nat n <> Z.of_nat (number_of_nodes (topology (self w))) - 1 ->
  seed_node n w
  = OK (tt, mkMachine
              (set_populations (self w)
                 (populations (self w) ++ [Pop.new (config (self w))]))
              (random_state w) (history w)).
Proof.
  intros Hc Hn0 HnN.
  unfold seed_node. unfold bind at 1. unfold get_self at 1.
  unfold bind at 1. unfold put_self at 1. cbn [self random_state history].
  rewrite Hc.
  destruct (Nat.eqb_spec n 0); [contradiction|].
  destruct (Z.eqb_spec (Z.of_nat n)
              (Z.of_nat (number_of_nodes (topology (self w))) - 1));
    [contradiction|].
  reflexivity.
Qed.

Lemma seed_nodes_middle (m : nat) :
  forall (k : nat) (w : Machine),
    initial_state (config (self w)) = Corners ->
    (0 < k)%nat ->
    Z.of_nat (k + m) <= Z.of_nat (number_of_nodes (topology (self w))) - 1 ->
    for_each (seq k m) seed_node w
    = OK (tt, mkMachine
                (set_populations (self w)
                   (populations (self w)
                    ++ repeat (Pop.new (config (self w))) m))
                (random_state w) (history w)).
Proof.
  induction m as [|m IH]; intros k w Hc Hk HkN.
  - simpl. unfold ret. rewrite app_nil_r. destruct w as [[] ? ?]. reflexivity.
  - cbn [seq for_each].
    rewrite (bind_OK _ _ _ _ _ (seed_node_middle w k Hc ltac:(lia) ltac:(lia))).
    rewrite IH.
    + cbn [self config populations set_populations random_state history].
      rewrite <- app_assoc. reflexivity.
    + exact Hc.
    + lia.
    + cbn [self topology set_populations]. lia.
Qed.

Lemma seed_nodes_corners (w : Machine) :
  initial_state (config (self w)) = Corners ->
  populations (self w) = [] ->
  0 <= genome_length (config (self w)) ->
  exists r' h',
    for_each (nodes (topology (self w))) seed_node w
    = OK (tt, mkMachine
                (set_populations (self w)
                   (corners_populations (config (self w))
                      (number_of_nodes (topology (self w)))
                      (random_state w)))
                r' h').
Proof.
  intros Hc Hp HL. unfold nodes, corners_populations.
  destruct (number_of_nodes (topology (self w))) as [|[|m]] eqn:EN.
  - exists (random_state w), (history w). simpl. unfold ret.
    destruct w as [[] ? ?]. simpl in Hp. subst. reflexivity.
  - eexists. eexists. cbn [seq for_each].
    rewrite (bind_OK _ _ _ _ _ (seed_node_first w Hc Hp HL)).
    unfold ret, corner_seeded. rewrite Hp. reflexivity.
  - eexists. eexists.
    change (seq 0 (S (S m))) with (0%nat :: seq 1 (S m)).
    rewrite seq_S. cbn [for_each].
    rewrite (bind_OK _ _ _ _ _ (seed_node_first w Hc Hp HL)).
    set (w1 := corner_seeded w 0
                 (Z.to_nat (2 ^ genome_length (config (self w))))
                 (capacity_max (config (self w)))).
    assert (Hc1 : initial_state (config (self w1)) = Corners) by exact Hc.
    assert (HN1 : Z.of_nat (1 + m)
                  <= Z.of_nat (number_of_nodes (topology (self w1))) - 1).
    { change (topology (self w1)) with (topology (self w)). rewrite EN. lia. }
    rewrite for_each_app.
    rewrite (bind_OK _ _ _ _ _ (seed_nodes_middle m 1 w1 Hc1 ltac:(lia) HN1)).
    set (w2 := mkMachine _ _ _).
    assert (Hc2 : initial_state (config (self w2)) = Corners) by exact Hc.
    assert (Hl2 : length (populations (self w2)) = (1 + m)%nat).
    { unfold w2, w1, corner_seeded.
      cbn [self populations set_populations].
      rewrite Hp, length_app, repeat_length. reflexivity. }
    assert (HN2 : Z.of_nat (1 + m)
                  = Z.of_nat (number_of_nodes (topology (self w2))) - 1).
    { change (topology (self w2)) with (topology (self w)). rewrite EN. lia. }
    cbn [for_each].
    rewrite (bind_OK _ _ _ _ _
               (seed_node_last w2 (1 + m) Hc2 Hl2 ltac:(lia) HN2 HL)).
    unfold ret, corner_seeded, w2, w1, corner_seeded.
    cbn [self config populations set_populations random_state history].
    rewrite Hp. cbn [app]. rewrite <- app_assoc. reflexivity.
Qed.

(** *** The constructor *)

Lemma valid_config_spec (cfg : Config) :
  valid_config cfg = true ->
  (Qle_bool 0 (migration_rate cfg) && Qle_bool (migration_rate cfg) 1 = true)
  /\ (Qle_bool 0 (migration_p_far cfg) && Qle_bool (migration_p_far cfg) 1
      = true)
  /\ (0 <? log_frequency cfg) = true
  /\ 0 <= genome_length cfg
  /\ (0 <= base_fitness cfg)%Q
  /\ (0 <=? mix_frequency cfg) = true
  /\ (0 <=? env_change_frequency cfg) = true.
Proof.
  unfold valid_config. intros H. rewrite !andb_true_iff in H.
  destruct H as [[[[[[[[[A B] C] D] E] F] G] _] I] J].
  rewrite A, B, C, D.
  refine (conj eq_refl (conj eq_refl (conj E (conj _ (conj _ (conj I J)))))).
  - apply Z.leb_le. exact F.
  - apply Qle_bool_iff. exact G.
Qed.

Lemma valid_config_scale (cfg : Config) :
  valid_config cfg = true -> effects_scale_ok cfg = true.
Proof.
  unfold valid_config. intros H. rewrite !andb_true_iff in H. tauto.
Qed.


Lemma init_corners {ok : ExternalsOk ext} (cfg : Config) (topo : Topology)
  (r : Rand) :
  valid_config cfg = true ->
  initial_state cfg = Corners ->
  exists mr landscape r' h',
    Mutation.get_mutation_probabilities cfg = OK mr
    /\ init (fresh cfg topo r)
       = OK (tt,
             mkMachine
               (mkMetapopulation cfg 0 topo mr landscape
                  (corners_populations cfg (number_of_nodes topo)
                     (snd (effects_sampler cfg r)))
                  false (sinks cfg))
               r' h').
Proof.
  intros Hv Hc.
  destruct (valid_config_spec cfg Hv) as [H1 [H2 [H3 [HL [Hb [H4 H5]]]]]].
  pose proof (mutation_matrix_table cfg (Z.to_nat (genome_length cfg))
                ltac:(lia)) as Emr.
  unfold init, fresh.
  run (get_self_OK _).
  cbn [self config topology time].
  rewrite H1, H2, H3, Emr. unfold assert.
  run (ret_OK tt _).
  run (ret_OK tt _).
  run (ret_OK tt _).
  run (put_self_OK _ _).
  cbn [self random_state history].
  match goal with
  | |- context [bind build_fitness_landscape _ ?w] =>
      destruct (build_fitness_landscape_runs w HL Hb
                  (valid_config_scale cfg Hv)) as [landscape [El _]];
      run El
  end.
  cbn [self config random_state history].
  run (get_self_OK _).
  run (put_self_OK _ _).
  cbn [self set_fitness_landscape config time topology mutation_probs
       populations environment_changed log_objects random_state history].
  match goal with
  | |- context [bind (for_each (nodes topo) seed_node) _ ?w] =>
      destruct (seed_nodes_corners w Hc eq_refl HL) as [r' [h' Es]];
      cbn [self topology] in Es; run Es
  end.
  rewrite H4, H5.
  run (ret_OK tt _).
  run (ret_OK tt _).
  run (get_self_OK _).
  eexists. exists landscape, r', h'. split; reflexivity.
Qed.

End EngineFacts.

(** ** C3: the initial state [corners] *)

Lemma is_producer_social_bit (L : N) :
  Genome.is_producer (2 ^ L) L = true /\ Genome.is_producer 0 L = false.
Proof.
  unfold Genome.is_producer. split.
  - rewrite N.land_diag. apply N.eqb_refl.
  - rewrite N.land_0_l. apply N.eqb_neq.
    pose proof (N.pow_nonzero 2 L). lia.
Qed.

(** C3 (as amended): under the policy [corners] a valid configuration
    constructs the engine, and construction seeds node 0 with abundance
    [capacity_max] of the all-producer genotype [2^L] (social bit set)
    and, when it is not node 0, the last node with abundance
    [capacity_min] of the all-non-producer genotype 0 (social bit clear),
    diluting each of the two afterward; every other node's population is
    a new, empty one. *)
Theorem corners_seed_producers_on_node_0 {ext : Externals}
  {ok : ExternalsOk ext} (cfg : Config) (topo : Topology) (r : Rand) :
  valid_config cfg = true ->
  initial_state cfg = Corners ->
  exists w,
    new_metapopulation cfg topo r = OK w
    /\ populations (self w)
       = corners_populations cfg (number_of_nodes topo)
           (snd (effects_sampler cfg r))
    /\ Genome.is_producer (2 ^ Z.to_N (genome_length cfg))
         (Z.to_N (genome_length cfg)) = true
    /\ Genome.is_producer 0 (Z.to_N (genome_length cfg)) = false.
Proof.
  intros Hv Hc.
  destruct (init_corners cfg topo r Hv Hc) as [mr [l [r' [h' [_ E]]]]].
  unfold new_metapopulation. rewrite E. eexists.
  split; [reflexivity|]. split; [reflexivity|].
  apply is_producer_social_bit.
Qed.

Lemma corners_seed_producers_on_node_0_witness :
  exists w,
    new_metapopulation Reference.example_config (Reference.ring 3)
      Reference.seed = OK w
    /\ populations (self w)
       = corners_populations Reference.example_config 3
           (snd (effects_sampler Reference.example_config Reference.seed))
    /\ Genome.is_producer 2 1 = true
    /\ Genome.is_producer 0 1 = false.
Proof.
  apply (@corners_seed_producers_on_node_0 Reference.externals reference_ok
           Reference.example_config (Reference.ring 3) Reference.seed);
    reflexivity.
Defined.

(** C3 (as stated) fails: with genome length 1, capacities 100 and 10
    and the deterministic tenfold dilution, node 0 of a ring of three
    nodes holds 10 individuals of the producer genotype 2 and none of the
    non-producer genotype 0, and the last node holds one individual of
    the non-producer genotype 0. *)
Lemma corners_node_0_is_not_non_producers :
  exists w p0 p1 p2,
    new_metapopulation Reference.example_config (Reference.ring 3)
      Reference.seed = OK w
    /\ populations (self w) = [p0; p1; p2]
    /\ abundances p0 = [0; 0; 10; 0]
    /\ abundances p1 = [0; 0; 0; 0]
    /\ abundances p2 = [1; 0; 0; 0]
    /\ Pop.num_producers Reference.example_config p0 = 10
    /\ Pop.num_producers Reference.example_config p0 <> 0
    /\ Pop.num_producers Reference.example_config p2 = 0
    /\ Pop.size p2 = 1.
Proof.
  do 4 eexists.
  split; [vm_compute; reflexivity|].
  split; [reflexivity|].
  repeat split; try reflexivity. vm_compute. discriminate.
Qed.

(** ** Loops over nodes *)

Section Loops.

Context {ext : Externals} {A : Type}.

Variable strict : Prop.
Variable step : list A -> Machine -> Machine -> Prop.
Variable pre : Machine -> Prop.

Hypothesis step_nil : forall w, step [] w w.
Hypothesis step_cons :
  forall x l a b c, step [x] a b -> step l b c -> step (x :: l) a c.
Hypothesis pre_step : forall x w w', pre w -> step [x] w w' -> pre w'.

(** A loop makes the steps of all its iterations, and raises only if
    one of them does. *)
Lemma for_each_steps (body : A -> M unit) (l : list A) :
  (forall x, In x l -> forall w, pre w ->
     outcome strict (step [x]) (body x) w) ->
  forall w, pre w -> outcome strict (step l) (for_each l body) w.
Proof.
  induction l as [|x l IH]; intros Hbody w Hw.
  - apply step_nil.
  - pose proof (Hbody x (or_introl eq_refl) w Hw) as Hx.
    unfold outcome in *. cbn [for_each]. unfold bind.
    destruct (body x w) as [[[] w1]|e]; [|exact Hx].
    pose proof (IH (fun y Hy => Hbody y (or_intror Hy)) w1
                  (pre_step x w w1 Hw Hx)) as Hl.
    destruct (for_each l body w1) as [[[] w2]|e]; [|exact Hl].
    exact (step_cons x l w w1 w2 Hx Hl).
Qed.

End Loops.

Section EngineRuns.

Context {ext : Externals} {ok : ExternalsOk ext}.


Lemma core_same_refl (s : Metapopulation) : core_same s s.
Proof. repeat split. Qed.

Lemma core_same_trans (a b c : Metapopulation) :
  core_same a b -> core_same b c -> core_same a c.
Proof.
  unfold core_same. intros [A1 [A2 [A3 [A4 A5]]]] [B1 [B2 [B3 [B4 B5]]]].
  repeat split; congruence.
Qed.

Lemma same_frame_refl (s : Metapopulation) : same_frame s s.
Proof. repeat split. Qed.

Lemma same_frame_trans (a b c : Metapopulation) :
  same_frame a b -> same_frame b c -> same_frame a c.
Proof.
  unfold same_frame. intros [A0 [A1 [A2 A3]]] [B0 [B1 [B2 B3]]].
  split; [exact (core_same_trans a b c A0 B0)|].
  repeat split; congruence.
Qed.

Lemma silent_app (e1 e2 : list event) :
  silent e1 -> silent e2 -> silent (e1 ++ e2).
Proof.
  unfold silent. intros H1 H2. rewrite filter_app, H1, H2. reflexivity.
Qed.

Lemma quiet_refl (w : Machine) : quiet w w.
Proof.
  split; [apply same_frame_refl|]. exists []. rewrite app_nil_r.
  split; reflexivity.
Qed.

Lemma quiet_trans (a b c : Machine) : quiet a b -> quiet b c -> quiet a c.
Proof.
  intros [F1 [e1 [H1 S1]]] [F2 [e2 [H2 S2]]].
  split; [exact (same_frame_trans _ _ _ F1 F2)|].
  exists (e1 ++ e2). split; [|exact (silent_app e1 e2 S1 S2)].
  rewrite H2, H1, app_assoc. reflexivity.
Qed.

Lemma well_formed_core (w w' : Machine) :
  well_formed w -> core_same (self w) (self w') -> well_formed w'.
Proof.
  unfold well_formed, core_same.
  intros [V [Hl Ht]] [C1 [C2 [_ [_ C5]]]].
  rewrite C1, C2, C5. repeat split; assumption.
Qed.

Lemma well_formed_quiet (w w' : Machine) :
  well_formed w -> quiet w w' -> well_formed w'.
Proof.
  intros Hw [[Hc _] _]. exact (well_formed_core w w' Hw Hc).
Qed.

Lemma on_core (T : Topology) (w w' : Machine) :
  on T w -> core_same (self w) (self w') -> on T w'.
Proof.
  intros [Hw HT] Hc. split; [exact (well_formed_core w w' Hw Hc)|].
  destruct Hc as [_ [C2 _]]. congruence.
Qed.

Lemma on_quiet (T : Topology) (w w' : Machine) :
  on T w -> quiet w w' -> on T w'.
Proof. intros Hw [[Hc _] _]. exact (on_core T w w' Hw Hc). Qed.

Lemma on_node (T : Topology) (w : Machine) (n : nat) :
  on T w -> In n (nodes T) -> (n < length (populations (self w)))%nat.
Proof.
  intros [[_ [Hl _]] HT] Hn. apply in_seq in Hn. rewrite Hl, HT. lia.
Qed.

(** A loop of quiet iterations is quiet. *)
Lemma for_each_quiet {A} (strict : Prop) (T : Topology) (body : A -> M unit)
  (l : list A) :
  (forall x, In x l -> forall w, on T w ->
     outcome strict quiet (body x) w) ->
  forall w, on T w -> outcome strict quiet (for_each l body) w.
Proof.
  apply (for_each_steps strict (fun _ => quiet) (on T)).
  - exact quiet_refl.
  - intros _ _ a b c. exact (quiet_trans a b c).
  - intros _ w w'. exact (on_quiet T w w').
Qed.

Lemma outcome_of_runs (strict : Prop) (R : Machine -> Machine -> Prop)
  (c : M unit) (w w' : Machine) :
  c w = OK (tt, w') -> R w w' -> outcome strict R c w.
Proof. intros E HR. unfold outcome. rewrite E. exact HR. Qed.

Lemma outcome_weaken (strict : Prop) (R R' : Machine -> Machine -> Prop)
  (c : M unit) (w : Machine) :
  (forall w', R w w' -> R' w w') ->
  outcome strict R c w -> outcome strict R' c w.
Proof.
  intros HR. unfold outcome. destruct (c w) as [[[] w']|e]; auto.
Qed.

Lemma length_replace_nth {A} (l : list A) (n : nat) (v : A) :
  length (replace_nth l n v) = length l.
Proof.
  revert n. induction l as [|x l IH]; intros [|n]; simpl; congruence.
Qed.

Lemma population_at_OK (w : Machine) (n : nat) :
  (n < length (populations (self w)))%nat ->
  exists p, nth_error (populations (self w)) n = Some p
            /\ population_at n w = OK (p, w).
Proof.
  intros Hn. destruct (nth_error (populations (self w)) n) as [p|] eqn:E.
  - exists p. split; [reflexivity|].
    unfold population_at. run (get_self_OK w). rewrite E. reflexivity.
  - apply nth_error_None in E. lia.
Qed.

Lemma store_population_OK (w : Machine) (n : nat) (p : Population) :
  store_population n p w
  = OK (tt, mkMachine
              (set_populations (self w)
                 (replace_nth (populations (self w)) n p))
              (random_state w) (history w)).
Proof. reflexivity. Qed.

Lemma same_frame_populations (s : Metapopulation) (pops : list Population) :
  length pops = length (populations s) ->
  same_frame s (set_populations s pops).
Proof. intros H. repeat split. exact H. Qed.

(** A call of a stochastic population method on an existing node. *)
Lemma call_population_runs (w : Machine) (n : nat) (m : pop_method)
  (f : Population -> Rand -> Population * Rand) :
  (n < length (populations (self w)))%nat ->
  exists w',
    call_population n m f w = OK (tt, w')
    /\ same_frame (self w) (self w')
    /\ history w' = history w ++ [PopCall n m].
Proof.
  intros Hn. destruct (population_at_OK w n Hn) as [p [_ E]].
  unfold call_population. run E. run (record_OK _ _).
  unfold sample, bind. cbn [self random_state history].
  rewrite store_population_OK. eexists. split; [reflexivity|].
  cbn [self history]. split; [|reflexivity].
  apply same_frame_populations. apply length_replace_nth.
Qed.

(** A call of a deterministic population method on an existing node. *)
Lemma update_population_runs (w : Machine) (n : nat) (m : pop_method)
  (f : Population -> Population) :
  (n < length (populations (self w)))%nat ->
  exists p,
    nth_error (populations (self w)) n = Some p
    /\ update_population n m f w
       = OK (tt, mkMachine
                   (set_populations (self w)
                      (replace_nth (populations (self w)) n (f p)))
                   (random_state w) (history w ++ [PopCall n m])).
Proof.
  intros Hn. destruct (population_at_OK w n Hn) as [p [Ep E]].
  exists p. split; [exact Ep|].
  unfold update_population. run E. run (record_OK _ _). reflexivity.
Qed.

Lemma quiet_of_trace (w w' : Machine) (evs : list event) :
  same_frame (self w) (self w') ->
  history w' = history w ++ evs ->
  silent evs ->
  quiet w w'.
Proof. intros F H S. split; [exact F|]. exists evs. split; assumption. Qed.

(** *** The methods that loop over the nodes *)

Lemma entered_loop (strict : Prop) (e : step) (body : nat -> M unit)
  (w : Machine) :
  well_formed w ->
  (forall n w1, on (topology (self w)) w1 ->
     (n < length (populations (self w1)))%nat ->
     outcome strict quiet (body n) w1) ->
  outcome strict (entered e)
    (bind (record (Enter e)) (fun _ => for_each_node body)) w.
Proof.
  intros Hw Hbody. unfold outcome.
  run (record_OK _ w). unfold for_each_node. run (get_self_OK _).
  cbn [self].
  set (w1 := mkMachine (self w) (random_state w) (history w ++ [Enter e])).
  assert (Hon : on (topology (self w)) w1) by (split; [exact Hw | reflexivity]).
  pose proof (for_each_quiet strict (topology (self w)) body
                (nodes (topology (self w)))
                (fun n Hn w2 Hw2 => Hbody n w2 Hw2 (on_node _ w2 n Hw2 Hn))
                w1 Hon) as H.
  unfold outcome in H.
  destruct (for_each (nodes (topology (self w))) body w1) as [[[] w2]|err];
    [|exact H].
  destruct H as [F [evs [Hh Hs]]]. split; [exact F|].
  exists evs. split; [|exact Hs].
  rewrite Hh. unfold w1. cbn [history]. rewrite <- app_assoc. reflexivity.
Qed.

Lemma call_population_quiet (strict : Prop) (w : Machine) (n : nat)
  (m : pop_method) (f : Population -> Rand -> Population * Rand) :
  (n < length (populations (self w)))%nat ->
  outcome strict quiet (call_population n m f) w.
Proof.
  intros Hn. destruct (call_population_runs w n m f Hn) as [w' [E [F H]]].
  apply (outcome_of_runs strict quiet _ w w' E).
  exact (quiet_of_trace w w' _ F H eq_refl).
Qed.

Lemma update_population_quiet (strict : Prop) (w : Machine) (n : nat)
  (m : pop_method) (f : Population -> Population) :
  (n < length (populations (self w)))%nat ->
  outcome strict quiet (update_population n m f) w.
Proof.
  intros Hn. destruct (update_population_runs w n m f Hn) as [p [_ E]].
  apply (outcome_of_runs strict quiet _ w _ E).
  apply (quiet_of_trace _ _ [PopCall n m]); [|reflexivity|reflexivity].
  apply same_frame_populations. apply length_replace_nth.
Qed.

Lemma grow_runs (strict : Prop) (w : Machine) :
  well_formed w -> outcome strict (entered Grow) grow w.
Proof.
  intros Hw. apply entered_loop; [exact Hw|].
  intros n w1 _ Hn. unfold outcome. run (get_self_OK w1).
  apply call_population_quiet. exact Hn.
Qed.

Lemma mutate_runs (strict : Prop) (w : Machine) :
  well_formed w -> outcome strict (entered Mutate) mutate w.
Proof.
  intros Hw. apply entered_loop; [exact Hw|].
  intros n w1 _ Hn. unfold outcome. run (get_self_OK w1).
  apply call_population_quiet. exact Hn.
Qed.

Lemma census_runs (strict : Prop) (w : Machine) :
  well_formed w -> outcome strict (entered Census) census w.
Proof.
  intros Hw. apply entered_loop; [exact Hw|].
  intros n w1 _ Hn. apply update_population_quiet. exact Hn.
Qed.

Lemma mix_runs (strict : Prop) (w : Machine) :
  well_formed w -> outcome strict (entered Mix) mix w.
Proof.
  intros Hw. unfold mix, outcome. run (record_OK _ w). run (get_self_OK _).
  cbn [self].
  match goal with
  | |- match for_each_node ?body ?w1 with _ => _ end =>
      assert (Hb : forall n w2, on (topology (self w)) w2 ->
                     (n < length (populations (self w2)))%nat ->
                     outcome strict quiet (body n) w2);
      [| pose proof (entered_loop strict Mix body w Hw Hb) as H ]
  end.
  - intros n w2 _ Hn. destruct (population_at_OK w2 n Hn) as [p [_ E]].
    unfold outcome. run E. unfold sample, bind.
    rewrite store_population_OK. cbn [self random_state history].
    apply (quiet_of_trace _ _ []); [|rewrite app_nil_r; reflexivity|reflexivity].
    apply same_frame_populations. apply length_replace_nth.
  - unfold outcome in H. run (record_OK _ w) in H. exact H.
Qed.

Lemma log_frequency_nonzero (w : Machine) :
  well_formed w -> log_frequency (config (self w)) <> 0.
Proof.
  intros [Hv _]. apply valid_config_spec in Hv.
  destruct Hv as [_ [_ [H3 _]]]. apply Z.ltb_lt in H3. lia.
Qed.

Lemma write_logfiles_runs (strict : Prop) (w : Machine) :
  well_formed w -> outcome strict (entered WriteLogfiles) write_logfiles w.
Proof.
  intros Hw. pose proof (log_frequency_nonzero w Hw) as Hlf.
  unfold write_logfiles, outcome. run (record_OK _ w). run (get_self_OK _).
  cbn [self]. unfold py_mod.
  destruct (Z.eqb_spec (log_frequency (config (self w))) 0); [contradiction|].
  run (ret_OK _ _).
  set (w1 := mkMachine (self w) (random_state w)
               (history w ++ [Enter WriteLogfiles])).
  assert (Hon : on (topology (self w)) w1) by (split; [exact Hw | reflexivity]).
  assert (Hq : outcome strict quiet
                 (if time (self w) mod log_frequency (config (self w)) =? 0
                  then for_each (log_objects (self w))
                         (fun l => record (SinkUpdate l (time (self w))))
                  else ret tt) w1).
  { destruct (_ =? 0).
    - apply (for_each_quiet strict (topology (self w))); [|exact Hon].
      intros l _ w2 _.
      apply (outcome_of_runs strict quiet _ w2 _ (record_OK _ w2)).
      apply (quiet_of_trace _ _ [SinkUpdate l (time (self w))]);
        [apply same_frame_refl | reflexivity | reflexivity].
    - apply (outcome_of_runs strict quiet _ w1 w1 (ret_OK tt w1)).
      apply quiet_refl. }
  unfold outcome in Hq.
  destruct (if _ =? 0 then _ else _) as [[[] w2]|err]; [|exact Hq].
  destruct Hq as [F [evs [Hh Hs]]]. split; [exact F|].
  exists evs. split; [|exact Hs].
  rewrite Hh. unfold w1. cbn [history]. rewrite <- app_assoc. reflexivity.
Qed.

(** [dilute] calls [Population.dilute] once on every node, in order. *)
Lemma dilute_trace (stochastic : bool) (w : Machine) :
  well_formed w ->
  exists w',
    dilute stochastic w = OK (tt, w')
    /\ same_frame (self w) (self w')
    /\ history w'
       = history w
         ++ Enter Dilute
            :: map (fun n => PopCall n (PDilute stochastic))
                   (nodes (topology (self w))).
Proof.
  intros Hw. unfold dilute. run (record_OK _ w).
  unfold for_each_node. run (get_self_OK _). cbn [self].
  set (w1 := mkMachine (self w) (random_state w) (history w ++ [Enter Dilute])).
  assert (Hon : on (topology (self w)) w1) by (split; [exact Hw | reflexivity]).
  pose proof
    (for_each_steps True
       (fun l a b =>
          same_frame (self a) (self b)
          /\ history b
             = history a ++ map (fun n => PopCall n (PDilute stochastic)) l)
       (on (topology (self w)))) as H.
  specialize (H (fun a => conj (same_frame_refl _) (eq_sym (app_nil_r _)))).
  assert (Hcons : forall (x : nat) (l : list nat) (a b c : Machine),
             same_frame (self a) (self b)
             /\ history b
                = history a ++ map (fun n => PopCall n (PDilute stochastic)) [x] ->
             same_frame (self b) (self c)
             /\ history c
                = history b ++ map (fun n => PopCall n (PDilute stochastic)) l ->
             same_frame (self a) (self c)
             /\ history c
                = history a
                  ++ map (fun n => PopCall n (PDilute stochastic)) (x :: l)).
  { intros x l a b c [F1 H1] [F2 H2].
    split; [exact (same_frame_trans _ _ _ F1 F2)|].
    rewrite H2, H1, <- app_assoc. reflexivity. }
  specialize (H Hcons).
  assert (Hpre : forall (x : nat) (a b : Machine),
             on (topology (self w)) a ->
             same_frame (self a) (self b)
             /\ history b
                = history a ++ map (fun n => PopCall n (PDilute stochastic)) [x] ->
             on (topology (self w)) b).
  { intros x a b Ha [[Hc _] _]. exact (on_core _ a b Ha Hc). }
  specialize (H Hpre
                (fun n => call_population n (PDilute stochastic)
                            (pop_dilute stochastic))
                (nodes (topology (self w)))).
  assert (Hbody : forall x, In x (nodes (topology (self w))) ->
             forall a, on (topology (self w)) a ->
               outcome True
                 (fun a b =>
                    same_frame (self a) (self b)
                    /\ history b
                       = history a
                         ++ map (fun n => PopCall n (PDilute stochastic)) [x])
                 (call_population x (PDilute stochastic)
                    (pop_dilute stochastic)) a).
  { intros x Hx a Ha.
    destruct (call_population_runs a x (PDilute stochastic)
                (pop_dilute stochastic) (on_node _ a x Ha Hx))
      as [b [E [F Hh]]].
    unfold outcome. rewrite E. split; assumption. }
  specialize (H Hbody w1 Hon). unfold outcome in H.
  destruct (for_each _ _ w1) as [[[] w2]|err]; [|exfalso; exact (H I)].
  destruct H as [F Hh]. exists w2. split; [reflexivity|]. split; [exact F|].
  rewrite Hh. unfold w1. cbn [history]. rewrite <- app_assoc. reflexivity.
Qed.

Lemma change_environment_runs (strict : Prop) (w : Machine) :
  well_formed w ->
  outcome strict environment_changed_by change_environment w.
Proof.
  intros Hw. pose proof Hw as [Hv _].
  pose proof (valid_config_scale _ Hv) as Hscale.
  apply valid_config_spec in Hv. destruct Hv as [_ [_ [_ [HL [Hb _]]]]].
  unfold change_environment, outcome. run (record_OK _ w).
  set (w1 := mkMachine (self w) (random_state w)
               (history w ++ [Enter ChangeEnvironment])).
  destruct (build_fitness_landscape_runs w1 HL Hb Hscale)
    as [landscape [El Et]].
  run El. run (get_self_OK _). run (put_self_OK _ _).
  cbn [self random_state history].
  match goal with
  | |- match for_each_node _ ?m with _ => _ end => set (w2 := m)
  end.
  assert (Hc : core_same (self w) (self w2)) by (repeat split).
  assert (Hw2 : well_formed w2) by exact (well_formed_core w w2 Hw Hc).
  assert (Hon : on (topology (self w2)) w2) by (split; [exact Hw2 | reflexivity]).
  unfold for_each_node. run (get_self_OK w2).
  match goal with
  | |- match for_each _ ?body w2 with _ => _ end =>
      pose proof (for_each_quiet strict (topology (self w2)) body
                    (nodes (topology (self w2)))) as H
  end.
  assert (Hq : outcome strict quiet
                 (for_each (nodes (topology (self w2)))
                    (fun n =>
                       bind (call_population n
                               (PBottleneck (mutation_rate_tolerance
                                               (config (self w))))
                               (pop_bottleneck (mutation_rate_tolerance
                                                  (config (self w)))))
                            (fun _ =>
                               call_population n PResetLoci pop_reset_loci)))
                 w2).
  { apply H; [|exact Hon]. intros n Hn a Ha.
    destruct (call_population_runs a n
                (PBottleneck (mutation_rate_tolerance (config (self w))))
                (pop_bottleneck (mutation_rate_tolerance (config (self w))))
                (on_node _ a n Ha Hn)) as [b [E1 [F1 H1]]].
    assert (Hb' : (n < length (populations (self b)))%nat).
    { destruct F1 as [[_ [_ [_ [_ C5]]]] _]. rewrite C5.
      exact (on_node _ a n Ha Hn). }
    destruct (call_population_runs b n PResetLoci pop_reset_loci Hb')
      as [c [E2 [F2 H2]]].
    unfold outcome. run E1. rewrite E2.
    apply (quiet_of_trace _ _
             [PopCall n (PBottleneck (mutation_rate_tolerance (config (self w))));
              PopCall n PResetLoci]).
    - exact (same_frame_trans _ _ _ F1 F2).
    - rewrite H2, H1, <- app_assoc. reflexivity.
    - reflexivity. }
  clear H. unfold outcome in Hq.
  destruct (for_each _ _ w2) as [[[] w3]|err]; [|exact Hq].
  destruct Hq as [[F [Ft [Fl _]]] [evs [Hh Hs]]]. split; [split|].
  - split; [exact (core_same_trans _ _ _ Hc F)|]. rewrite Ft. reflexivity.
  - exists evs. split; [|exact Hs]. rewrite Hh. unfold w2, w1.
    cbn [history]. rewrite <- app_assoc. reflexivity.
  - rewrite Fl. exact Et.
Qed.

(** *** Migration *)

Lemma sumZ_map2_add (a b : list Z) :
  length a = length b ->
  Array.sumZ (Array.map2 Z.add a b) = Array.sumZ a + Array.sumZ b.
Proof.
  revert b. induction a as [|x a IH]; intros [|y b] Hl; try discriminate.
  - reflexivity.
  - injection Hl as Hl. cbn [Array.map2 Array.sumZ fold_right].
    change (fold_right Z.add 0 ?l) with (Array.sumZ l).
    rewrite (IH b Hl). lia.
Qed.

Lemma sumZ_map2_sub (a b : list Z) :
  length a = length b ->
  Array.sumZ (Array.map2 Z.sub a b) = Array.sumZ a - Array.sumZ b.
Proof.
  revert b. induction a as [|x a IH]; intros [|y b] Hl; try discriminate.
  - reflexivity.
  - injection Hl as Hl. cbn [Array.map2 Array.sumZ fold_right].
    change (fold_right Z.add 0 ?l) with (Array.sumZ l).
    rewrite (IH b Hl). lia.
Qed.

Lemma length_map2 {A B C} (f : A -> B -> C) (a : list A) (b : list B) :
  length a = length b -> length (Array.map2 f a b) = length a.
Proof.
  revert b. induction a as [|x a IH]; intros [|y b] Hl; try discriminate.
  - reflexivity.
  - injection Hl as Hl. simpl. rewrite (IH b Hl). reflexivity.
Qed.

Lemma sumZ_replace_nth {A} (f : A -> Z) (l : list A) (n : nat) (x y : A) :
  nth_error l n = Some x ->
  Array.sumZ (map f (replace_nth l n y)) = Array.sumZ (map f l) - f x + f y.
Proof.
  revert n. induction l as [|z l IH]; intros [|n] E; try discriminate.
  - injection E as ->. simpl. lia.
  - simpl in E. cbn [replace_nth map Array.sumZ fold_right].
    change (fold_right Z.add 0 ?l) with (Array.sumZ l).
    rewrite (IH n E). lia.
Qed.

Lemma Forall_replace_nth {A} (P : A -> Prop) (l : list A) (n : nat) (y : A) :
  Forall P l -> P y -> Forall P (replace_nth l n y).
Proof.
  intros Hl Hy. revert n. induction Hl as [|z l Hz Hl IH]; intros [|n]; simpl;
    try constructor; auto.
Qed.

Lemma shaped_nth (G : nat) (s : Metapopulation) (n : nat) (p : Population) :
  shaped G s -> nth_error (populations s) n = Some p ->
  length (abundances p) = G /\ length (immigrants p) = G.
Proof.
  intros Hs E. apply nth_error_In in E.
  unfold shaped in Hs. rewrite Forall_forall in Hs. exact (Hs p E).
Qed.

Lemma conserving_refl (G : nat) (w : Machine) : conserving G w w.
Proof. split; [apply quiet_refl|]. intros H. split; [exact H | reflexivity]. Qed.

Lemma conserving_trans (G : nat) (a b c : Machine) :
  conserving G a b -> conserving G b c -> conserving G a c.
Proof.
  intros [Q1 C1] [Q2 C2]. split; [exact (quiet_trans a b c Q1 Q2)|].
  intros Ha. destruct (C1 Ha) as [Hb E1]. destruct (C2 Hb) as [Hc E2].
  split; [exact Hc | congruence].
Qed.

Lemma deliver_conserving (G : nat) (w : Machine) (n dest : nat)
  (migrants : list Z) :
  (n < length (populations (self w)))%nat ->
  (dest < length (populations (self w)))%nat ->
  exists w',
    deliver n dest migrants w = OK (tt, w')
    /\ quiet w w'
    /\ (shaped G (self w) -> length migrants = G ->
        shaped G (self w') /\ total (self w') = total (self w)).
Proof.
  intros Hn Hd.
  destruct (update_population_runs w dest PAddImmigrants
              (fun q => Pop.add_immigrants q migrants) Hd) as [pd [Ed E1]].
  set (w1 := mkMachine _ _ _) in E1.
  assert (Hn1 : (n < length (populations (self w1)))%nat).
  { unfold w1. cbn [self populations set_populations].
    rewrite length_replace_nth. exact Hn. }
  destruct (update_population_runs w1 n PRemoveEmigrants
              (fun q => Pop.remove_emigrants q migrants) Hn1) as [pn [En E2]].
  set (w2 := mkMachine _ _ _) in E2.
  exists w2. split; [unfold deliver; run E1; exact E2|]. split.
  - apply (quiet_of_trace _ _ [PopCall dest PAddImmigrants;
                               PopCall n PRemoveEmigrants]).
    + unfold w2, w1. cbn [self populations set_populations].
      apply (same_frame_trans _ (set_populations (self w)
               (replace_nth (populations (self w)) dest
                  (Pop.add_immigrants pd migrants)))).
      * apply same_frame_populations. apply length_replace_nth.
      * apply (same_frame_populations (set_populations (self w) _)).
        apply length_replace_nth.
    + unfold w2, w1. cbn [history]. rewrite <- app_assoc. reflexivity.
    + reflexivity.
  - intros Hs Hm.
    destruct (shaped_nth G (self w) dest pd Hs Ed) as [Hda Hdi].
    assert (Hs1 : shaped G (self w1)).
    { unfold w1, shaped. cbn [self populations set_populations].
      apply Forall_replace_nth; [exact Hs|].
      unfold Pop.add_immigrants. cbn [abundances immigrants].
      split; [exact Hda|]. rewrite length_map2; congruence. }
    destruct (shaped_nth G (self w1) n pn Hs1 En) as [Hna Hni].
    split.
    + unfold w2, shaped. cbn [self populations set_populations].
      apply Forall_replace_nth; [exact Hs1|].
      unfold Pop.remove_emigrants. cbn [abundances immigrants].
      split; [|exact Hni]. rewrite length_map2; congruence.
    + unfold total, size, pending, w2.
      cbn [self populations set_populations].
      rewrite (sumZ_replace_nth Pop.size _ n pn _ En).
      rewrite (sumZ_replace_nth Pop.pending _ n pn _ En).
      unfold w1. cbn [self populations set_populations].
      rewrite (sumZ_replace_nth Pop.size _ dest pd _ Ed).
      rewrite (sumZ_replace_nth Pop.pending _ dest pd _ Ed).
      unfold Pop.size, Pop.pending, Pop.remove_emigrants, Pop.add_immigrants.
      cbn [abundances immigrants].
      rewrite sumZ_map2_sub by congruence.
      rewrite sumZ_map2_add by congruence. lia.
Qed.

Lemma select_migrants_runs (w : Machine) (n : nat) (rate : Q) :
  (n < length (populations (self w)))%nat ->
  exists p,
    nth_error (populations (self w)) n = Some p
    /\ select_migrants n rate w
       = OK (fst (pop_select_migrants rate p (random_state w)),
             mkMachine (self w)
               (snd (pop_select_migrants rate p (random_state w)))
               (history w ++ [PopCall n (PSelectMigrants rate)]))
    /\ length (fst (pop_select_migrants rate p (random_state w)))
       = length (abundances p).
Proof.
  intros Hn. destruct (population_at_OK w n Hn) as [p [Ep E]].
  exists p. split; [exact Ep|]. split.
  - unfold select_migrants. run E. run (record_OK _ _). reflexivity.
  - exact (Forall2_length (pop_select_migrants_le rate p (random_state w))).
Qed.

Lemma random_node_runs (w : Machine) :
  (0 < number_of_nodes (topology (self w)))%nat ->
  exists i r',
    random_node w = OK (i, mkMachine (self w) r' (history w))
    /\ (i < number_of_nodes (topology (self w)))%nat.
Proof.
  intros HN. unfold random_node. run (get_self_OK w).
  unfold sample, bind, ret. cbn [self random_state history].
  eexists. eexists. split; [reflexivity|].
  pose proof (np_random_integers_range 0
                (Z.of_nat (number_of_nodes (topology (self w))) - 1)
                (random_state w) ltac:(lia)). lia.
Qed.

Lemma on_conserving (G : nat) (T : Topology) (w w' : Machine) :
  on T w -> conserving G w w' -> on T w'.
Proof. intros Hw [Hq _]. exact (on_quiet T w w' Hw Hq). Qed.

(** Selecting and sampling first, then delivering, conserves. *)
Lemma conserving_after (G : nat) (w w1 w' : Machine) (evs : list event)
  (migrants : list Z) :
  self w1 = self w ->
  history w1 = history w ++ evs ->
  silent evs ->
  quiet w1 w' ->
  (shaped G (self w1) -> length migrants = G ->
   shaped G (self w') /\ total (self w') = total (self w1)) ->
  (shaped G (self w) -> length migrants = G) ->
  conserving G w w'.
Proof.
  intros Hs Hh Hsil Hq Hc Hm.
  assert (Hq1 : quiet w w1).
  { apply (quiet_of_trace w w1 evs); [|exact Hh|exact Hsil].
    rewrite Hs. apply same_frame_refl. }
  split; [exact (quiet_trans w w1 w' Hq1 Hq)|].
  intros Hsh. rewrite Hs in Hc. exact (Hc Hsh (Hm Hsh)).
Qed.

Lemma migrate_single_conserving (strict : Prop) (G : nat) (T : Topology)
  (w : Machine) (n : nat) :
  on T w -> In n (nodes T) ->
  (neighbors T n = [] -> ~ strict) ->
  outcome strict (conserving G) (migrate_single n) w.
Proof.
  intros Hon Hn Hstrict.
  pose proof (on_node T w n Hon Hn) as Hlt.
  destruct Hon as [[Hv [Hl Htop]] HT].
  assert (HN : (0 < number_of_nodes (topology (self w)))%nat) by lia.
  unfold migrate_single, outcome. run (get_self_OK w).
  destruct (select_migrants_runs w n (migration_rate (config (self w))) Hlt)
    as [p [Ep [Es Hlen]]].
  run Es. run (sample_OK _ _). cbn [self random_state history].
  set (migrants := fst (pop_select_migrants _ p (random_state w))) in *.
  assert (Hm : shaped G (self w) -> length migrants = G).
  { intros Hsh. rewrite Hlen. exact (proj1 (shaped_nth G _ n p Hsh Ep)). }
  destruct (fst (np_binomial1 _ _)).
  - match goal with
    | |- match bind random_node _ ?m with _ => _ end =>
        destruct (random_node_runs m HN) as [i [r' [Er Hi]]]
    end.
    run Er. cbn [self] in *.
    match goal with
    | |- match deliver n i migrants ?m with _ => _ end =>
        destruct (deliver_conserving G m n i migrants Hlt
                    ltac:(cbn [self]; lia)) as [w' [Ed [Hq Hc]]];
        rewrite Ed;
        apply (conserving_after G w m w' _ migrants eq_refl eq_refl eq_refl
                 Hq Hc Hm)
    end.
  - rewrite HT. destruct (neighbors T n) as [|d a] eqn:En.
    + exact (Hstrict eq_refl).
    + run (sample_OK _ _). cbn [self random_state history].
      match goal with
      | |- match deliver n ?i migrants ?m with _ => _ end =>
          assert (Hd : (i < length (populations (self m)))%nat);
          [ cbn [self]; rewrite Hl, HT; rewrite HT in Htop;
            apply (Htop n); [apply in_seq in Hn; lia|];
            rewrite En; apply np_choice_in; discriminate
          | destruct (deliver_conserving G m n i migrants Hlt Hd)
              as [w' [Ed [Hq Hc]]];
            rewrite Ed;
            apply (conserving_after G w m w' _ migrants eq_refl eq_refl
                     eq_refl Hq Hc Hm) ]
      end.
Qed.

Lemma for_each_conserving {A} (strict : Prop) (G : nat) (T : Topology)
  (body : A -> M unit) (l : list A) :
  (forall x, In x l -> forall w, on T w ->
     outcome strict (conserving G) (body x) w) ->
  forall w, on T w -> outcome strict (conserving G) (for_each l body) w.
Proof.
  apply (for_each_steps strict (fun _ => conserving G) (on T)).
  - exact (conserving_refl G).
  - intros _ _ a b c. exact (conserving_trans G a b c).
  - intros _ w w'. exact (on_conserving G T w w').
Qed.

Lemma migrate_neighbors_conserving (strict : Prop) (G : nat) (T : Topology)
  (w : Machine) (n : nat) :
  on T w -> In n (nodes T) ->
  outcome strict (conserving G) (migrate_neighbors n) w.
Proof.
  intros Hon Hn. pose proof Hon as [_ HT].
  unfold migrate_neighbors, outcome. run (get_self_OK w). rewrite HT.
  apply (for_each_conserving strict G T); [|exact Hon].
  intros d Hd a Ha.
  pose proof (on_node T a n Ha Hn) as Hlt.
  destruct Ha as [[Hv [Hl Htop]] HTa].
  assert (HN : (0 < number_of_nodes (topology (self a)))%nat) by lia.
  assert (Hdl : (d < length (populations (self a)))%nat).
  { rewrite Hl. rewrite HTa in *. apply (Htop n); [apply in_seq in Hn; lia|].
    exact Hd. }
  unfold outcome. run (sample_OK _ _).
  set (a1 := mkMachine (self a) _ (history a)).
  assert (Hdest : exists i a2,
             (if fst (np_binomial1 (migration_p_far (config (self w)))
                        (random_state a))
              then random_node else ret d) a1 = OK (i, a2)
             /\ self a2 = self a /\ history a2 = history a
             /\ (i < length (populations (self a)))%nat).
  { destruct (fst (np_binomial1 _ _)).
    - destruct (random_node_runs a1 HN) as [i [r' [Er Hi]]].
      exists i. eexists. split; [exact Er|].
      cbn [self history]. repeat split. unfold a1 in Hi. cbn [self] in Hi. lia.
    - exists d, a1. split; [reflexivity|]. repeat split. exact Hdl. }
  destruct Hdest as [i [a2 [Ei [Hs2 [Hh2 Hi]]]]]. run Ei.
  assert (Hlt2 : (n < length (populations (self a2)))%nat)
    by (rewrite Hs2; exact Hlt).
  match goal with
  | |- match bind (select_migrants n ?rate) _ a2 with _ => _ end =>
      destruct (select_migrants_runs a2 n rate Hlt2) as [p [Ep [Es Hlen]]];
      run Es;
      set (migrants := fst (pop_select_migrants rate p (random_state a2))) in *
  end.
  match goal with
  | |- match deliver n i migrants ?m with _ => _ end =>
      destruct (deliver_conserving G m n i migrants
                  ltac:(cbn [self]; exact Hlt2)
                  ltac:(cbn [self]; rewrite Hs2; exact Hi))
        as [w' [Ed [Hq Hc]]];
      rewrite Ed;
      apply (conserving_after G a m w' _ migrants Hs2
               ltac:(cbn [history]; rewrite Hh2; reflexivity) eq_refl Hq Hc)
  end.
  intros Hsh. rewrite Hlen. rewrite <- Hs2 in Hsh.
  exact (proj1 (shaped_nth G _ n p Hsh Ep)).
Qed.

(** [migrate] returns unless [choice] meets an empty neighborhood, and
    conserves the live and buffered individuals. *)
Lemma migrate_runs (G : nat) (w : Machine) :
  well_formed w ->
  outcome (can_migrate (config (self w)) (topology (self w)))
    (fun a b =>
       entered Migrate a b
       /\ (shaped G (self a) ->
           shaped G (self b) /\ total (self b) = total (self a)))
    migrate w.
Proof.
  intros Hw. unfold migrate, outcome. run (record_OK _ w). run (get_self_OK _).
  cbn [self].
  set (w1 := mkMachine (self w) (random_state w) (history w ++ [Enter Migrate])).
  destruct (Qeq_bool (migration_rate (config (self w))) 0) eqn:Erate.
  - rewrite ret_OK. split.
    + split; [apply same_frame_refl|]. exists []. split; reflexivity.
    + intros Hsh. split; [exact Hsh | reflexivity].
  - assert (Hon : on (topology (self w)) w1)
      by (split; [exact Hw | reflexivity]).
    pose proof (for_each_conserving
                  (can_migrate (config (self w)) (topology (self w)))
                  G (topology (self w))
                  (fun n => match migration_dest (config (self w)) with
                            | Single => migrate_single n
                            | Neighbors => migrate_neighbors n
                            end)
                  (nodes (topology (self w)))) as H.
    unfold for_each_node. run (get_self_OK w1). cbn [self].
    assert (Hq : outcome (can_migrate (config (self w)) (topology (self w)))
                   (conserving G)
                   (for_each (nodes (topology (self w)))
                      (fun n => match migration_dest (config (self w)) with
                                | Single => migrate_single n
                                | Neighbors => migrate_neighbors n
                                end)) w1).
    { apply H; [|exact Hon]. intros n Hn a Ha.
      destruct (migration_dest (config (self w))) eqn:Edest.
      - apply (migrate_single_conserving _ G (topology (self w)) a n Ha Hn).
        intros Hempty Hcan.
        apply (Hcan Erate Edest n); [apply in_seq in Hn; lia | exact Hempty].
      - exact (migrate_neighbors_conserving _ G (topology (self w)) a n Ha Hn). }
    clear H. unfold outcome in Hq.
    destruct (for_each _ _ w1) as [[[] w2]|err]; [|exact Hq].
    destruct Hq as [[F [evs [Hh Hs]]] Hc]. split.
    + split; [exact F|]. exists evs. split; [|exact Hs].
      rewrite Hh. unfold w1. cbn [history]. rewrite <- app_assoc. reflexivity.
    + exact Hc.
Qed.

(** *** Census *)

Lemma apply_at_seq (f : Population -> Population) (rest : list Population) :
  forall done : list Population,
    apply_at f (seq (length done) (length rest)) (done ++ rest)
    = done ++ map f rest.
Proof.
  induction rest as [|x rest IH]; intros done.
  - reflexivity.
  - cbn [length seq apply_at map].
    rewrite nth_error_app2 by lia. rewrite Nat.sub_diag. cbn [nth_error].
    replace (replace_nth (done ++ x :: rest) (length done) (f x))
      with ((done ++ [f x]) ++ rest).
    + replace (S (length done)) with (length (done ++ [f x]))
        by (rewrite length_app; simpl; lia).
      rewrite IH, <- app_assoc. reflexivity.
    + rewrite <- app_assoc. cbn [app]. clear IH.
      induction done as [|y done IHd]; simpl; [reflexivity|].
      rewrite IHd. reflexivity.
Qed.

(** [census] applies [Population.census] to every node's population. *)
Lemma census_exact (w : Machine) :
  well_formed w ->
  exists w',
    census w = OK (tt, w')
    /\ populations (self w') = map Pop.census (populations (self w)).
Proof.
  intros Hw. unfold census. run (record_OK _ w).
  unfold for_each_node. run (get_self_OK _). cbn [self].
  set (w1 := mkMachine (self w) (random_state w) (history w ++ [Enter Census])).
  assert (Hon : on (topology (self w)) w1) by (split; [exact Hw | reflexivity]).
  pose proof
    (for_each_steps True
       (fun l a b =>
          core_same (self a) (self b)
          /\ populations (self b) = apply_at Pop.census l (populations (self a)))
       (on (topology (self w)))
       (fun a => conj (core_same_refl _) eq_refl)) as H.
  assert (Hcons : forall (x : nat) (l : list nat) (a b c : Machine),
             core_same (self a) (self b)
             /\ populations (self b)
                = apply_at Pop.census [x] (populations (self a)) ->
             core_same (self b) (self c)
             /\ populations (self c)
                = apply_at Pop.census l (populations (self b)) ->
             core_same (self a) (self c)
             /\ populations (self c)
                = apply_at Pop.census (x :: l) (populations (self a))).
  { intros x l a b c [F1 H1] [F2 H2].
    split; [exact (core_same_trans _ _ _ F1 F2)|].
    rewrite H2, H1. reflexivity. }
  specialize (H Hcons
                (fun x a b Ha Hab => on_core _ a b Ha (proj1 Hab))
                (fun n => update_population n PCensus Pop.census)
                (nodes (topology (self w)))).
  assert (Hbody : forall x, In x (nodes (topology (self w))) ->
             forall a, on (topology (self w)) a ->
               outcome True
                 (fun a b =>
                    core_same (self a) (self b)
                    /\ populations (self b)
                       = apply_at Pop.census [x] (populations (self a)))
                 (update_population x PCensus Pop.census) a).
  { intros x Hx a Ha.
    destruct (update_population_runs a x PCensus Pop.census
                (on_node _ a x Ha Hx)) as [p [Ep E]].
    unfold outcome. rewrite E. cbn [self populations set_populations].
    split.
    - repeat split. apply length_replace_nth.
    - cbn [apply_at]. rewrite Ep. reflexivity. }
  specialize (H Hbody w1 Hon). unfold outcome in H.
  destruct (for_each _ _ w1) as [[[] w2]|err]; [|exfalso; exact (H I)].
  destruct H as [_ Hp]. exists w2. split; [reflexivity|].
  rewrite Hp. unfold w1, nodes. cbn [self].
  destruct Hw as [_ [Hl _]]. rewrite <- Hl.
  exact (apply_at_seq Pop.census (populations (self w)) []).
Qed.

Lemma size_after_census (G : nat) (pops : list Population) :
  Forall (fun p => length (abundances p) = G /\ length (immigrants p) = G)
         pops ->
  Array.sumZ (map Pop.size (map Pop.census pops))
  = Array.sumZ (map Pop.size pops) + Array.sumZ (map Pop.pending pops).
Proof.
  induction 1 as [|p pops [Ha Hi] _ IH].
  - reflexivity.
  - cbn [map Array.sumZ fold_right].
    change (fold_right Z.add 0 ?l) with (Array.sumZ l).
    rewrite IH. unfold Pop.size at 1, Pop.census at 1. cbn [abundances].
    rewrite sumZ_map2_add by congruence.
    unfold Pop.size, Pop.pending. lia.
Qed.

End EngineRuns.

(** ** One cycle *)

Section Cycle.

Context {ext : Externals} {ok : ExternalsOk ext}.

Lemma set_environment_changed_OK (b : bool) (w : Machine) :
  set_environment_changed b w
  = OK (tt,
        mkMachine
          (mkMetapopulation (config (self w)) (time (self w))
             (topology (self w)) (mutation_probs (self w))
             (fitness_landscape (self w)) (populations (self w)) b
             (log_objects (self w)))
          (random_state w) (history w)).
Proof. reflexivity. Qed.

Lemma advance_time_OK (w : Machine) :
  advance_time w
  = OK (tt,
        mkMachine
          (mkMetapopulation (config (self w)) (time (self w) + 1)
             (topology (self w)) (mutation_probs (self w))
             (fitness_landscape (self w)) (populations (self w))
             (environment_changed (self w)) (log_objects (self w)))
          (random_state w) (history w)).
Proof. reflexivity. Qed.

Lemma entered_well_formed (e : step) (w w' : Machine) :
  well_formed w -> entered e w w' -> well_formed w'.
Proof. intros Hw [[Hc _] _]. exact (well_formed_core w w' Hw Hc). Qed.

(** The optional mixing step. *)
Lemma mix_if_due (strict : Prop) (w : Machine) :
  well_formed w ->
  outcome strict
    (fun a b =>
       same_frame (self a) (self b)
       /\ exists e6,
            silent e6
            /\ history b
               = history a
                 ++ (if due (mix_frequency (config (self a))) (time (self a))
                     then Enter Mix :: e6 else []))
    (if due (mix_frequency (config (self w))) (time (self w))
     then mix else ret tt) w.
Proof.
  intros Hw. unfold outcome.
  destruct (due (mix_frequency (config (self w))) (time (self w))).
  - pose proof (mix_runs strict w Hw) as H. unfold outcome in H.
    destruct (mix w) as [[[] w1]|err]; [|exact H].
    destruct H as [F [evs [Hh Hs]]]. split; [exact F|].
    exists evs. split; assumption.
  - rewrite ret_OK. split; [apply same_frame_refl|].
    exists []. split; [reflexivity|]. rewrite app_nil_r. reflexivity.
Qed.

(** The last step: environment change or dilution, and the flag. *)
Lemma close_cycle (strict : Prop) (w : Machine) :
  well_formed w ->
  outcome strict
    (fun a b =>
       core_same (self a) (self b)
       /\ time (self b) = time (self a)
       /\ environment_changed (self b)
          = due (env_change_frequency (config (self a))) (time (self a))
       /\ (due (env_change_frequency (config (self a))) (time (self a)) = false
           -> fitness_landscape (self b) = fitness_landscape (self a))
       /\ exists e7,
            silent e7
            /\ history b
               = history a
                 ++ closing_events (config (self a)) (time (self a))
                      (topology (self a)) e7)
    (if due (env_change_frequency (config (self w))) (time (self w))
     then bind change_environment (fun _ => set_environment_changed true)
     else bind (dilute (dilution_stochastic (config (self w))))
               (fun _ => set_environment_changed false)) w.
Proof.
  intros Hw. unfold closing_events, outcome.
  destruct (due (env_change_frequency (config (self w))) (time (self w))).
  - pose proof (change_environment_runs strict w Hw) as H.
    unfold outcome in H.
    destruct (change_environment w) as [[[] w1]|err] eqn:E;
      [|rewrite (bind_Raise _ _ _ _ E); exact H].
    run E. rewrite set_environment_changed_OK. cbn [self history].
    destruct H as [[[Hc Ht] [evs [Hh Hs]]] _].
    split; [exact Hc|]. split; [exact Ht|]. split; [reflexivity|].
    split; [discriminate|]. exists evs. split; assumption.
  - destruct (dilute_trace (dilution_stochastic (config (self w))) w Hw)
      as [w1 [E [[Hc [Ht [Hl _]]] Hh]]].
    run E. rewrite set_environment_changed_OK. cbn [self history].
    split; [exact Hc|]. split; [exact Ht|]. split; [reflexivity|].
    split; [intros _; exact Hl|]. exists []. split; [reflexivity | exact Hh].
Qed.

Lemma cycle_events_assoc (h : list event) (cfg : Config) (t : Z)
  (topo : Topology) (e1 e2 e3 e4 e5 e6 e7 : list event) :
  ((((((h ++ Enter Grow :: e1) ++ Enter Mutate :: e2) ++ Enter Migrate :: e3)
      ++ Enter Census :: e4) ++ Enter WriteLogfiles :: e5)
    ++ (if due (mix_frequency cfg) t then Enter Mix :: e6 else []))
   ++ closing_events cfg t topo e7
  = h ++ cycle_events cfg t topo e1 e2 e3 e4 e5 e6 e7.
Proof.
  unfold cycle_events. repeat (rewrite <- app_assoc; cbn [app]). reflexivity.
Qed.

(** One cycle returns unless [migrate] raises, and then it has entered
    its methods in order and advanced the clock by one. *)
Lemma cycle_runs (w : Machine) :
  well_formed w ->
  outcome (can_migrate (config (self w)) (topology (self w))) cycled cycle w.
Proof.
  intros Hw.
  set (strict := can_migrate (config (self w)) (topology (self w))).
  unfold outcome, cycle.
  (* grow *)
  pose proof (grow_runs strict w Hw) as H1. unfold outcome in H1.
  destruct (grow w) as [[[] w1]|err] eqn:E1;
    [|rewrite (bind_Raise _ _ _ _ E1); exact H1].
  run E1. destruct H1 as [F1 [e1 [Hh1 S1]]].
  assert (Hw1 : well_formed w1) by exact (well_formed_core _ _ Hw (proj1 F1)).
  (* mutate *)
  pose proof (mutate_runs strict w1 Hw1) as H2. unfold outcome in H2.
  destruct (mutate w1) as [[[] w2]|err] eqn:E2;
    [|rewrite (bind_Raise _ _ _ _ E2); exact H2].
  run E2. destruct H2 as [F2 [e2 [Hh2 S2]]].
  assert (Hw2 : well_formed w2) by exact (well_formed_core _ _ Hw1 (proj1 F2)).
  pose proof (same_frame_trans _ _ _ F1 F2) as G2.
  (* migrate *)
  pose proof (migrate_runs 0 w2 Hw2) as H3. unfold outcome in H3.
  assert (Hstrict : can_migrate (config (self w2)) (topology (self w2))
                    = strict).
  { destruct G2 as [[C1 [C2 _]] _]. unfold strict. rewrite C1, C2.
    reflexivity. }
  rewrite Hstrict in H3.
  destruct (migrate w2) as [[[] w3]|err] eqn:E3;
    [|rewrite (bind_Raise _ _ _ _ E3); exact H3].
  run E3. destruct H3 as [[F3 [e3 [Hh3 S3]]] _].
  assert (Hw3 : well_formed w3) by exact (well_formed_core _ _ Hw2 (proj1 F3)).
  pose proof (same_frame_trans _ _ _ G2 F3) as G3.
  (* census *)
  pose proof (census_runs strict w3 Hw3) as H4. unfold outcome in H4.
  destruct (census w3) as [[[] w4]|err] eqn:E4;
    [|rewrite (bind_Raise _ _ _ _ E4); exact H4].
  run E4. destruct H4 as [F4 [e4 [Hh4 S4]]].
  assert (Hw4 : well_formed w4) by exact (well_formed_core _ _ Hw3 (proj1 F4)).
  pose proof (same_frame_trans _ _ _ G3 F4) as G4.
  (* write_logfiles *)
  pose proof (write_logfiles_runs strict w4 Hw4) as H5. unfold outcome in H5.
  destruct (write_logfiles w4) as [[[] w5]|err] eqn:E5;
    [|rewrite (bind_Raise _ _ _ _ E5); exact H5].
  run E5. destruct H5 as [F5 [e5 [Hh5 S5]]].
  assert (Hw5 : well_formed w5) by exact (well_formed_core _ _ Hw4 (proj1 F5)).
  pose proof (same_frame_trans _ _ _ G4 F5) as G5.
  (* mix *)
  run (get_self_OK w5).
  pose proof (mix_if_due strict w5 Hw5) as H6. unfold outcome in H6.
  destruct ((if due (mix_frequency (config (self w5))) (time (self w5))
             then mix else ret tt) w5) as [[[] w6]|err] eqn:E6;
    [|rewrite (bind_Raise _ _ _ _ E6); exact H6].
  run E6. destruct H6 as [F6 [e6 [S6 Hh6]]].
  assert (Hw6 : well_formed w6) by exact (well_formed_core _ _ Hw5 (proj1 F6)).
  pose proof (same_frame_trans _ _ _ G5 F6) as G6.
  (* environment change or dilution *)
  run (get_self_OK w6).
  pose proof (close_cycle strict w6 Hw6) as H7. unfold outcome in H7.
  destruct ((if due (env_change_frequency (config (self w6))) (time (self w6))
             then bind change_environment
                    (fun _ => set_environment_changed true)
             else bind (dilute (dilution_stochastic (config (self w6))))
                    (fun _ => set_environment_changed false)) w6)
    as [[[] w7]|err] eqn:E7;
    [|rewrite (bind_Raise _ _ _ _ E7); exact H7].
  run E7. destruct H7 as [C7 [T7 [V7 [L7 [e7 [S7 Hh7]]]]]].
  rewrite advance_time_OK.
  cbn [self history time config topology mutation_probs log_objects
       populations environment_changed fitness_landscape].
  destruct G5 as [[C5c [C5t _]] [T5 _]].
  destruct G6 as [K6 [T6 [L6 _]]].
  pose proof K6 as [C6c [C6t _]].
  rewrite C5c, T5 in Hh6. rewrite C6c, T6 in V7, L7.
  rewrite C6c, T6, C6t in Hh7.
  unfold cycled. cbv zeta.
  split; [exact (core_same_trans _ _ _ K6 C7)|].
  split; [rewrite T7, T6; reflexivity|].
  split; [exact V7|].
  split; [intros Hd; rewrite (L7 Hd); exact L6|].
  exists e1, e2, e3, e4, e5, e6, e7.
  repeat (split; [assumption|]).
  rewrite Hh7, Hh6, Hh5, Hh4, Hh3, Hh2, Hh1.
  apply cycle_events_assoc.
Qed.

Lemma cycled_well_formed (w w' : Machine) :
  well_formed w -> cycled w w' -> well_formed w'.
Proof. intros Hw [Hc _]. exact (well_formed_core w w' Hw Hc). Qed.

(** Repeated cycles keep the engine well formed and count themselves. *)
Lemma run_cycles_spec (k : nat) :
  forall w : Machine,
    well_formed w ->
    outcome (can_migrate (config (self w)) (topology (self w)))
      (fun a b =>
         core_same (self a) (self b)
         /\ time (self b) = time (self a) + Z.of_nat k)
      (run_cycles k) w.
Proof.
  induction k as [|k IH]; intros w Hw.
  - unfold outcome. cbn [run_cycles]. rewrite ret_OK.
    split; [apply core_same_refl | simpl; lia].
  - pose proof (cycle_runs w Hw) as H1. unfold outcome in *.
    cbn [run_cycles].
    destruct (cycle w) as [[[] w1]|err] eqn:E1;
      [|rewrite (bind_Raise _ _ _ _ E1); exact H1].
    run E1. pose proof (cycled_well_formed w w1 Hw H1) as Hw1.
    destruct H1 as [C1 [T1 _]].
    specialize (IH w1 Hw1).
    pose proof C1 as [Cc [Ct _]]. rewrite Cc, Ct in IH.
    destruct (run_cycles k w1) as [[[] w2]|err]; [|exact IH].
    destruct IH as [C2 T2].
    split; [exact (core_same_trans _ _ _ C1 C2)|]. lia.
Qed.

End Cycle.

(** ** Construction *)

Section Construction.

Context {ext : Externals} {ok : ExternalsOk ext}.

Lemma populated_refl (w : Machine) : populated 0 w w.
Proof. unfold populated. repeat split. lia. Qed.

Lemma populated_trans (j k : nat) (a b c : Machine) :
  populated j a b -> populated k b c -> populated (j + k) a c.
Proof.
  unfold populated. intros [A1 [A2 [A3 [A4 A5]]]] [B1 [B2 [B3 [B4 B5]]]].
  repeat split; try congruence. lia.
Qed.

Lemma outcome_then (strict : Prop) (j k : nat) (c1 c2 : M unit) (w : Machine) :
  outcome strict (populated j) c1 w ->
  (forall w1, outcome strict (populated k) c2 w1) ->
  outcome strict (populated (j + k)) (bind c1 (fun _ => c2)) w.
Proof.
  intros H1 H2. unfold outcome in *. unfold bind.
  destruct (c1 w) as [[[] w1]|err]; [|exact H1].
  specialize (H2 w1). destruct (c2 w1) as [[[] w2]|err]; [|exact H2].
  exact (populated_trans j k w w1 w2 H1 H2).
Qed.

Lemma set_abundance_populated (n g : nat) (v : Z) (w : Machine) :
  outcome False (populated 0) (set_abundance n g v) w.
Proof.
  unfold outcome, set_abundance, population_at, bind, get_self.
  destruct (nth_error (populations (self w)) n) as [p|];
    [|unfold raise; tauto].
  unfold ret. destruct (Array.set_item (abundances p) g v); [|unfold raise; tauto].
  rewrite store_population_OK. unfold populated.
  cbn [self populations set_populations config time topology mutation_probs].
  rewrite length_replace_nth. repeat split. lia.
Qed.

Lemma call_population_populated (n : nat) (m : pop_method)
  (f : Population -> Rand -> Population * Rand) (w : Machine) :
  outcome False (populated 0) (call_population n m f) w.
Proof.
  unfold outcome.
  destruct (call_population n m f w) as [[[] w1]|err] eqn:E; [|tauto].
  destruct (Nat.lt_ge_cases n (length (populations (self w)))) as [Hn|Hn].
  - destruct (call_population_runs w n m f Hn) as [w' [E' [[F [Ft _]] _]]].
    rewrite E in E'. injection E' as <-.
    destruct F as [C1 [C2 [C3 [_ C5]]]]. unfold populated.
    repeat split; try assumption. lia.
  - apply nth_error_None in Hn.
    unfold call_population, population_at, bind, get_self in E.
    rewrite Hn in E. discriminate.
Qed.

Lemma seed_node_populated (n : nat) (w : Machine) :
  outcome False (populated 1) (seed_node n) w.
Proof.
  unfold seed_node. unfold outcome. run (get_self_OK w). run (put_self_OK _ _).
  set (w1 := mkMachine _ _ _).
  assert (H01 : populated 1 w w1).
  { unfold populated, w1. cbn [self populations set_populations config time
      topology mutation_probs]. rewrite length_app. repeat split. }
  assert (Hrest : forall c : M unit,
             outcome False (populated 0) c w1 ->
             match c w1 with
             | OK (_, w') => populated 1 w w'
             | Raise _ => ~ False
             end).
  { intros c Hc. unfold outcome in Hc.
    destruct (c w1) as [[[] w2]|err]; [|tauto].
    exact (populated_trans 1 0 w w1 w2 H01 Hc). }
  destruct (initial_state (config (self w))).
  - destruct (n =? 0)%nat; [|destruct (_ =? _)].
    + apply Hrest. apply (outcome_then False 0 0).
      * apply set_abundance_populated.
      * intros a. apply call_population_populated.
    + apply Hrest. apply (outcome_then False 0 0).
      * apply set_abundance_populated.
      * intros a. apply call_population_populated.
    + apply Hrest. unfold outcome. rewrite ret_OK. apply populated_refl.
  - apply Hrest.
    destruct (stress_counts (config (self w))) as [counts|err].
    + unfold outcome. cbn [lift]. run (ret_OK counts _).
      apply (outcome_then False 0 0).
      * apply set_abundance_populated.
      * intros a. apply (outcome_then False 0 0).
        -- apply set_abundance_populated.
        -- intros b. apply call_population_populated.
    + unfold outcome. cbn [lift]. rewrite (bind_Raise _ _ _ err eq_refl).
      tauto.
  - apply Hrest. unfold outcome. rewrite ret_OK. apply populated_refl.
Qed.

Lemma seed_nodes_populated (l : list nat) (w : Machine) :
  outcome False (populated (length l)) (for_each l seed_node) w.
Proof.
  exact (for_each_steps False (fun l0 => populated (length l0))
           (fun _ => True) populated_refl
           (fun x l0 a b c => populated_trans 1 (length l0) a b c)
           (fun _ _ _ _ _ => I) seed_node l
           (fun x _ a _ => seed_node_populated x a) w I).
Qed.

(** What a successful construction establishes. *)
Lemma construction_establishes (cfg : Config) (topo : Topology) (r : Rand)
  (w0 : Machine) :
  new_metapopulation cfg topo r = OK w0 ->
  config (self w0) = cfg
  /\ topology (self w0) = topo
  /\ time (self w0) = 0
  /\ Mutation.get_mutation_probabilities cfg = OK (mutation_probs (self w0))
  /\ valid_config cfg = true
  /\ length (populations (self w0)) = number_of_nodes topo
  /\ environment_changed (self w0) = false.
Proof.
  unfold new_metapopulation.
  destruct (init (fresh cfg topo r)) as [[[] w']|err] eqn:E; [|discriminate].
  intros H. injection H as <-.
  unfold init in E. run (get_self_OK _) in E.
  cbn [fresh self config topology time] in E.
  destruct (Qle_bool 0 (migration_rate cfg) && Qle_bool (migration_rate cfg) 1)
    eqn:A1; [|discriminate E].
  destruct (Qle_bool 0 (migration_p_far cfg)
            && Qle_bool (migration_p_far cfg) 1) eqn:A2; [|discriminate E].
  destruct (0 <? log_frequency cfg) eqn:A3; [|discriminate E].
  unfold assert in E.
  run (ret_OK tt _) in E. run (ret_OK tt _) in E. run (ret_OK tt _) in E.
  destruct (Mutation.get_mutation_probabilities cfg) as [mr|err] eqn:Emr;
    [|discriminate E].
  assert (HL : 0 <= genome_length cfg).
  { unfold Mutation.get_mutation_probabilities in Emr.
    destruct (Z.ltb_spec (genome_length cfg) 0); [discriminate | assumption]. }
  run (put_self_OK _ _) in E. cbn [self random_state history] in E.
  match type of E with
  | bind build_fitness_landscape _ ?m = _ => set (w1 := m) in E
  end.
  destruct (Qle_bool 0 (base_fitness cfg)) eqn:A4.
  2:{ assert (Er : build_fitness_landscape w1 = Raise AssertionError).
      { unfold build_fitness_landscape, bind, get_self, assert, w1.
        cbn [self config]. rewrite A4.
        destruct (0 <=? genome_length cfg); reflexivity. }
      rewrite (bind_Raise _ _ _ _ Er) in E. discriminate E. }
  destruct (effects_scale_ok cfg) eqn:A7.
  2:{ rewrite (bind_Raise _ _ _ _
                 (build_fitness_landscape_refuses_scale w1 HL
                    (proj1 (Qle_bool_iff _ _) A4) A7)) in E.
      discriminate E. }
  destruct (build_fitness_landscape_runs w1 HL (proj1 (Qle_bool_iff _ _) A4)
              A7)
    as [landscape [El _]].
  run El in E. run (get_self_OK _) in E. run (put_self_OK _ _) in E.
  cbn [self random_state history] in E.
  match type of E with
  | bind (for_each (nodes topo) seed_node) _ ?m = _ => set (w2 := m) in E
  end.
  pose proof (seed_nodes_populated (nodes topo) w2) as Hs.
  unfold outcome in Hs.
  destruct (for_each (nodes topo) seed_node w2) as [[[] w3]|err] eqn:Es;
    [|rewrite (bind_Raise _ _ _ _ Es) in E; discriminate E].
  run Es in E.
  destruct (0 <=? mix_frequency cfg) eqn:A5; [|discriminate E].
  destruct (0 <=? env_change_frequency cfg) eqn:A6; [|discriminate E].
  run (ret_OK tt _) in E. run (ret_OK tt _) in E. run (get_self_OK _) in E.
  rewrite put_self_OK in E. injection E as <-.
  destruct Hs as [_ [S2 [_ [S4 S5]]]].
  cbn [self config topology time mutation_probs populations
       environment_changed].
  unfold w2, w1 in S2, S4, S5.
  cbn [self time mutation_probs populations set_fitness_landscape] in S2, S4, S5.
  unfold nodes in S5. rewrite length_seq in S5.
  split; [reflexivity|]. split; [reflexivity|]. split; [exact S2|].
  split; [rewrite S4; reflexivity|].
  split; [|split; [exact S5 | reflexivity]].
  unfold valid_config. rewrite A1, A3, A4, A5, A6, A7.
  apply andb_prop in A2. destruct A2 as [-> ->].
  apply Z.leb_le in HL. rewrite HL. reflexivity.
Qed.

End Construction.

(** ** C4: migration conserves the total abundance *)

Lemma reference_ring_ok (n : nat) : topology_ok (Reference.ring n).
Proof.
  intros k d Hk Hd. simpl in *.
  destruct Hd as [<-|[<-|[]]]; apply Nat.mod_upper_bound; lia.
Qed.

(** C4: on a constructed engine whose populations have [G] live and [G]
    buffered entries and whose buffers hold no individual, for every
    migration rate, far-migration probability and destination mode and
    every outcome of the random draws: whenever [migrate] and then
    [census] return, the total abundance summed over all nodes is what
    it was before [migrate]; and both return when no node the local
    choice can be asked about has an empty neighborhood. *)
Theorem migration_conserves_total_abundance {ext : Externals}
  {ok : ExternalsOk ext} (G : nat) (w : Machine) :
  well_formed w ->
  shaped G (self w) ->
  pending (self w) = 0 ->
  (forall w1 w2,
     migrate w = OK (tt, w1) -> census w1 = OK (tt, w2) ->
     size (self w2) = size (self w))
  /\ (can_migrate (config (self w)) (topology (self w)) ->
      exists w1 w2,
        migrate w = OK (tt, w1) /\ census w1 = OK (tt, w2)
        /\ size (self w2) = size (self w)).
Proof.
  intros Hw Hsh Hp.
  pose proof (migrate_runs G w Hw) as Hm. unfold outcome in Hm.
  assert (Hafter : forall w1 w2,
             migrate w = OK (tt, w1) -> census w1 = OK (tt, w2) ->
             size (self w2) = size (self w)).
  { intros w1 w2 E1 E2. rewrite E1 in Hm.
    destruct Hm as [[[Hc _] _] Hcons].
    destruct (Hcons Hsh) as [Hsh1 Ht].
    destruct (census_exact w1 (well_formed_core w w1 Hw Hc)) as [w2' [E2' Hpops]].
    rewrite E2 in E2'. injection E2' as <-.
    unfold size. rewrite Hpops, (size_after_census G _ Hsh1).
    unfold total, size, pending in Ht. unfold pending in Hp. lia. }
  split; [exact Hafter|].
  intros Hcan.
  destruct (migrate w) as [[[] w1]|err] eqn:E1; [|contradiction].
  destruct Hm as [[[Hc _] _] _].
  destruct (census_exact w1 (well_formed_core w w1 Hw Hc)) as [w2 [E2 _]].
  exists w1, w2. split; [reflexivity|]. split; [exact E2|].
  exact (Hafter w1 w2 eq_refl E2).
Qed.

(** On a single node without neighbors, local migration to a single
    destination makes [choice] raise. *)
Lemma migrate_raises_on_isolated_node :
  well_formed Reference.lonely_engine
  /\ migrate Reference.lonely_engine = Raise ValueError.
Proof.
  split; [|vm_compute; reflexivity].
  split; [reflexivity|]. split; [reflexivity|].
  intros n d _ Hd. vm_compute in Hd. contradiction.
Qed.

Lemma reference_engine_well_formed : well_formed Reference.engine.
Proof.
  split; [reflexivity|]. split; [reflexivity|].
  exact (reference_ring_ok 3).
Qed.

Lemma reference_engine_can_migrate :
  can_migrate (config (self Reference.engine))
    (topology (self Reference.engine)).
Proof. intros _ _ n _. vm_compute. discriminate. Qed.

Lemma reference_engine_shaped : shaped 4 (self Reference.engine).
Proof. vm_compute. repeat constructor. Qed.

Lemma migration_conserves_total_abundance_witness :
  exists w1 w2,
    migrate Reference.engine = OK (tt, w1)
    /\ census w1 = OK (tt, w2)
    /\ size (self w2) = size (self Reference.engine).
Proof.
  apply (proj2 (@migration_conserves_total_abundance Reference.externals
                  reference_ok 4 Reference.engine
                  reference_engine_well_formed reference_engine_shaped
                  eq_refl)).
  exact reference_engine_can_migrate.
Defined.

(** ** C5-C8: the per-cycle protocol *)

Section CycleClaims.

Context {ext : Externals} {ok : ExternalsOk ext}.

Lemma filter_enter_silent (evs rest : list event) :
  silent evs -> filter is_enter (evs ++ rest) = filter is_enter rest.
Proof. intros H. rewrite filter_app, H. reflexivity. Qed.

Lemma silent_pop_calls (m : pop_method) (l : list nat) :
  silent (map (fun n => PopCall n m) l).
Proof.
  unfold silent. induction l as [|n l IH]; [reflexivity|].
  cbn [map filter is_enter]. exact IH.
Qed.

Lemma cycle_events_order (cfg : Config) (t : Z) (topo : Topology)
  (e1 e2 e3 e4 e5 e6 e7 : list event) :
  silent e1 -> silent e2 -> silent e3 -> silent e4 -> silent e5 ->
  silent e6 -> silent e7 ->
  filter is_enter (cycle_events cfg t topo e1 e2 e3 e4 e5 e6 e7)
  = cycle_order cfg t.
Proof.
  intros S1 S2 S3 S4 S5 S6 S7. unfold cycle_events, cycle_order, closing_events.
  cbn [filter is_enter]. rewrite (filter_enter_silent e1) by exact S1.
  cbn [filter is_enter]. rewrite (filter_enter_silent e2) by exact S2.
  cbn [filter is_enter]. rewrite (filter_enter_silent e3) by exact S3.
  cbn [filter is_enter]. rewrite (filter_enter_silent e4) by exact S4.
  cbn [filter is_enter]. rewrite (filter_enter_silent e5) by exact S5.
  rewrite filter_app. cbn [map app]. repeat f_equal.
  destruct (due (mix_frequency cfg) t), (due (env_change_frequency cfg) t);
    cbn [filter is_enter app map];
    rewrite ?S6, ?S7, ?(silent_pop_calls _ (nodes topo)); reflexivity.
Qed.

(** A cycle returns unless [choice] meets an empty neighborhood. *)
Lemma cycle_returns (w : Machine) :
  well_formed w ->
  can_migrate (config (self w)) (topology (self w)) ->
  exists w', cycle w = OK (tt, w').
Proof.
  intros Hw Hcan. pose proof (cycle_runs w Hw) as H. unfold outcome in H.
  destruct (cycle w) as [[[] w']|err]; [|contradiction].
  exists w'. reflexivity.
Qed.

Lemma cycle_cycled (w w' : Machine) :
  well_formed w -> cycle w = OK (tt, w') -> cycled w w'.
Proof.
  intros Hw E. pose proof (cycle_runs w Hw) as H. unfold outcome in H.
  rewrite E in H. exact H.
Qed.

End CycleClaims.




Lemma due_spec (freq t : Z) :
  due freq t = true <-> 0 < freq /\ 0 < t /\ t mod freq = 0.
Proof.
  unfold due. rewrite !andb_true_iff, !Z.ltb_lt, Z.eqb_eq. tauto.
Qed.







Section FrameClaims.

Context {ext : Externals} {ok : ExternalsOk ext}.

(** No engine method touches what [core_same] lists. *)
Lemma run_core_same (m : step) (w w' : Machine) :
  well_formed w -> run m w = OK (tt, w') -> core_same (self w) (self w').
Proof.
  intros Hw E. destruct m; cbn [run] in E.
  - pose proof (grow_runs False w Hw) as H. unfold outcome in H.
    rewrite E in H. exact (proj1 (proj1 H)).
  - pose proof (mutate_runs False w Hw) as H. unfold outcome in H.
    rewrite E in H. exact (proj1 (proj1 H)).
  - pose proof (migrate_runs 0 w Hw) as H. unfold outcome in H.
    rewrite E in H. exact (proj1 (proj1 (proj1 H))).
  - pose proof (census_runs False w Hw) as H. unfold outcome in H.
    rewrite E in H. exact (proj1 (proj1 H)).
  - pose proof (write_logfiles_runs False w Hw) as H. unfold outcome in H.
    rewrite E in H. exact (proj1 (proj1 H)).
  - pose proof (mix_runs False w Hw) as H. unfold outcome in H.
    rewrite E in H. exact (proj1 (proj1 H)).
  - pose proof (change_environment_runs False w Hw) as H. unfold outcome in H.
    rewrite E in H. exact (proj1 (proj1 (proj1 H))).
  - run (get_self_OK w) in E.
    destruct (dilute_trace (dilution_stochastic (config (self w))) w Hw)
      as [w1 [E1 [F _]]].
    rewrite E in E1. injection E1 as <-. exact (proj1 F).
Qed.

(** [change_environment] always returns on a constructed engine. *)
Lemma change_environment_returns (w : Machine) :
  well_formed w ->
  exists w', change_environment w = OK (tt, w')
             /\ environment_changed_by w w'.
Proof.
  intros Hw. pose proof (change_environment_runs True w Hw) as H.
  unfold outcome in H.
  destruct (change_environment w) as [[[] w']|err]; [|exfalso; exact (H I)].
  exists w'. split; [reflexivity | exact H].
Qed.

End FrameClaims.

(** C7: on a constructed engine [change_environment] returns, replaces
    the fitness landscape by the table of freshly drawn effects and
    leaves [mutation_probs] equal to its value before; no engine method
    and no number of cycles changes [mutation_probs]; construction sets
    it to the result of [get_mutation_probabilities]. *)
Theorem mutation_probs_never_rebuilt {ext : Externals}
  {ok : ExternalsOk ext} (w : Machine) :
  well_formed w ->
  (exists w',
     change_environment w = OK (tt, w')
     /\ mutation_probs (self w') = mutation_probs (self w)
     /\ landscape_table (genome_length (config (self w)))
          (base_fitness (config (self w))) (production_cost (config (self w)))
          (fst (effects_sampler (config (self w)) (random_state w)))
        = OK (fitness_landscape (self w')))
  /\ (forall m w',
        run m w = OK (tt, w') ->
        mutation_probs (self w') = mutation_probs (self w))
  /\ (forall k w',
        run_cycles k w = OK (tt, w') ->
        mutation_probs (self w') = mutation_probs (self w))
  /\ (forall r w0,
        new_metapopulation (config (self w)) (topology (self w)) r = OK w0 ->
        Mutation.get_mutation_probabilities (config (self w))
        = OK (mutation_probs (self w0))).
Proof.
  intros Hw. split; [|split; [|split]].
  - destruct (change_environment_returns w Hw) as [w' [E [[[Hc _] _] Hl]]].
    exists w'. split; [exact E|]. split; [|exact Hl].
    destruct Hc as [_ [_ [Hm _]]]. exact Hm.
  - intros m w' E. destruct (run_core_same m w w' Hw E) as [_ [_ [Hm _]]].
    exact Hm.
  - intros k w' E. pose proof (run_cycles_spec k w Hw) as H.
    unfold outcome in H. rewrite E in H.
    destruct H as [[_ [_ [Hm _]]] _]. exact Hm.
  - intros r w0 E.
    destruct (construction_establishes _ _ r w0 E) as [_ [_ [_ [Hm _]]]].
    exact Hm.
Qed.

Lemma mutation_probs_never_rebuilt_witness :
  exists w',
    change_environment Reference.engine = OK (tt, w')
    /\ mutation_probs (self w') = mutation_probs (self Reference.engine)
    /\ landscape_table (A := Q) 1 1%Q (3 # 10)%Q
         (fst (effects_sampler Reference.example_config
                 (random_state Reference.engine)))
       = OK (fitness_landscape (self w')).
Proof.
  exact (proj1 (@mutation_probs_never_rebuilt Reference.externals reference_ok
                  Reference.engine reference_engine_well_formed)).
Defined.

(** C8: when the configured migration rate is zero, [migrate] returns
    at once without an error: the object (every node's live abundances
    and immigrant buffer included) and the random generator are exactly
    as before, and no population method has been called. *)
Theorem migrate_is_no_op_at_rate_zero {ext : Externals} (w : Machine) :
  (migration_rate (config (self w)) == 0)%Q ->
  migrate w
  = OK (tt, mkMachine (self w) (random_state w)
              (history w ++ [Enter Migrate])).
Proof.
  intros H. apply Qeq_bool_iff in H.
  unfold migrate. run (record_OK _ w). run (get_self_OK _).
  cbn [self]. rewrite H. reflexivity.
Qed.

Lemma migrate_is_no_op_at_rate_zero_witness :
  migrate Reference.sessile_engine
  = OK (tt, mkMachine (self Reference.sessile_engine)
              (random_state Reference.sessile_engine)
              (history Reference.sessile_engine ++ [Enter Migrate])).
Proof.
  apply (@migrate_is_no_op_at_rate_zero Reference.externals
           Reference.sessile_engine).
  reflexivity.
Defined.

(** C9: [prop_producers] returns the sentinel [NA] whenever the
    metapopulation's size is 0, and the number of producers divided by
    the size whenever the size is positive. *)
Theorem prop_producers_sentinel_or_ratio (s : Metapopulation) :
  (size s = 0 -> prop_producers s = NA)
  /\ (0 < size s ->
      exists p,
        prop_producers s = Proportion p
        /\ (p == inject_Z (num_producers s) / inject_Z (size s))%Q).
Proof.
  unfold prop_producers. split.
  - intros H. rewrite H. reflexivity.
  - intros H. destruct (Z.eqb_spec (size s) 0) as [E|_]; [lia|].
    eexists. split; [reflexivity|]. unfold Qdiv. ring.
Qed.

Lemma prop_producers_sentinel_or_ratio_witness :
  prop_producers
    (self (fresh Reference.example_config (Reference.ring 3) Reference.seed))
  = NA
  /\ exists p,
       prop_producers (self Reference.engine) = Proportion p
       /\ (p == inject_Z 10 / inject_Z 11)%Q.
Proof.
  split.
  - apply (proj1 (prop_producers_sentinel_or_ratio _)). reflexivity.
  - apply (proj2 (prop_producers_sentinel_or_ratio (self Reference.engine))).
    reflexivity.
Defined.

(** * Further properties *)

(** ** Further properties of the genome codec *)

Lemma popcount_low_bit (a : N) (c : bool) :
  Genome.popcount (Genome.with_low_bit a c)
  = (Genome.popcount a + (if c then 1 else 0))%nat.
Proof.
  destruct c; unfold Genome.with_low_bit.
  - rewrite popcount_succ_double. lia.
  - rewrite popcount_double. lia.
Qed.

Lemma low_bit_cases (y : N) : exists y' d, y = Genome.with_low_bit y' d.
Proof.
  destruct y as [|[q|q|]].
  - exists 0%N, false. reflexivity.
  - exists (N.pos q), true. reflexivity.
  - exists (N.pos q), false. reflexivity.
  - exists 0%N, true. reflexivity.
Qed.

Lemma lxor_low_bit (a b : N) (c d : bool) :
  N.lxor (Genome.with_low_bit a c) (Genome.with_low_bit b d)
  = Genome.with_low_bit (N.lxor a b) (xorb c d).
Proof.
  destruct c, d; unfold Genome.with_low_bit; cbn [xorb].
  - apply lxor_succ_double_succ_double.
  - apply lxor_succ_double_double.
  - apply lxor_double_succ_double.
  - apply lxor_double_double.
Qed.

Lemma popcount_lxor_le (x : N) :
  forall y, (Genome.popcount (N.lxor x y)
             <= Genome.popcount x + Genome.popcount y)%nat.
Proof.
  induction x as [|x IH|x IH] using N.binary_ind; intros y.
  - rewrite N.lxor_0_l. lia.
  - destruct (low_bit_cases y) as [y' [d ->]].
    change (N.double x) with (Genome.with_low_bit x false).
    rewrite lxor_low_bit, !popcount_low_bit. specialize (IH y').
    destruct d; cbn [xorb]; lia.
  - destruct (low_bit_cases y) as [y' [d ->]].
    change (N.succ_double x) with (Genome.with_low_bit x true).
    rewrite lxor_low_bit, !popcount_low_bit. specialize (IH y').
    destruct d; cbn [xorb negb]; lia.
Qed.

Lemma popcount_pos (p : positive) : (1 <= Genome.popcount (N.pos p))%nat.
Proof.
  induction p as [q IH|q IH|].
  - change (N.pos q~1) with (N.succ_double (N.pos q)).
    rewrite popcount_succ_double. lia.
  - change (N.pos q~0) with (N.double (N.pos q)).
    rewrite popcount_double. exact IH.
  - vm_compute. lia.
Qed.

Lemma hamming_distance_popcount (a b : N) :
  Genome.hamming_distance a b = Genome.popcount (N.lxor a b).
Proof. reflexivity. Qed.

Lemma hamming_distance_eq_0 (a b : N) :
  Genome.hamming_distance a b = 0%nat <-> a = b.
Proof.
  rewrite hamming_distance_popcount. split.
  - intros H. apply N.lxor_eq.
    destruct (N.lxor a b) as [|p]; [reflexivity|].
    pose proof (popcount_pos p). lia.
  - intros ->. rewrite N.lxor_nilpotent. reflexivity.
Qed.

(** X1: [hamming_distance] is a metric on genotypes: the distance of a
    genotype to itself is 0, two genotypes at distance 0 are equal, the
    distance is symmetric and obeys the triangle inequality. *)
Theorem hamming_distance_is_metric (a b c : N) :
  Genome.hamming_distance a a = 0%nat
  /\ (Genome.hamming_distance a b = 0%nat -> a = b)
  /\ Genome.hamming_distance a b = Genome.hamming_distance b a
  /\ (Genome.hamming_distance a c
      <= Genome.hamming_distance a b + Genome.hamming_distance b c)%nat.
Proof.
  split; [|split; [|split]].
  - apply hamming_distance_eq_0. reflexivity.
  - apply hamming_distance_eq_0.
  - rewrite !hamming_distance_popcount, N.lxor_comm. reflexivity.
  - rewrite !hamming_distance_popcount.
    replace (N.lxor a c) with (N.lxor (N.lxor a b) (N.lxor b c)).
    + apply popcount_lxor_le.
    + rewrite N.lxor_assoc, <- (N.lxor_assoc b b c), N.lxor_nilpotent,
        N.lxor_0_l. reflexivity.
Qed.

Lemma hamming_distance_is_metric_witness :
  Genome.hamming_distance 5 5 = 0%nat
  /\ (Genome.hamming_distance 5 5 = 0%nat -> 5%N = 5%N)
  /\ Genome.hamming_distance 5 5 = Genome.hamming_distance 5 5
  /\ (Genome.hamming_distance 5 6
      <= Genome.hamming_distance 5 5 + Genome.hamming_distance 5 6)%nat.
Proof. exact (hamming_distance_is_metric 5 5 6). Defined.

Lemma popcount_bound (w : nat) :
  forall x : N, (x < 2 ^ N.of_nat w)%N -> (Genome.popcount x <= w)%nat.
Proof.
  induction w as [|w IH]; intros x Hx.
  - assert (x = 0%N) by (simpl in Hx; lia). subst x. vm_compute. lia.
  - destruct (low_bit_cases x) as [x' [d ->]].
    rewrite popcount_low_bit.
    assert (Hx' : (x' < 2 ^ N.of_nat w)%N).
    { rewrite Nat2N.inj_succ, N.pow_succ_r' in Hx.
      unfold Genome.with_low_bit in Hx.
      destruct d; [rewrite N.succ_double_spec in Hx
                  | rewrite N.double_spec in Hx]; lia. }
    specialize (IH x' Hx'). destruct d; lia.
Qed.

(** X2: two genotypes of [w] bits are at Hamming distance at most
    [w]. *)
Theorem hamming_distance_at_most_width (w : nat) (a b : N) :
  (a < 2 ^ N.of_nat w)%N -> (b < 2 ^ N.of_nat w)%N ->
  (Genome.hamming_distance a b <= w)%nat.
Proof.
  intros Ha Hb. rewrite hamming_distance_popcount. apply popcount_bound.
  destruct (N.eq_dec (N.lxor a b) 0) as [E|E].
  - rewrite E. apply N.neq_0_lt_0. apply N.pow_nonzero. lia.
  - assert (Hw : (0 < N.of_nat w)%N).
    { destruct w; [|lia]. simpl in Ha, Hb.
      assert (a = 0%N) by lia. assert (b = 0%N) by lia. subst.
      contradiction. }
    assert (Hlog : forall x, (x < 2 ^ N.of_nat w)%N ->
                             (N.log2 x < N.of_nat w)%N).
    { intros x Hx. destruct (N.eq_dec x 0) as [->|Ex]; [exact Hw|].
      apply N.log2_lt_pow2; [lia | exact Hx]. }
    apply N.log2_lt_pow2; [lia|].
    apply N.le_lt_trans with (N.max (N.log2 a) (N.log2 b));
      [apply N.log2_lxor|].
    apply N.max_lub_lt; apply Hlog; assumption.
Qed.

Lemma hamming_distance_at_most_width_witness :
  (Genome.hamming_distance 5 2 <= 3)%nat.
Proof.
  apply (hamming_distance_at_most_width 3 5 2); reflexivity.
Defined.

Lemma land_pow2 (g L : N) :
  N.land g (2 ^ L) = if N.testbit g L then (2 ^ L)%N else 0%N.
Proof.
  apply N.bits_inj. intros k. rewrite N.land_spec, N.pow2_bits_eqb.
  destruct (N.eqb_spec L k) as [->|Hk].
  - destruct (N.testbit g k) eqn:E; [rewrite N.pow2_bits_true|];
      [reflexivity | rewrite N.bits_0; reflexivity].
  - rewrite andb_false_r.
    destruct (N.testbit g L); [rewrite N.pow2_bits_false by exact Hk|
                               rewrite N.bits_0]; reflexivity.
Qed.

Lemma is_producer_testbit (g L : N) :
  Genome.is_producer g L = N.testbit g L.
Proof.
  unfold Genome.is_producer. rewrite land_pow2.
  destruct (N.testbit g L).
  - apply N.eqb_refl.
  - apply N.eqb_neq. pose proof (N.pow_nonzero 2 L). lia.
Qed.

Lemma of_nat_pow2 (n : nat) : N.of_nat (2 ^ n) = (2 ^ N.of_nat n)%N.
Proof.
  induction n as [|n IH]; [reflexivity|].
  rewrite (Nat2N.inj_succ n), N.pow_succ_r', Nat.pow_succ_r', Nat2N.inj_mul, IH.
  reflexivity.
Qed.

Lemma is_producer_below (g L : N) :
  (g < 2 ^ (L + 1))%N -> Genome.is_producer g L = (2 ^ L <=? g)%N.
Proof.
  rewrite is_producer_testbit.
  intros Hg. destruct (N.leb_spec (2 ^ L) g) as [Hle|Hlt].
  - apply N.testbit_true. rewrite N.pow_add_r in Hg.
    assert (H1 : (g / 2 ^ L < 2)%N)
      by (apply N.Div0.div_lt_upper_bound; simpl in Hg; lia).
    assert (H2 : (1 <= g / 2 ^ L)%N).
    { apply N.div_le_lower_bound; [apply N.pow_nonzero; lia | lia]. }
    assert (E : (g / 2 ^ L = 1)%N) by lia. rewrite E. reflexivity.
  - apply N.testbit_false. rewrite N.div_small by exact Hlt. reflexivity.
Qed.

(** X3: [is_producer] reads the social bit and nothing else: it is the
    bit of weight [2^bits] of the genotype, flipping any other bit never
    changes it, flipping the social bit always does, and among the
    genotypes below [2^(bits+1)] the producers are exactly those from
    [2^bits] on. *)
Theorem is_producer_reads_only_social_bit (g L k : N) :
  Genome.is_producer g L = N.testbit g L
  /\ (k <> L ->
      Genome.is_producer (N.lxor g (2 ^ k)) L = Genome.is_producer g L)
  /\ Genome.is_producer (N.lxor g (2 ^ L)) L = negb (Genome.is_producer g L)
  /\ ((g < 2 ^ (L + 1))%N ->
      Genome.is_producer g L = (2 ^ L <=? g)%N).
Proof.
  split; [apply is_producer_testbit|]. split; [|split].
  - intros Hk. rewrite !is_producer_testbit.
    rewrite N.lxor_spec, N.pow2_bits_false by exact Hk.
    apply xorb_false_r.
  - rewrite !is_producer_testbit.
    rewrite N.lxor_spec, N.pow2_bits_true. apply xorb_true_r.
  - apply is_producer_below.
Qed.

Lemma is_producer_reads_only_social_bit_witness :
  Genome.is_producer 6 2 = N.testbit 6 2
  /\ Genome.is_producer (N.lxor 6 (2 ^ 0)) 2 = Genome.is_producer 6 2
  /\ Genome.is_producer (N.lxor 6 (2 ^ 2)) 2 = negb (Genome.is_producer 6 2)
  /\ Genome.is_producer 6 2 = (2 ^ 2 <=? 6)%N.
Proof.
  destruct (is_producer_reads_only_social_bit 6 2 0) as [H1 [H2 [H3 H4]]].
  split; [exact H1|]. split; [apply H2; discriminate|].
  split; [exact H3|]. apply H4. reflexivity.
Defined.

(** ** Further properties of the codec *)

(** X4: on every integer sequence [bitstring_as_base10] returns the
    most-significant-first value reduced to a signed 64-bit integer, so
    leading zeros do not change it; encoding the decoded bits of any
    genotype [g] gives [g] reduced to a signed 64-bit integer, and the
    genotypes [g] and [g + 2^64] are encoded alike. *)
Theorem bitstring_as_base10_is_value_mod_2_64 (a : list Z) (k : nat) (g : N) :
  Genome.bitstring_as_base10 a = Int64.wrap (Genome.be_value a)
  /\ - 2 ^ 63 <= Genome.bitstring_as_base10 a < 2 ^ 63
  /\ Genome.bitstring_as_base10 (repeat 0 k ++ a)
     = Genome.bitstring_as_base10 a
  /\ Genome.bitstring_as_base10 (Genome.base10_as_bitarray g)
     = Int64.wrap (Z.of_N g)
  /\ Genome.bitstring_as_base10 (Genome.base10_as_bitarray (g + 2 ^ 64))
     = Genome.bitstring_as_base10 (Genome.base10_as_bitarray g).
Proof.
  rewrite !bitstring_as_base10_exact, !be_value_base10_as_bitarray,
    be_value_zeros.
  split; [reflexivity|]. split; [|split; [reflexivity|split; [reflexivity|]]].
  - unfold Int64.wrap, Int64.modulus, Int64.half_modulus.
    change (2 ^ 64) with 18446744073709551616.
    change (2 ^ 63) with 9223372036854775808.
    pose proof (Z.mod_pos_bound (Genome.be_value a + 9223372036854775808)
                  18446744073709551616 ltac:(lia)). lia.
  - rewrite N2Z.inj_add. unfold Int64.wrap. f_equal.
    change (Z.of_N (2 ^ 64)) with (1 * Int64.modulus).
    replace (Z.of_N g + 1 * Int64.modulus + Int64.half_modulus)
      with (Z.of_N g + Int64.half_modulus + 1 * Int64.modulus) by ring.
    apply Z.mod_add. unfold Int64.modulus. lia.
Qed.

Lemma bits_length_iff (g : N) (n : nat) :
  (length (Genome.base10_as_bitarray g) <= S n)%nat
  <-> Z.of_N g < 2 ^ Z.of_nat (S n).
Proof.
  split; [|apply bits_length].
  intros Hlen. rewrite <- (be_value_base10_as_bitarray g).
  pose proof (be_value_bound _ (bits_binary g)) as [_ Hb].
  apply Z.lt_le_trans with (1 := Hb).
  apply Z.pow_le_mono_r; lia.
Qed.

(** X5: [base10_as_bitarray] is injective, never returns an empty
    sequence, returns binary digits only, and returns at most [n + 1]
    digits exactly for the genotypes below [2^(n+1)]. *)
Theorem base10_as_bitarray_injective_and_sized (a b : N) (n : nat) :
  (Genome.base10_as_bitarray a = Genome.base10_as_bitarray b -> a = b)
  /\ (1 <= length (Genome.base10_as_bitarray a))%nat
  /\ Genome.binary (Genome.base10_as_bitarray a)
  /\ ((length (Genome.base10_as_bitarray a) <= S n)%nat
      <-> (a < 2 ^ N.of_nat (S n))%N).
Proof.
  split; [|split; [|split]].
  - intros E. apply N2Z.inj.
    rewrite <- (be_value_base10_as_bitarray a),
      <- (be_value_base10_as_bitarray b), E. reflexivity.
  - destruct a as [|p]; [simpl; lia|].
    rewrite base10_as_bitarray_pos.
    destruct (pos_bits_leading p) as [rest [-> _]]. simpl. lia.
  - apply bits_binary.
  - rewrite bits_length_iff.
    replace (2 ^ Z.of_nat (S n)) with (Z.of_N (2 ^ N.of_nat (S n)))
      by (rewrite N2Z.inj_pow, nat_N_Z; reflexivity).
    symmetry. apply N2Z.inj_lt.
Qed.

Lemma base10_as_bitarray_injective_and_sized_witness :
  (1 <= length (Genome.base10_as_bitarray 6))%nat
  /\ (length (Genome.base10_as_bitarray 6) <= 3)%nat.
Proof.
  destruct (base10_as_bitarray_injective_and_sized 6 6 2) as [_ [H [_ H3]]].
  split; [exact H|]. apply H3. reflexivity.
Defined.

(** ** Further properties of the mutation matrix *)

Lemma nth_map_seq {A} (f : nat -> A) (n j : nat) (d : A) :
  (j < n)%nat -> nth j (map f (seq 0 n)) d = f j.
Proof.
  intros Hj. rewrite (nth_indep _ d (f 0%nat))
    by (rewrite length_map, length_seq; exact Hj).
  rewrite map_nth, seq_nth by exact Hj. reflexivity.
Qed.

(** Entry [i][j] of the matrix returned for a non-negative genome
    length. *)
Lemma mutation_matrix_entry (cfg : Config) (i j : nat) :
  0 <= genome_length cfg ->
  (i < 2 ^ S (Z.to_nat (genome_length cfg)))%nat ->
  (j < 2 ^ S (Z.to_nat (genome_length cfg)))%nat ->
  exists mr,
    Mutation.get_mutation_probabilities cfg = OK mr
    /\ nth j (nth i mr []) 0%Q
       = Mutation.probability (Z.to_nat (genome_length cfg))
           (mutation_rate_social cfg) (mutation_rate_adaptation cfg) i j.
Proof.
  intros HL Hi Hj.
  rewrite (mutation_matrix_table cfg (Z.to_nat (genome_length cfg)))
    by lia.
  eexists. split; [reflexivity|].
  rewrite nth_table by exact Hi. apply nth_map_seq. exact Hj.
Qed.

Lemma social_differs_sym (L i j : nat) :
  Mutation.social_differs L i j = Mutation.social_differs L j i.
Proof. unfold Mutation.social_differs. rewrite xorb_comm. reflexivity. Qed.

Lemma probability_sym (L : nat) (m_s m_a : Q) (i j : nat) :
  Mutation.probability L m_s m_a i j = Mutation.probability L m_s m_a j i.
Proof.
  unfold Mutation.probability.
  rewrite (social_differs_sym L i j).
  unfold Genome.hamming_distance. rewrite N.lxor_comm. reflexivity.
Qed.

(** X6: the mutation matrix is symmetric: mutating from genotype [i] to
    [j] is as probable as from [j] to [i]. *)
Theorem mutation_matrix_symmetric (cfg : Config) (i j : nat) :
  0 <= genome_length cfg ->
  (i < 2 ^ S (Z.to_nat (genome_length cfg)))%nat ->
  (j < 2 ^ S (Z.to_nat (genome_length cfg)))%nat ->
  exists mr,
    Mutation.get_mutation_probabilities cfg = OK mr
    /\ nth j (nth i mr []) 0%Q = nth i (nth j mr []) 0%Q.
Proof.
  intros HL Hi Hj.
  destruct (mutation_matrix_entry cfg i j HL Hi Hj) as [mr [E Eij]].
  destruct (mutation_matrix_entry cfg j i HL Hj Hi) as [mr' [E' Eji]].
  rewrite E in E'. injection E' as <-.
  exists mr. split; [exact E|].
  rewrite Eij, Eji. apply probability_sym.
Qed.

Lemma mutation_matrix_symmetric_witness :
  exists mr,
    Mutation.get_mutation_probabilities Reference.example_config = OK mr
    /\ nth 3 (nth 1 mr []) 0%Q = nth 1 (nth 3 mr []) 0%Q.
Proof.
  apply (mutation_matrix_symmetric Reference.example_config 1 3);
    [simpl; lia | simpl; lia | simpl; lia].
Defined.

(** X7: every column of the mutation matrix sums to 1 as well: the
    matrix is doubly stochastic. *)
Theorem mutation_columns_sum_to_one (cfg : Config) (j : nat) :
  0 <= genome_length cfg ->
  (j < 2 ^ S (Z.to_nat (genome_length cfg)))%nat ->
  exists mr,
    Mutation.get_mutation_probabilities cfg = OK mr
    /\ (Array.sumQ (map (fun row => nth j row 0%Q) mr) == 1)%Q.
Proof.
  intros HL Hj.
  set (L := Z.to_nat (genome_length cfg)) in *.
  rewrite (mutation_matrix_table cfg L) by (unfold L; lia).
  eexists. split; [reflexivity|].
  rewrite map_map.
  rewrite (sumQ_map_ext _
             (Mutation.probability L (mutation_rate_social cfg)
                (mutation_rate_adaptation cfg) j)).
  - apply row_sum. exact Hj.
  - intros i Hi. rewrite nth_map_seq by exact Hj.
    rewrite probability_sym. reflexivity.
Qed.

Lemma mutation_columns_sum_to_one_witness :
  exists mr,
    Mutation.get_mutation_probabilities Reference.example_config = OK mr
    /\ (Array.sumQ (map (fun row => nth 2 row 0%Q) mr) == 1)%Q.
Proof.
  apply (mutation_columns_sum_to_one Reference.example_config 2);
    [simpl; lia | simpl; lia].
Defined.

Lemma unit_power (q : Q) (z : Z) :
  (0 <= q <= 1)%Q -> 0 <= z -> (0 <= q ^ z <= 1)%Q.
Proof.
  intros [H0 H1] Hz. split; [apply Qpower_0_le; exact H0|].
  revert z Hz. apply natlike_ind.
  - simpl. apply Qle_refl.
  - intros z Hz IH. unfold Z.succ. rewrite Qpower_succ_nonneg by exact Hz.
    apply Qle_trans with (1 * 1)%Q;
      [|rewrite Qmult_1_l; apply Qle_refl].
    apply Qmult_le_compat_nonneg; split;
      [apply Qpower_0_le | | |]; assumption.
Qed.

Lemma unit_mult (a b : Q) :
  (0 <= a <= 1)%Q -> (0 <= b <= 1)%Q -> (0 <= a * b <= 1)%Q.
Proof.
  intros [A0 A1] [B0 B1]. split.
  - apply Qmult_le_0_compat; assumption.
  - apply Qle_trans with (1 * 1)%Q;
      [|rewrite Qmult_1_l; apply Qle_refl].
    apply Qmult_le_compat_nonneg; split; assumption.
Qed.

Lemma unit_complement (q : Q) : (0 <= q <= 1)%Q -> (0 <= 1 - q <= 1)%Q.
Proof.
  intros [H0 H1]. split.
  - apply Qle_trans with (1 - 1)%Q; [discriminate|].
    apply Qplus_le_compat; [apply Qle_refl | apply Qopp_le_compat; exact H1].
  - apply Qle_trans with (1 - 0)%Q; [|discriminate].
    apply Qplus_le_compat; [apply Qle_refl | apply Qopp_le_compat; exact H0].
Qed.

(** X8: for mutation rates in [0,1] every entry of the mutation matrix
    is a probability, that is, lies between 0 and 1. *)
Theorem mutation_entries_are_probabilities (cfg : Config) (i j : nat) :
  0 <= genome_length cfg ->
  (0 <= mutation_rate_social cfg <= 1)%Q ->
  (0 <= mutation_rate_adaptation cfg <= 1)%Q ->
  (i < 2 ^ S (Z.to_nat (genome_length cfg)))%nat ->
  (j < 2 ^ S (Z.to_nat (genome_length cfg)))%nat ->
  exists mr,
    Mutation.get_mutation_probabilities cfg = OK mr
    /\ (0 <= nth j (nth i mr []) 0 <= 1)%Q.
Proof.
  intros HL Hs Ha Hi Hj.
  destruct (mutation_matrix_entry cfg i j HL Hi Hj) as [mr [E Eij]].
  exists mr. split; [exact E|]. rewrite Eij.
  pose proof (adaptation_distance_bound _ i j Hi Hj) as Hb.
  unfold Mutation.probability, Mutation.transition.
  set (s := Mutation.social_differs (Z.to_nat (genome_length cfg)) i j) in *.
  assert (Hs01 : s = 0 \/ s = 1).
  { unfold s, Mutation.social_differs. destruct (xorb _ _); auto. }
  repeat apply unit_mult.
  - apply unit_power; [apply unit_complement; exact Ha | lia].
  - apply unit_power; [exact Ha | lia].
  - apply unit_power; [apply unit_complement; exact Hs|].
    destruct (s =? 0); lia.
  - apply unit_power; [exact Hs | lia].
Qed.

Lemma mutation_entries_are_probabilities_witness :
  exists mr,
    Mutation.get_mutation_probabilities Reference.example_config = OK mr
    /\ (0 <= nth 3 (nth 1 mr []) 0 <= 1)%Q.
Proof.
  apply (mutation_entries_are_probabilities Reference.example_config 1 3);
    try (simpl; lia); split; unfold Qle; simpl; lia.
Defined.

(** X9: with both mutation rates zero the mutation matrix is the
    identity: every genotype stays what it is with probability 1. *)
Theorem no_mutation_gives_identity_matrix (cfg : Config) (i j : nat) :
  0 <= genome_length cfg ->
  (mutation_rate_social cfg == 0)%Q ->
  (mutation_rate_adaptation cfg == 0)%Q ->
  (i < 2 ^ S (Z.to_nat (genome_length cfg)))%nat ->
  (j < 2 ^ S (Z.to_nat (genome_length cfg)))%nat ->
  exists mr,
    Mutation.get_mutation_probabilities cfg = OK mr
    /\ (nth j (nth i mr []) 0 == if (i =? j)%nat then 1 else 0)%Q.
Proof.
  intros HL Hs Ha Hi Hj.
  destruct (mutation_matrix_entry cfg i j HL Hi Hj) as [mr [E Eij]].
  exists mr. split; [exact E|]. rewrite Eij.
  pose proof (adaptation_distance_bound _ i j Hi Hj) as Hb.
  unfold Mutation.probability, Mutation.transition in *.
  rewrite Hs, Ha.
  set (hd := Genome.hamming_distance (N.of_nat j) (N.of_nat i)) in *.
  set (s := Mutation.social_differs (Z.to_nat (genome_length cfg)) i j) in *.
  assert (Hs01 : s = 0 \/ s = 1).
  { unfold s, Mutation.social_differs. destruct (xorb _ _); auto. }
  change (1 - 0)%Q with 1%Q. rewrite !Qpower_1.
  destruct (Nat.eqb_spec i j) as [->|Hij].
  - assert (Hhd : hd = 0%nat) by (apply hamming_distance_eq_0; reflexivity).
    assert (Hs0 : s = 0).
    { unfold s, Mutation.social_differs. rewrite xorb_nilpotent.
      reflexivity. }
    rewrite Hhd, Hs0. simpl. ring.
  - assert (Hhd : hd <> 0%nat).
    { intros H0. apply hamming_distance_eq_0 in H0.
      apply Nat2N.inj in H0. congruence. }
    destruct Hs01 as [Hs0|Hs1].
    + rewrite Hs0 in *. rewrite (Qpower_0 (Z.of_nat hd - 0)) by lia. ring.
    + rewrite Hs1. rewrite (Qpower_0 1) by lia. ring.
Qed.

Lemma no_mutation_gives_identity_matrix_witness :
  exists mr,
    Mutation.get_mutation_probabilities Extra.clonal_config = OK mr
    /\ (nth 1 (nth 1 mr []) 0 == 1)%Q.
Proof.
  apply (no_mutation_gives_identity_matrix Extra.clonal_config 1 1);
    try (simpl; lia); reflexivity.
Defined.

Lemma is_producer_half (L i : nat) :
  (i < 2 ^ S L)%nat ->
  Genome.is_producer (N.of_nat i) (N.of_nat L) = negb (i <? 2 ^ L)%nat.
Proof.
  intros Hi. rewrite is_producer_testbit.
  assert (Hp : N.to_nat (2 ^ N.of_nat L) = (2 ^ L)%nat)
    by (rewrite <- of_nat_pow2; apply Nat2N.id).
  destruct (Nat.ltb_spec i (2 ^ L)) as [Hlt|Hge]; cbn [negb].
  - apply N.testbit_false. rewrite N.div_small by lia. reflexivity.
  - apply N.testbit_true.
    assert (H1 : (N.of_nat i / 2 ^ N.of_nat L < 2)%N).
    { apply N.Div0.div_lt_upper_bound. rewrite Nat.pow_succ_r' in Hi. lia. }
    assert (H2 : (1 <= N.of_nat i / 2 ^ N.of_nat L)%N).
    { apply N.div_le_lower_bound; [apply N.pow_nonzero; lia | lia]. }
    assert (E : (N.of_nat i / 2 ^ N.of_nat L = 1)%N) by lia.
    rewrite E. reflexivity.
Qed.

(** X10: the social-locus indicator [S] that [get_mutation_probabilities]
    builds by stacking blocks agrees with [is_producer]: its entry
    [i][j] is 1 exactly when one of the genotypes [i] and [j] is a
    producer and the other is not. *)
Theorem social_indicator_agrees_with_is_producer (L i j : nat) :
  (i < 2 ^ S L)%nat -> (j < 2 ^ S L)%nat ->
  nth j (nth i (Mutation.social_indicator (2 ^ L)) []) 0
  = if xorb (Genome.is_producer (N.of_nat i) (N.of_nat L))
            (Genome.is_producer (N.of_nat j) (N.of_nat L))
    then 1 else 0.
Proof.
  intros Hi Hj. rewrite social_indicator_table, nth_table by exact Hi.
  rewrite nth_map_seq by exact Hj.
  rewrite !is_producer_half by assumption.
  unfold Mutation.social_differs.
  destruct (i <? 2 ^ L)%nat, (j <? 2 ^ L)%nat; reflexivity.
Qed.

Lemma social_indicator_agrees_with_is_producer_witness :
  nth 3 (nth 1 (Mutation.social_indicator (2 ^ 1)) []) 0
  = if xorb (Genome.is_producer 1 1) (Genome.is_producer 3 1) then 1 else 0.
Proof.
  apply (social_indicator_agrees_with_is_producer 1 1 3); simpl; lia.
Defined.

(** ** Further properties of the fitness landscape *)

Lemma padded_bits_head (n : nat) (i : N) :
  Z.of_N i < 2 ^ Z.of_nat (S n) ->
  exists t,
    length t = n /\ Genome.binary t
    /\ Genome.padded_bits (S n) i
       = (if Genome.is_producer i (N.of_nat n) then 1 else 0) :: t.
Proof.
  intros Hi.
  assert (Hp : Z.of_N (2 ^ N.of_nat n) = 2 ^ Z.of_nat n).
  { rewrite N2Z.inj_pow, nat_N_Z. reflexivity. }
  assert (H2 : 2 ^ Z.of_nat (S n) = 2 * 2 ^ Z.of_nat n).
  { rewrite Nat2Z.inj_succ, Z.pow_succ_r by lia. reflexivity. }
  assert (Hb : (i < 2 ^ (N.of_nat n + 1))%N).
  { rewrite N.pow_add_r. change (2 ^ 1)%N with 2%N. lia. }
  destruct (padded_bits_spec n i Hi) as [_ [Hbin _]].
  rewrite (is_producer_below _ _ Hb).
  destruct (N.leb_spec (2 ^ N.of_nat n) i) as [Hle|Hlt].
  - destruct (padded_bits_social n (i - 2 ^ N.of_nat n)) as [t [Ht [_ E1]]];
      [lia|].
    replace (i - 2 ^ N.of_nat n + 2 ^ N.of_nat n)%N with i in E1 by lia.
    exists t. rewrite E1 in Hbin. inversion Hbin; subst. auto.
  - destruct (padded_bits_social n i) as [t [Ht [E0 _]]]; [lia|].
    exists t. rewrite E0 in Hbin. inversion Hbin; subst. auto.
Qed.

Lemma entry_Q_formula (n : nat) (e_s : Q) (draws : list Q) (base cost : Q)
  (i : N) :
  Z.of_N i < 2 ^ Z.of_nat (S n) ->
  (entry_Q (S n) (e_s :: draws) base cost i
   == base + cost + (if Genome.is_producer i (N.of_nat n) then e_s else 0)
      + adaptive_effect n draws i)%Q.
Proof.
  intros Hi. destruct (padded_bits_head n i Hi) as [t [_ [_ E]]].
  unfold entry_Q, adaptive_effect, adaptive_bits, py_sum. rewrite E.
  cbn [map Array.map2 tl].
  rewrite !fold_left_Qplus. unfold Array.sumQ. cbn [fold_right].
  change (num_of_int 0) with 0%Q.
  destruct (Genome.is_producer i (N.of_nat n)).
  - change (inject_Z 1) with 1%Q. ring.
  - change (inject_Z 0) with 0%Q. ring.
Qed.

Lemma landscape_table_entries (n : nat) (base cost : Q) (draws : list Q) :
  length draws = n ->
  exists landscape,
    landscape_table (Z.of_nat n) base cost draws = OK landscape
    /\ forall i : nat,
         (i < 2 ^ S n)%nat ->
         (nth i landscape 0
          == base
             + (if Genome.is_producer (N.of_nat i) (N.of_nat n)
                then 0 else cost)
             + adaptive_effect n draws (N.of_nat i))%Q.
Proof.
  intros Hlen. unfold landscape_table.
  set (effects := (num_mul (num_of_int (-1)) cost :: draws)).
  assert (HS : Z.of_nat n + 1 = Z.of_nat (S n)) by lia.
  rewrite HS.
  destruct (fill_landscape_spec effects base cost
              (entry_Q (S n) effects base cost) 0%Q
              (Array.range (2 ^ Z.of_nat (S n)))
              (Array.zeros (num_of_int 0) (Z.to_nat (2 ^ Z.of_nat (S n)))))
    as [landscape [E [Hl [Hin _]]]].
  - apply range_NoDup.
  - intros i Hi. apply range_In in Hi. split.
    + unfold Array.zeros. rewrite repeat_length. exact Hi.
    + apply landscape_entry_Q; [simpl; congruence | lia].
  - exists landscape. split; [exact E|]. intros i Hi.
    rewrite <- to_nat_pow2 in Hi.
    assert (E1 : nth i landscape 0%Q
                 = entry_Q (S n) effects base cost (N.of_nat i)).
    { rewrite <- (Nat2N.id i) at 1. apply Hin. apply range_In.
      rewrite Nat2N.id. exact Hi. }
    rewrite E1. unfold effects.
    assert (Hz : Z.of_N (N.of_nat i) < 2 ^ Z.of_nat (S n)).
    { assert (0 < 2 ^ Z.of_nat (S n)) by (apply Z.pow_pos_nonneg; lia).
      lia. }
    rewrite (entry_Q_formula n _ draws base cost _ Hz).
    change (num_mul (num_of_int (-1)) cost) with (inject_Z (-1) * cost)%Q.
    change (inject_Z (-1)) with (-1 # 1)%Q.
    destruct (Genome.is_producer (N.of_nat i) (N.of_nat n)); ring.
Qed.

Lemma adaptive_effect_nonneg (n : nat) (draws : list Q) (i : N) :
  Z.of_N i < 2 ^ Z.of_nat (S n) ->
  Forall (Qle 0) draws ->
  (0 <= adaptive_effect n draws i)%Q.
Proof.
  intros Hi Hd. destruct (padded_bits_head n i Hi) as [t [_ [Hbin E]]].
  unfold adaptive_effect, adaptive_bits. rewrite E. cbn [tl].
  clear E Hi. revert draws Hd.
  induction Hbin as [|b t Hb _ IH]; intros draws Hd.
  - simpl. apply Qle_refl.
  - destruct draws as [|d draws]; [simpl; apply Qle_refl|].
    inversion Hd as [|? ? Hd0 Hd']; subst.
    cbn [map Array.map2 Array.sumQ fold_right].
    specialize (IH draws Hd').
    change (0 <= inject_Z b * d + Array.sumQ
              (Array.map2 Qmult (map inject_Z t) draws))%Q.
    assert (Hbd : (0 <= inject_Z b * d)%Q).
    { destruct Hb as [->| ->].
      - change (inject_Z 0) with 0%Q. rewrite Qmult_0_l. apply Qle_refl.
      - change (inject_Z 1) with 1%Q. rewrite Qmult_1_l. exact Hd0. }
    apply Qle_trans with (0 + 0)%Q; [discriminate|].
    apply Qplus_le_compat; assumption.
Qed.

Lemma adaptive_effect_none (n : nat) (draws : list Q) (i : N) :
  i = 0%N \/ i = (2 ^ N.of_nat n)%N ->
  (adaptive_effect n draws i == 0)%Q.
Proof.
  intros Hi.
  assert (H0 : 0 < 2 ^ Z.of_nat n) by (apply Z.pow_pos_nonneg; lia).
  destruct (padded_bits_social n 0) as [t [Ht [E0 E1]]]; [exact H0|].
  assert (Et : t = repeat 0 n).
  { unfold Genome.padded_bits in E0. simpl in E0.
    replace (n - 0)%nat with n in E0 by lia.
    assert (E : repeat 0 (S n) = 0 :: t).
    { rewrite <- E0. replace (S n) with (n + 1)%nat by lia.
      rewrite repeat_app. reflexivity. }
    simpl in E. congruence. }
  assert (Eb : adaptive_bits n i = repeat 0 n).
  { unfold adaptive_bits. destruct Hi as [->| ->].
    - rewrite E0. simpl. exact Et.
    - change (2 ^ N.of_nat n)%N with (0 + 2 ^ N.of_nat n)%N.
      rewrite E1. simpl. exact Et. }
  unfold adaptive_effect. rewrite Eb. clear.
  revert draws. induction n as [|n IH]; intros draws; [reflexivity|].
  destruct draws as [|d draws]; [reflexivity|].
  cbn [repeat map Array.map2 Array.sumQ fold_right].
  change (inject_Z 0 * d + Array.sumQ
            (Array.map2 Qmult (map inject_Z (repeat 0%Z n)) draws) == 0)%Q.
  rewrite IH. change (inject_Z 0) with 0%Q. ring.
Qed.

Section LandscapeExtras.

Context {ext : Externals} {ok : ExternalsOk ext}.

Lemma build_fitness_landscape_asserts (w : Machine) :
  genome_length (config (self w)) < 0
  \/ Qle_bool 0 (base_fitness (config (self w))) = false ->
  build_fitness_landscape w = Raise AssertionError.
Proof.
  intros H.
  unfold build_fitness_landscape, bind, get_self, assert, ret, raise.
  destruct (Z.leb_spec 0 (genome_length (config (self w)))) as [HL|HL];
    [|reflexivity].
  destruct H as [H|H]; [lia|]. rewrite H. reflexivity.
Qed.

(** X11: [build_fitness_landscape] raises [AssertionError] exactly when
    the genome length or the base fitness is negative, and the
    [ValueError] of numpy's exponential sampler exactly when both
    assertions pass, the effects are exponential and
    [fitness_avg_effect] is negative; it raises nothing else. When it
    returns it has left the object alone and consumed exactly the one
    draw of the per-locus effects from the generator. *)
Theorem build_fitness_landscape_raises_iff (w : Machine) :
  let cfg := config (self w) in
  (build_fitness_landscape w = Raise AssertionError
   <-> (genome_length cfg < 0 \/ ~ (0 <= base_fitness cfg)%Q))
  /\ (build_fitness_landscape w = Raise ValueError
      <-> (0 <= genome_length cfg /\ (0 <= base_fitness cfg)%Q
           /\ fitness_exponential cfg = true
           /\ ~ (0 <= fitness_avg_effect cfg)%Q))
  /\ (forall e,
        build_fitness_landscape w = Raise e ->
        e = AssertionError \/ e = ValueError)
  /\ (forall landscape w',
        build_fitness_landscape w = OK (landscape, w') ->
        self w' = self w /\ history w' = history w
        /\ random_state w'
           = snd (effects_sampler cfg (random_state w))).
Proof.
  intros cfg.
  pose proof (effects_scale_ok_spec cfg) as Hspec.
  destruct (Z.leb_spec 0 (genome_length cfg)) as [HL|HL].
  2:{ rewrite (build_fitness_landscape_asserts w (or_introl HL)).
      split; [|split; [|split]].
      - split; [intros _; left; exact HL | reflexivity].
      - split; [discriminate | intros [H _]; lia].
      - intros e He. left. congruence.
      - discriminate. }
  destruct (Qle_bool 0 (base_fitness cfg)) eqn:Hb.
  2:{ assert (Hnb : ~ (0 <= base_fitness cfg)%Q).
      { intros H. apply Qle_bool_iff in H. congruence. }
      rewrite (build_fitness_landscape_asserts w (or_intror Hb)).
      split; [|split; [|split]].
      - split; [intros _; right; exact Hnb | reflexivity].
      - split; [discriminate | intros [_ [H _]]; contradiction].
      - intros e He. left. congruence.
      - discriminate. }
  apply Qle_bool_iff in Hb.
  destruct (effects_scale_ok cfg) eqn:Hs.
  - destruct (build_fitness_landscape_runs w HL Hb Hs) as [l [E _]].
    rewrite E. split; [|split; [|split]].
    + split; [discriminate|]. intros [H|H]; [lia | contradiction].
    + split; [discriminate|]. intros [_ [_ [He Ha]]].
      exfalso. apply Ha. apply Hspec; [reflexivity | exact He].
    + discriminate.
    + intros l' w' Heq. inversion Heq; subst. auto.
  - rewrite (build_fitness_landscape_refuses_scale w HL Hb Hs).
    split; [|split; [|split]].
    + split; [discriminate|]. intros [H|H]; [lia | contradiction].
    + split; [|reflexivity]. intros _.
      unfold effects_scale_ok in Hs.
      destruct (fitness_exponential cfg); cbn [negb orb] in Hs;
        [|discriminate].
      refine (conj HL (conj Hb (conj eq_refl _))).
      intros H. apply Qle_bool_iff in H. congruence.
    + intros e He. right. congruence.
    + discriminate.
Qed.

(** X12: every entry of the table [build_fitness_landscape] returns is,
    in exact arithmetic, [base_fitness], plus [production_cost] if the
    genotype is not a producer, plus the drawn effects of the adaptive
    loci the genotype carries; so the all-zero genotype has fitness
    [base_fitness + production_cost] and the bare producer [2^L] has
    fitness [base_fitness]. *)
Theorem landscape_entry_decomposition (w : Machine) (i : nat) :
  0 <= genome_length (config (self w)) ->
  (0 <= base_fitness (config (self w)))%Q ->
  (fitness_exponential (config (self w)) = true ->
   (0 <= fitness_avg_effect (config (self w)))%Q) ->
  (i < 2 ^ S (Z.to_nat (genome_length (config (self w)))))%nat ->
  let cfg := config (self w) in
  let L := Z.to_nat (genome_length cfg) in
  let draws := fst (effects_sampler cfg (random_state w)) in
  exists landscape w',
    build_fitness_landscape w = OK (landscape, w')
    /\ (nth i landscape 0
        == base_fitness cfg
           + (if Genome.is_producer (N.of_nat i) (N.of_nat L)
              then 0 else production_cost cfg)
           + adaptive_effect L draws (N.of_nat i))%Q
    /\ (nth 0 landscape 0 == base_fitness cfg + production_cost cfg)%Q
    /\ (nth (2 ^ L) landscape 0 == base_fitness cfg)%Q.
Proof.
  intros HL Hbase Hscale Hi cfg L draws.
  apply effects_scale_ok_spec in Hscale.
  destruct (build_fitness_landscape_runs w HL Hbase Hscale) as [l [E Et]].
  exists l, (mkMachine (self w)
               (snd (effects_sampler (config (self w)) (random_state w)))
               (history w)).
  split; [exact E|].
  destruct (landscape_table_entries L (base_fitness cfg)
              (production_cost cfg) draws) as [l' [Et' Hent]].
  { apply effects_sampler_size. }
  unfold L in Et'. rewrite Z2Nat.id in Et' by exact HL.
  fold cfg in Et. fold draws in Et. rewrite Et in Et'.
  inversion Et'; subst l'. clear Et'.
  assert (Hpow : (0 < 2 ^ L)%nat)
    by (apply Nat.neq_0_lt_0, Nat.pow_nonzero; lia).
  assert (HnzN : (2 ^ N.of_nat L <> 0)%N) by (apply N.pow_nonzero; lia).
  pose proof (of_nat_pow2 L) as HpowN.
  split; [apply Hent; exact Hi|]. split.
  - rewrite (Hent 0%nat) by (rewrite Nat.pow_succ_r'; lia).
    rewrite adaptive_effect_none by (left; reflexivity).
    rewrite is_producer_below
      by (rewrite N.pow_add_r; change (2 ^ 1)%N with 2%N; simpl; lia).
    destruct (N.leb_spec (2 ^ N.of_nat L) (N.of_nat 0)) as [H|H].
    + simpl in H. lia.
    + ring.
  - rewrite (Hent (2 ^ L)%nat) by (rewrite Nat.pow_succ_r'; lia).
    rewrite HpowN.
    rewrite adaptive_effect_none by (right; reflexivity).
    rewrite is_producer_below.
    + rewrite N.leb_refl. ring.
    + rewrite N.pow_add_r. change (2 ^ 1)%N with 2%N. lia.
Qed.

(** X13: in exact arithmetic, when the drawn effects and the production
    cost are not negative, no genotype's entry of the landscape is below
    [base_fitness], and no non-producer's entry is below
    [base_fitness + production_cost]. (In binary64 a producer's entry
    can round below [base_fitness]; see
    [landscape_rounds_below_base_in_binary64].) *)
Theorem landscape_bounded_below_by_base_fitness (w : Machine) (i : nat) :
  0 <= genome_length (config (self w)) ->
  (0 <= base_fitness (config (self w)))%Q ->
  (fitness_exponential (config (self w)) = true ->
   (0 <= fitness_avg_effect (config (self w)))%Q) ->
  (0 <= production_cost (config (self w)))%Q ->
  Forall (Qle 0) (fst (effects_sampler (config (self w)) (random_state w))) ->
  (i < 2 ^ S (Z.to_nat (genome_length (config (self w)))))%nat ->
  exists landscape w',
    build_fitness_landscape w = OK (landscape, w')
    /\ (base_fitness (config (self w)) <= nth i landscape 0)%Q
    /\ (Genome.is_producer (N.of_nat i)
          (Z.to_N (genome_length (config (self w)))) = false ->
        (base_fitness (config (self w)) + production_cost (config (self w))
         <= nth i landscape 0)%Q).
Proof.
  intros HL Hbase Hscale Hcost Hdraws Hi.
  apply effects_scale_ok_spec in Hscale.
  destruct (build_fitness_landscape_runs w HL Hbase Hscale) as [l [E Et]].
  exists l, (mkMachine (self w)
               (snd (effects_sampler (config (self w)) (random_state w)))
               (history w)).
  split; [exact E|].
  set (cfg := config (self w)) in *.
  set (L := Z.to_nat (genome_length cfg)) in *.
  destruct (landscape_table_entries L (base_fitness cfg)
              (production_cost cfg)
              (fst (effects_sampler cfg (random_state w))))
    as [l' [Et' Hent]].
  { apply effects_sampler_size. }
  unfold L in Et'. rewrite Z2Nat.id in Et' by exact HL.
  rewrite Et in Et'. inversion Et'; subst l'. clear Et'.
  assert (Hz : Z.of_N (N.of_nat i) < 2 ^ Z.of_nat (S L)).
  { rewrite <- to_nat_pow2 in Hi.
    assert (0 < 2 ^ Z.of_nat (S L)) by (apply Z.pow_pos_nonneg; lia).
    lia. }
  pose proof (adaptive_effect_nonneg L _ _ Hz Hdraws) as Hnn.
  replace (Z.to_N (genome_length cfg)) with (N.of_nat L)
    by (unfold L; lia).
  rewrite (Hent i Hi).
  set (a := adaptive_effect L _ _) in *.
  destruct (Genome.is_producer (N.of_nat i) (N.of_nat L)).
  - split; [|discriminate].
    apply Qle_trans with (base_fitness cfg + 0 + 0)%Q.
    + rewrite !Qplus_0_r. apply Qle_refl.
    + apply Qplus_le_compat; [apply Qle_refl | exact Hnn].
  - split.
    + apply Qle_trans with (base_fitness cfg + 0 + 0)%Q.
      * rewrite !Qplus_0_r. apply Qle_refl.
      * apply Qplus_le_compat; [|exact Hnn].
        apply Qplus_le_compat; [apply Qle_refl | exact Hcost].
    + intros _.
      apply Qle_trans with (base_fitness cfg + production_cost cfg + 0)%Q.
      * rewrite Qplus_0_r. apply Qle_refl.
      * apply Qplus_le_compat; [apply Qle_refl | exact Hnn].
Qed.

End LandscapeExtras.

Lemma landscape_entry_decomposition_witness :
  exists landscape w',
    build_fitness_landscape
      (fresh Reference.example_config (Reference.ring 3) Reference.seed)
    = OK (landscape, w')
    /\ (nth 0 landscape 0 == 13 # 10)%Q
    /\ (nth 2 landscape 0 == 1)%Q.
Proof.
  destruct (@landscape_entry_decomposition Reference.externals reference_ok
              (fresh Reference.example_config (Reference.ring 3)
                 Reference.seed) 1)
    as [l [w' [E [_ [H0 H1]]]]].
  - simpl. lia.
  - simpl. unfold Qle. simpl. lia.
  - simpl. discriminate.
  - simpl. lia.
  - exists l, w'. split; [exact E|]. split; [exact H0 | exact H1].
Defined.

Lemma landscape_bounded_below_by_base_fitness_witness :
  exists landscape w',
    build_fitness_landscape
      (fresh Reference.example_config (Reference.ring 3) Reference.seed)
    = OK (landscape, w')
    /\ (1 <= nth 3 landscape 0)%Q.
Proof.
  destruct (@landscape_bounded_below_by_base_fitness Reference.externals
              reference_ok
              (fresh Reference.example_config (Reference.ring 3)
                 Reference.seed) 3)
    as [l [w' [E [H _]]]].
  - simpl. lia.
  - simpl. unfold Qle. simpl. lia.
  - simpl. discriminate.
  - simpl. unfold Qle. simpl. lia.
  - simpl. repeat constructor. unfold Qle. simpl. lia.
  - simpl. lia.
  - exists l, w'. split; [exact E | exact H].
Defined.

Lemma build_fitness_landscape_raises_iff_witness :
  build_fitness_landscape
    (fresh Extra.negative_length_config (Reference.ring 3) Reference.seed)
  = Raise AssertionError
  /\ build_fitness_landscape
       (fresh Extra.negative_scale_config (Reference.ring 3) Reference.seed)
     = Raise ValueError.
Proof.
  split.
  - apply (proj2 (proj1 (@build_fitness_landscape_raises_iff
                           Reference.externals reference_ok
                           (fresh Extra.negative_length_config
                              (Reference.ring 3) Reference.seed)))).
    left. simpl. lia.
  - apply (proj2 (proj1 (proj2 (@build_fitness_landscape_raises_iff
                                  Reference.externals reference_ok
                                  (fresh Extra.negative_scale_config
                                     (Reference.ring 3) Reference.seed))))).
    simpl. split; [lia|]. split; [discriminate|]. split; [reflexivity|].
    intros H. vm_compute in H. apply H. reflexivity.
Defined.

Set Warnings "-inexact-float".

(** In binary64 the bound of X13 can fail by rounding: for genome length
    0, base fitness 1.0 and production cost 1e-16 the sum
    [base_fitness + production_cost] rounds to 1.0, and the producer's
    entry [-1e-16 + 1.0] rounds to the float just below 1.0. *)
Lemma landscape_rounds_below_base_in_binary64 :
  landscape_table (A := PrimFloat.float) 0 1%float 1e-16%float []
    = OK [1%float; 0.99999999999999989%float]
  /\ PrimFloat.ltb 0.99999999999999989%float 1%float = true.
Proof.
  split; vm_compute; reflexivity.
Qed.

Set Warnings "+inexact-float".

(** ** Further properties of the constructor *)

Section SeedingFacts.

Context {ext : Externals}.

Lemma set_abundance_OK (w : Machine) (n g : nat) (v : Z) (p : Population) :
  nth_error (populations (self w)) n = Some p ->
  (g < length (abundances p))%nat ->
  set_abundance n g v w
  = OK (tt, mkMachine
              (set_populations (self w)
                 (replace_nth (populations (self w)) n
                    (mkPopulation (replace_nth (abundances p) g v)
                                  (immigrants p))))
              (random_state w) (history w)).
Proof.
  intros Hp Hg. unfold set_abundance, population_at.
  unfold bind at 1. unfold bind at 1. unfold get_self at 1.
  rewrite Hp. unfold ret at 1.
  rewrite set_item_replace by exact Hg.
  apply store_population_OK.
Qed.

Lemma call_population_OK (w : Machine) (n : nat) (m : pop_method)
  (f : Population -> Rand -> Population * Rand) (p : Population) :
  nth_error (populations (self w)) n = Some p ->
  call_population n m f w
  = OK (tt, mkMachine
              (set_populations (self w)
                 (replace_nth (populations (self w)) n
                    (fst (f p (random_state w)))))
              (snd (f p (random_state w)))
              (history w ++ [PopCall n m])).
Proof.
  intros Hp. unfold call_population, population_at.
  unfold bind at 1. unfold bind at 1. unfold get_self at 1.
  rewrite Hp. unfold ret at 1.
  run (record_OK _ _). run (sample_OK _ _).
  rewrite store_population_OK. reflexivity.
Qed.

Lemma new_population_width (cfg : Config) :
  length (abundances (Pop.new cfg))
  = Z.to_nat (2 ^ (genome_length cfg + 1)).
Proof. unfold Pop.new, Array.zeros. cbn [abundances]. apply repeat_length. Qed.

Lemma seed_node_stress_raises (n : nat) (w : Machine) (e : exn) :
  initial_state (config (self w)) = Stress ->
  stress_counts (config (self w)) = Raise e ->
  seed_node n w = Raise e.
Proof.
  intros Hs Hc.
  unfold seed_node. unfold bind at 1. unfold get_self at 1.
  unfold bind at 1. unfold put_self at 1. cbn [self random_state history].
  rewrite Hs, Hc. reflexivity.
Qed.

Lemma seed_node_stress (w : Machine) (counts : Z * Z) :
  initial_state (config (self w)) = Stress ->
  0 <= genome_length (config (self w)) ->
  stress_counts (config (self w)) = OK counts ->
  let cfg := config (self w) in
  let n := length (populations (self w)) in
  let b := pop_bottleneck (mutation_rate_tolerance cfg)
             (stress_population cfg counts) (random_state w) in
  seed_node n w
  = OK (tt, mkMachine
              (set_populations (self w) (populations (self w) ++ [fst b]))
              (snd b)
              (history w
               ++ [PopCall n (PBottleneck (mutation_rate_tolerance cfg))])).
Proof.
  intros Hs HL Hc. cbv zeta.
  set (cfg := config (self w)).
  assert (HL1 : 0 <= genome_length cfg + 1) by (unfold cfg; lia).
  unfold seed_node. unfold bind at 1. unfold get_self at 1.
  unfold bind at 1. unfold put_self at 1. cbn [self random_state history].
  rewrite Hs, Hc. cbn [lift]. run (ret_OK counts _).
  match goal with
  | |- bind (set_abundance ?k ?g ?v) _ ?w1 = _ =>
      rewrite (bind_OK _ _ _ _ _
                 (set_abundance_OK w1 k g v (Pop.new cfg)
                    ltac:(cbn [self populations set_populations];
                          apply nth_error_last)
                    ltac:(rewrite new_population_width;
                          apply pow2_pos_nat; exact HL1)))
  end.
  cbn [self populations set_populations random_state history config].
  rewrite replace_nth_last.
  match goal with
  | |- bind (set_abundance ?k ?g ?v) _ ?w1 = _ =>
      match type of w1 with _ => idtac end;
      match w1 with
      | context [?l ++ [?p1]] =>
          rewrite (bind_OK _ _ _ _ _
                     (set_abundance_OK w1 k g v p1
                        ltac:(cbn [self populations set_populations];
                              apply nth_error_last)
                        ltac:(cbn [abundances];
                              rewrite length_replace_nth,
                                new_population_width;
                              apply pow2_lt_succ; exact HL)))
      end
  end.
  cbn [self populations set_populations random_state history config
       abundances immigrants].
  rewrite replace_nth_last.
  match goal with
  | |- call_population ?k ?m ?f ?w1 = _ =>
      match w1 with
      | context [?l ++ [?p1]] =>
          rewrite (call_population_OK w1 k m f p1
                     ltac:(cbn [self populations set_populations];
                           apply nth_error_last))
      end
  end.
  cbn [self populations set_populations random_state history config time
       topology mutation_probs fitness_landscape environment_changed
       log_objects].
  rewrite replace_nth_last. reflexivity.
Qed.

Lemma thread_last (f : Population -> Rand -> Population * Rand)
  (pops : list Population) (p : Population) (r : Rand) :
  thread f (pops ++ [p]) r
  = (fst (thread f pops r) ++ [fst (f p (snd (thread f pops r)))],
     snd (f p (snd (thread f pops r)))).
Proof.
  revert r. induction pops as [|q pops IH]; intros r; [reflexivity|].
  cbn [app thread]. rewrite IH. reflexivity.
Qed.

Lemma repeat_snoc {A} (x : A) (n : nat) : repeat x (S n) = repeat x n ++ [x].
Proof.
  induction n as [|n IH]; [reflexivity|].
  change (repeat x (S (S n))) with (x :: repeat x (S n)).
  rewrite IH at 1. reflexivity.
Qed.

Lemma machine_eta (w : Machine) :
  mkMachine (set_populations (self w) (populations (self w)))
    (random_state w) (history w) = w.
Proof. destruct w as [[] ? ?]. reflexivity. Qed.

Lemma seed_nodes_stress (m : nat) (w : Machine) (counts : Z * Z) :
  initial_state (config (self w)) = Stress ->
  0 <= genome_length (config (self w)) ->
  stress_counts (config (self w)) = OK counts ->
  let cfg := config (self w) in
  let k := length (populations (self w)) in
  let t := thread (pop_bottleneck (mutation_rate_tolerance cfg))
             (repeat (stress_population cfg counts) m) (random_state w) in
  for_each (seq k m) seed_node w
  = OK (tt, mkMachine
              (set_populations (self w) (populations (self w) ++ fst t))
              (snd t)
              (history w
               ++ map (fun n =>
                         PopCall n (PBottleneck (mutation_rate_tolerance cfg)))
                      (seq k m))).
Proof.
  intros Hs HL Hc. cbv zeta. induction m as [|m IH].
  - simpl. unfold ret. rewrite !app_nil_r, machine_eta. reflexivity.
  - rewrite seq_S, for_each_app. run IH.
    cbn [for_each].
    match goal with
    | |- bind (seed_node ?n) _ ?w1 = _ =>
        pose proof (seed_node_stress w1 counts Hs HL Hc) as E;
        cbv zeta in E;
        cbn [self populations set_populations random_state history config]
          in E
    end.
    rewrite length_app in E.
    assert (El : length (fst (thread
                   (pop_bottleneck (mutation_rate_tolerance (config (self w))))
                   (repeat (stress_population (config (self w)) counts) m)
                   (random_state w))) = m).
    { clear. generalize (random_state w).
      induction m as [|m IH]; intros r; [reflexivity|].
      cbn [repeat thread fst length]. rewrite IH. reflexivity. }
    rewrite El in E. run E. unfold ret.
    rewrite repeat_snoc, thread_last, map_app. cbn [fst snd map].
    rewrite <- !app_assoc. reflexivity.
Qed.

Lemma seed_nodes_other (m : nat) :
  forall (k : nat) (w : Machine),
    initial_state (config (self w)) = OtherInitialState ->
    for_each (seq k m) seed_node w
    = OK (tt, mkMachine
                (set_populations (self w)
                   (populations (self w)
                    ++ repeat (Pop.new (config (self w))) m))
                (random_state w) (history w)).
Proof.
  induction m as [|m IH]; intros k w Ho.
  - simpl. unfold ret. rewrite app_nil_r, machine_eta. reflexivity.
  - cbn [seq for_each].
    assert (E : seed_node k w
                = OK (tt, mkMachine
                            (set_populations (self w)
                               (populations (self w)
                                ++ [Pop.new (config (self w))]))
                            (random_state w) (history w))).
    { unfold seed_node. unfold bind at 1. unfold get_self at 1.
      unfold bind at 1. unfold put_self at 1.
      cbn [self random_state history]. rewrite Ho. reflexivity. }
    run E. rewrite IH by exact Ho.
    cbn [self config populations set_populations random_state history].
    rewrite <- app_assoc. reflexivity.
Qed.

(** The constructor up to the loop that creates the populations, and
    from that loop on. *)
Lemma init_around_seeding {ok : ExternalsOk ext} (cfg : Config)
  (topo : Topology) (r : Rand) :
  early_asserts cfg = true ->
  0 <= genome_length cfg ->
  (0 <= base_fitness cfg)%Q ->
  effects_scale_ok cfg = true ->
  exists mr landscape,
    Mutation.get_mutation_probabilities cfg = OK mr
    /\ landscape_table (genome_length cfg) (base_fitness cfg)
         (production_cost cfg) (fst (effects_sampler cfg r)) = OK landscape
    /\ match for_each (nodes topo) seed_node
               (mkMachine
                  (mkMetapopulation cfg 0 topo mr landscape [] false [])
                  (snd (effects_sampler cfg r)) []) with
       | OK (_, w3) =>
           init (fresh cfg topo r)
           = if (0 <=? mix_frequency cfg) && (0 <=? env_change_frequency cfg)
             then OK (tt, mkMachine
                            (mkMetapopulation cfg (time (self w3)) topo
                               (mutation_probs (self w3))
                               (fitness_landscape (self w3))
                               (populations (self w3)) false (sinks cfg))
                            (random_state w3) (history w3))
             else Raise AssertionError
       | Raise e => init (fresh cfg topo r) = Raise e
       end.
Proof.
  intros He HL Hb Hscale. unfold early_asserts in He.
  rewrite !andb_true_iff in He. destruct He as [[[[A B] C] D] E].
  pose proof (mutation_matrix_table cfg (Z.to_nat (genome_length cfg))
                ltac:(lia)) as Emr.
  match type of Emr with _ = OK ?m => set (mr := m) in Emr end.
  exists mr.
  destruct (build_fitness_landscape_runs
              (mkMachine (mkMetapopulation cfg 0 topo mr [] [] false []) r [])
              HL Hb Hscale)
    as [landscape [El Et]].
  cbn [self config random_state history] in El, Et.
  exists landscape. split; [exact Emr|]. split; [exact Et|].
  assert (Einit :
             init (fresh cfg topo r)
             = bind (for_each (nodes topo) seed_node)
                 (fun _ =>
                    bind (assert (0 <=? mix_frequency cfg)) (fun _ =>
                    bind (assert (0 <=? env_change_frequency cfg)) (fun _ =>
                    bind get_self (fun s =>
                    put_self
                      (mkMetapopulation cfg (time s) topo (mutation_probs s)
                         (fitness_landscape s) (populations s) false
                         (sinks cfg))))))
                 (mkMachine
                    (mkMetapopulation cfg 0 topo mr landscape [] false [])
                    (snd (effects_sampler cfg r)) [])).
  { unfold init, fresh.
    run (get_self_OK _).
    cbn [self config topology time].
    rewrite A, B, C, D, E, Emr. unfold assert at 1 2 3. cbn [andb].
    run (ret_OK tt _).
    run (ret_OK tt _).
    run (ret_OK tt _).
    run (put_self_OK _ _).
    cbn [self random_state history].
    run El.
    run (get_self_OK _).
    run (put_self_OK _ _).
    reflexivity. }
  rewrite Einit. clear Einit.
  destruct (for_each (nodes topo) seed_node _) as [[[] w3]|e] eqn:Es.
  - run Es. unfold assert.
    destruct (0 <=? mix_frequency cfg); cbn [andb];
      [|apply bind_Raise; reflexivity].
    run (ret_OK tt _).
    destruct (0 <=? env_change_frequency cfg);
      [|apply bind_Raise; reflexivity].
    run (ret_OK tt _).
    run (get_self_OK _).
    reflexivity.
  - apply bind_Raise. exact Es.
Qed.

(** Whatever the policy, the loop that creates the populations returns
    and leaves one population per node. *)
Lemma seed_nodes_return (s : Metapopulation) (r : Rand) (h : list event) :
  0 <= genome_length (config s) ->
  stress_ready (config s) (topology s) ->
  exists pops r' h',
    for_each (nodes (topology s)) seed_node
      (mkMachine (set_populations s []) r h)
    = OK (tt, mkMachine (set_populations s pops) r' h')
    /\ length pops = number_of_nodes (topology s).
Proof.
  intros HL Hready.
  destruct (initial_state (config s)) eqn:Hp.
  - destruct (seed_nodes_corners (mkMachine (set_populations s []) r h)
                Hp eq_refl HL) as [r' [h' E]].
    cbn [self set_populations topology config random_state] in E.
    eexists. exists r', h'. split; [exact E|].
    unfold corners_populations.
    destruct (number_of_nodes (topology s)) as [|[|m]]; try reflexivity.
    cbn [length]. rewrite length_app, repeat_length. simpl. lia.
  - destruct (Nat.eq_dec (number_of_nodes (topology s)) 0) as [E0|Hn].
    { exists [], r, h. unfold nodes. rewrite E0. split; reflexivity. }
    destruct (Hready Hp Hn) as [counts Hc].
    pose proof (seed_nodes_stress (number_of_nodes (topology s))
                  (mkMachine (set_populations s []) r h) counts Hp HL Hc)
      as E.
    cbv zeta in E.
    cbn [self set_populations topology config random_state populations
         history length app] in E.
    eexists. eexists. eexists. split; [exact E|].
    generalize (number_of_nodes (topology s)). clear. intros m.
    generalize r. induction m as [|m IH]; intros r0; [reflexivity|].
    cbn [repeat thread fst length]. rewrite IH. reflexivity.
  - pose proof (seed_nodes_other (number_of_nodes (topology s)) 0
                  (mkMachine (set_populations s []) r h) Hp) as E.
    cbn [self set_populations topology config random_state populations
         history length app] in E.
    eexists. eexists. eexists. split; [exact E|].
    apply repeat_length.
Qed.

End SeedingFacts.

Lemma nth_error_replace_nth_eq {A} (l : list A) (n : nat) (v : A) :
  (n < length l)%nat -> nth_error (replace_nth l n v) n = Some v.
Proof.
  revert n. induction l as [|x l IH]; intros [|n] H; simpl in *;
    try lia; [reflexivity | apply IH; lia].
Qed.

Lemma nth_error_replace_nth_neq {A} (l : list A) (n m : nat) (v : A) :
  n <> m -> nth_error (replace_nth l n v) m = nth_error l m.
Proof.
  revert n m. induction l as [|x l IH]; intros [|n] [|m] H; simpl;
    try reflexivity; try congruence.
  apply IH. congruence.
Qed.

Lemma nth_error_repeat_Some {A} (x : A) (n i : nat) :
  (i < n)%nat -> nth_error (repeat x n) i = Some x.
Proof.
  revert i. induction n as [|n IH]; intros [|i] H; simpl; try lia;
    [reflexivity | apply IH; lia].
Qed.

Lemma sumZ_zeros (n : nat) : Array.sumZ (Array.zeros 0 n) = 0.
Proof. induction n as [|n IH]; [reflexivity | exact IH]. Qed.

Lemma size_of_new_populations (cfg : Config) (n : nat) :
  Array.sumZ (map Pop.size (repeat (Pop.new cfg) n)) = 0.
Proof.
  induction n as [|n IH]; [reflexivity|].
  cbn [repeat map Array.sumZ fold_right].
  change (fold_right Z.add 0 ?l) with (Array.sumZ l). rewrite IH.
  unfold Pop.size, Pop.new. cbn [abundances]. rewrite sumZ_zeros.
  reflexivity.
Qed.

Lemma valid_config_early (cfg : Config) :
  valid_config cfg
  = early_asserts cfg && (0 <=? genome_length cfg)
    && Qle_bool 0 (base_fitness cfg) && effects_scale_ok cfg
    && ((0 <=? mix_frequency cfg) && (0 <=? env_change_frequency cfg)).
Proof.
  unfold valid_config, early_asserts. rewrite !andb_assoc. reflexivity.
Qed.

Lemma valid_config_early_asserts (cfg : Config) :
  valid_config cfg = true -> early_asserts cfg = true.
Proof.
  rewrite valid_config_early. intros H. rewrite !andb_true_iff in H.
  tauto.
Qed.

Section ConstructorExtras.

Context {ext : Externals} {ok : ExternalsOk ext}.

Lemma init_raises_early (cfg : Config) (topo : Topology) (r : Rand) :
  early_asserts cfg = false ->
  init (fresh cfg topo r) = Raise AssertionError.
Proof.
  unfold early_asserts. intros He. unfold init, fresh.
  run (get_self_OK _). cbn [self config topology time].
  destruct (Qle_bool 0 (migration_rate cfg)),
    (Qle_bool (migration_rate cfg) 1), (Qle_bool 0 (migration_p_far cfg)),
    (Qle_bool (migration_p_far cfg) 1), (0 <? log_frequency cfg);
    cbn [andb] in He; try discriminate He; reflexivity.
Qed.

Lemma init_raises_on_negative_length (cfg : Config) (topo : Topology)
  (r : Rand) :
  early_asserts cfg = true ->
  genome_length cfg < 0 ->
  init (fresh cfg topo r) = Raise TypeError.
Proof.
  unfold early_asserts. intros He HL.
  rewrite !andb_true_iff in He. destruct He as [[[[A B] C] D] E].
  unfold init, fresh.
  run (get_self_OK _). cbn [self config topology time].
  rewrite A, B, C, D, E. unfold assert. cbn [andb].
  run (ret_OK tt _). run (ret_OK tt _). run (ret_OK tt _).
  unfold Mutation.get_mutation_probabilities.
  destruct (Z.ltb_spec (genome_length cfg) 0); [reflexivity | lia].
Qed.

(** The constructor fails as [build_fitness_landscape] does. *)
Lemma init_raises_with_landscape (cfg : Config) (topo : Topology)
  (r : Rand) (e : exn) :
  early_asserts cfg = true ->
  0 <= genome_length cfg ->
  (forall w, config (self w) = cfg -> build_fitness_landscape w = Raise e) ->
  init (fresh cfg topo r) = Raise e.
Proof.
  unfold early_asserts. intros He HL Hraise.
  rewrite !andb_true_iff in He. destruct He as [[[[A B] C] D] E].
  pose proof (mutation_matrix_table cfg (Z.to_nat (genome_length cfg))
                ltac:(lia)) as Emr.
  unfold init, fresh.
  run (get_self_OK _). cbn [self config topology time].
  rewrite A, B, C, D, E, Emr. unfold assert. cbn [andb].
  run (ret_OK tt _). run (ret_OK tt _). run (ret_OK tt _).
  run (put_self_OK _ _).
  apply bind_Raise. apply Hraise. reflexivity.
Qed.

Lemma construction_attaches_sinks (cfg : Config) (topo : Topology)
  (r : Rand) (w0 : Machine) :
  new_metapopulation cfg topo r = OK w0 -> log_objects (self w0) = sinks cfg.
Proof.
  intros E0.
  destruct (construction_establishes cfg topo r w0 E0)
    as [_ [_ [_ [_ [Hv _]]]]].
  pose proof (valid_config_early_asserts cfg Hv) as He.
  pose proof (valid_config_scale cfg Hv) as Hscale.
  destruct (valid_config_spec cfg Hv) as [_ [_ [_ [HL [Hb [H4 H5]]]]]].
  destruct (init_around_seeding cfg topo r He HL Hb Hscale)
    as [mr [landscape [_ [_ Hinit]]]].
  unfold new_metapopulation in E0.
  destruct (for_each (nodes topo) seed_node _) as [[[] w3]|e].
  - rewrite Hinit, H4, H5 in E0. cbn [andb] in E0.
    injection E0 as <-. reflexivity.
  - rewrite Hinit in E0. discriminate E0.
Qed.

(** What the constructor answers, by the validity of the configuration. *)
Lemma constructor_outcome (cfg : Config) (topo : Topology) (r : Rand) :
  stress_ready cfg topo ->
  match new_metapopulation cfg topo r with
  | OK w => valid_config cfg = true
  | Raise e =>
      valid_config cfg = false
      /\ e = if early_asserts cfg && (genome_length cfg <? 0)
             then TypeError
             else if early_asserts cfg && Qle_bool 0 (base_fitness cfg)
                     && negb (effects_scale_ok cfg)
                  then ValueError
                  else AssertionError
  end.
Proof.
  intros Hready.
  unfold new_metapopulation. rewrite valid_config_early.
  destruct (early_asserts cfg) eqn:He.
  2:{ rewrite (init_raises_early cfg topo r He). split; reflexivity. }
  cbn [andb].
  destruct (Z.ltb_spec (genome_length cfg) 0) as [HL|HL].
  { rewrite (init_raises_on_negative_length cfg topo r He HL).
    destruct (Z.leb_spec 0 (genome_length cfg)); [lia|].
    split; reflexivity. }
  destruct (Z.leb_spec 0 (genome_length cfg)); [|lia]. cbn [andb].
  destruct (Qle_bool 0 (base_fitness cfg)) eqn:Hb.
  2:{ rewrite (init_raises_with_landscape cfg topo r AssertionError He HL).
      - split; reflexivity.
      - intros w Hw. apply build_fitness_landscape_asserts.
        right. rewrite Hw. exact Hb. }
  cbn [andb].
  assert (Hb' : (0 <= base_fitness cfg)%Q) by (apply Qle_bool_iff; exact Hb).
  destruct (effects_scale_ok cfg) eqn:Hs.
  2:{ rewrite (init_raises_with_landscape cfg topo r ValueError He HL).
      - split; reflexivity.
      - intros w Hw. apply build_fitness_landscape_refuses_scale;
          rewrite Hw; assumption. }
  cbn [andb negb].
  destruct (init_around_seeding cfg topo r He HL Hb' Hs)
    as [mr [landscape [_ [_ Hinit]]]].
  destruct (seed_nodes_return
              (mkMetapopulation cfg 0 topo mr landscape [] false [])
              (snd (effects_sampler cfg r)) [] HL Hready)
    as [pops [r' [h' [Es Hlen]]]].
  unfold set_populations in Es.
  cbn [config time topology mutation_probs fitness_landscape
       environment_changed log_objects] in Es.
  rewrite Es in Hinit. rewrite Hinit.
  destruct ((0 <=? mix_frequency cfg) && (0 <=? env_change_frequency cfg)).
  - reflexivity.
  - split; reflexivity.
Qed.

(** X14: on a built topology, and when the policy [stress] can count its
    individuals, the constructor returns exactly when the configuration
    passes the assertions of the constructor and of
    [build_fitness_landscape] and numpy's check of the exponential
    scale; it then leaves one population per node and the log objects
    the configuration asks for. Otherwise a negative genome length that
    gets past the first three assertions surfaces as the [TypeError] of
    [get_mutation_probabilities], never as the assertion of
    [build_fitness_landscape]; exponential effects with a negative
    [fitness_avg_effect] surface as numpy's [ValueError] once both
    assertions of [build_fitness_landscape] have passed; every other
    invalid option raises [AssertionError]. The methods of [Population]
    are collaborators outside the source and taken to return. *)
Theorem constructor_returns_iff_valid (cfg : Config) (topo : Topology)
  (r : Rand) :
  stress_ready cfg topo ->
  ((exists w, new_metapopulation cfg topo r = OK w)
   <-> valid_config cfg = true)
  /\ (forall w,
        new_metapopulation cfg topo r = OK w ->
        length (populations (self w)) = number_of_nodes topo
        /\ log_objects (self w) = sinks cfg)
  /\ (forall e,
        new_metapopulation cfg topo r = Raise e ->
        e = if early_asserts cfg && (genome_length cfg <? 0)
            then TypeError
            else if early_asserts cfg && Qle_bool 0 (base_fitness cfg)
                    && negb (effects_scale_ok cfg)
                 then ValueError
                 else AssertionError).
Proof.
  intros Hready.
  pose proof (constructor_outcome cfg topo r Hready) as H.
  pose proof (construction_establishes cfg topo r) as Hest.
  pose proof (construction_attaches_sinks cfg topo r) as Hsinks.
  destruct (new_metapopulation cfg topo r) as [w|e].
  - split; [|split].
    + split; [intros _; exact H | intros _; exists w; reflexivity].
    + intros w' E. injection E as <-.
      split; [|exact (Hsinks w eq_refl)].
      exact (proj1 (proj2 (proj2 (proj2 (proj2 (proj2 (Hest w eq_refl))))))).
    + discriminate.
  - destruct H as [Hv He]. split; [|split].
    + split; [intros [w E]; discriminate E | intros Hv'; congruence].
    + discriminate.
    + intros e' E. injection E as <-. exact He.
Qed.

(** X15: under the policy [stress], when its counts can be computed, every
    node gets the same population: [num_producers = int(cap * p)]
    individuals of genotype 0 (not a producer for [is_producer]) and the
    remaining [num_nonproducers = cap - num_producers] individuals of
    genotype [2^L] (a producer), where
    [cap = int(min_cap + (max_cap - min_cap) * p)] and both products are
    rounded in binary64 before [int] truncates; each population is then
    put through [bottleneck(mutation_rate_tolerance)] in node order,
    these being the only population methods the constructor calls. *)
Theorem stress_seeds_every_node_alike (cfg : Config) (topo : Topology)
  (r : Rand) (counts : Z * Z) :
  valid_config cfg = true ->
  initial_state cfg = Stress ->
  stress_counts cfg = OK counts ->
  let L := Z.to_N (genome_length cfg) in
  let t := thread (pop_bottleneck (mutation_rate_tolerance cfg))
             (repeat (stress_population cfg counts) (number_of_nodes topo))
             (snd (effects_sampler cfg r)) in
  exists w,
    new_metapopulation cfg topo r = OK w
    /\ populations (self w) = fst t
    /\ random_state w = snd t
    /\ history w
       = map (fun n => PopCall n (PBottleneck (mutation_rate_tolerance cfg)))
             (nodes topo)
    /\ nth_error (abundances (stress_population cfg counts)) 0
       = Some (fst counts)
    /\ nth_error (abundances (stress_population cfg counts))
         (N.to_nat (2 ^ L))
       = Some (snd counts)
    /\ Genome.is_producer 0 L = false
    /\ Genome.is_producer (2 ^ L) L = true
    /\ Pop.size (stress_population cfg counts) = fst counts + snd counts.
Proof.
  intros Hv Hs Hc L t.
  destruct (valid_config_spec cfg Hv) as [H1 [H2 [H3 [HL [Hb [H4 H5]]]]]].
  pose proof (valid_config_early_asserts cfg Hv) as He.
  destruct (init_around_seeding cfg topo r He HL Hb
              (valid_config_scale cfg Hv))
    as [mr [landscape [_ [_ Hinit]]]].
  pose proof (seed_nodes_stress (number_of_nodes topo)
                (mkMachine
                   (mkMetapopulation cfg 0 topo mr landscape [] false [])
                   (snd (effects_sampler cfg r)) []) counts Hs HL Hc) as Es.
  cbv zeta in Es.
  cbn [self set_populations topology config random_state populations
       history length app time mutation_probs fitness_landscape
       environment_changed log_objects] in Es.
  unfold nodes in Hinit. rewrite Es in Hinit.
  rewrite H4, H5 in Hinit.
  cbn [andb self time mutation_probs fitness_landscape populations
       random_state history] in Hinit.
  unfold new_metapopulation. rewrite Hinit.
  eexists. split; [reflexivity|].
  cbn [self populations random_state history].
  refine (conj eq_refl (conj eq_refl (conj eq_refl _))).
  assert (Hg : N.to_nat (2 ^ L) = Z.to_nat (2 ^ genome_length cfg)).
  { rewrite <- (N2Z.id (2 ^ L)), Z_N_nat, N2Z.inj_pow. unfold L.
    rewrite Z2N.id by exact HL. reflexivity. }
  assert (Hg0 : (0 < Z.to_nat (2 ^ genome_length cfg))%nat)
    by (apply pow2_pos_nat; exact HL).
  pose proof (pow2_lt_succ _ HL) as Hg1.
  pose proof (new_population_width cfg) as Hw.
  unfold stress_population. cbn [abundances]. rewrite Hg.
  split; [|split; [|split; [|split]]].
  - rewrite nth_error_replace_nth_neq by lia.
    apply nth_error_replace_nth_eq. lia.
  - apply nth_error_replace_nth_eq. rewrite length_replace_nth. lia.
  - apply is_producer_social_bit.
  - apply is_producer_social_bit.
  - unfold Pop.size. cbn [abundances].
    rewrite <- (map_id (replace_nth (replace_nth _ _ _) _ _)).
    rewrite (sumZ_replace_nth (fun x => x) _ _ 0).
    + rewrite (sumZ_replace_nth (fun x => x) _ _ 0).
      * rewrite map_id. unfold Pop.new. cbn [abundances].
        rewrite sumZ_zeros. lia.
      * unfold Pop.new, Array.zeros. cbn [abundances].
        apply nth_error_repeat_Some. lia.
    + rewrite nth_error_replace_nth_neq by lia.
      unfold Pop.new, Array.zeros. cbn [abundances].
      apply nth_error_repeat_Some. exact Hg1.
Qed.

(** X16: with any other [initial_state] the constructor leaves every
    node with a new, empty population, calls no population method and
    draws nothing beyond the landscape's effects; the engine then has
    size 0 and [prop_producers] answers ['NA']. *)
Theorem unrecognised_initial_state_leaves_engine_empty (cfg : Config)
  (topo : Topology) (r : Rand) :
  valid_config cfg = true ->
  initial_state cfg = OtherInitialState ->
  exists w,
    new_metapopulation cfg topo r = OK w
    /\ populations (self w) = repeat (Pop.new cfg) (number_of_nodes topo)
    /\ random_state w = snd (effects_sampler cfg r)
    /\ history w = []
    /\ size (self w) = 0
    /\ prop_producers (self w) = NA.
Proof.
  intros Hv Ho.
  destruct (valid_config_spec cfg Hv) as [H1 [H2 [H3 [HL [Hb [H4 H5]]]]]].
  pose proof (valid_config_early_asserts cfg Hv) as He.
  destruct (init_around_seeding cfg topo r He HL Hb
              (valid_config_scale cfg Hv))
    as [mr [landscape [_ [_ Hinit]]]].
  pose proof (seed_nodes_other (number_of_nodes topo) 0
                (mkMachine
                   (mkMetapopulation cfg 0 topo mr landscape [] false [])
                   (snd (effects_sampler cfg r)) []) Ho) as Es.
  cbn [self set_populations topology config random_state populations
       history length app time mutation_probs fitness_landscape
       environment_changed log_objects] in Es.
  unfold nodes in Hinit. rewrite Es in Hinit.
  rewrite H4, H5 in Hinit.
  cbn [andb self time mutation_probs fitness_landscape populations
       random_state history] in Hinit.
  unfold new_metapopulation. rewrite Hinit.
  eexists. split; [reflexivity|].
  cbn [self populations random_state history].
  refine (conj eq_refl (conj eq_refl (conj eq_refl _))).
  match goal with
  | |- size ?s = 0 /\ _ =>
      assert (Hsz : size s = 0) by apply size_of_new_populations
  end.
  split; [exact Hsz|]. unfold prop_producers. rewrite Hsz. reflexivity.
Qed.

End ConstructorExtras.

Lemma negative_scale_config_ready :
  stress_ready Extra.negative_scale_config (Reference.ring 3).
Proof. intros H. discriminate H. Qed.

Lemma constructor_returns_iff_valid_witness :
  ~ (exists w,
       new_metapopulation Extra.negative_scale_config (Reference.ring 3)
         Reference.seed = OK w).
Proof.
  destruct (@constructor_returns_iff_valid Reference.externals reference_ok
              Extra.negative_scale_config (Reference.ring 3)
              Reference.seed negative_scale_config_ready) as [[H _] _].
  intros Hex. apply H in Hex. vm_compute in Hex. discriminate Hex.
Defined.

(** With capacities 0 and 100 and the proportion [0.29] the product
    [100 * 0.29] is [28.999999999999996] in binary64, so [cap] is 28,
    not 29. *)
Lemma stress_counts_example : stress_counts Extra.stress_config = OK (8, 20).
Proof. vm_compute. reflexivity. Qed.

Lemma stress_seeds_every_node_alike_witness :
  exists w,
    new_metapopulation Extra.stress_config (Reference.ring 3) Reference.seed
    = OK w
    /\ length (populations (self w)) = 3%nat
    /\ nth_error (abundances (stress_population Extra.stress_config (8, 20)))
         0 = Some 8
    /\ nth_error (abundances (stress_population Extra.stress_config (8, 20)))
         2 = Some 20
    /\ Pop.size (stress_population Extra.stress_config (8, 20)) = 28.
Proof.
  destruct (@stress_seeds_every_node_alike Reference.externals reference_ok
              Extra.stress_config (Reference.ring 3) Reference.seed (8, 20)
              eq_refl eq_refl stress_counts_example)
    as [w [E [Hp [_ [_ [H0 [H2 [_ [_ Hs]]]]]]]]].
  exists w. split; [exact E|]. split; [rewrite Hp; reflexivity|].
  split; [exact H0|]. split; [exact H2 | exact Hs].
Defined.

Lemma unrecognised_initial_state_leaves_engine_empty_witness :
  exists w,
    new_metapopulation Extra.unseeded_config (Reference.ring 3) Reference.seed
    = OK w
    /\ size (self w) = 0
    /\ prop_producers (self w) = NA.
Proof.
  destruct (@unrecognised_initial_state_leaves_engine_empty
              Reference.externals reference_ok
              Extra.unseeded_config (Reference.ring 3) Reference.seed
              eq_refl eq_refl)
    as [w [E [_ [_ [_ [Hs Hp]]]]]].
  exists w. split; [exact E|]. split; [exact Hs | exact Hp].
Defined.

(** ** Further properties of the engine's methods *)

Section MethodFacts.

Context {ext : Externals}.

Lemma replace_nth_middle {A} (done rest : list A) (x y : A) :
  replace_nth (done ++ x :: rest) (length done) y = done ++ y :: rest.
Proof.
  induction done as [|z done IH]; simpl; [reflexivity|].
  rewrite IH. reflexivity.
Qed.

Lemma nth_error_middle {A} (done rest : list A) (x : A) :
  nth_error (done ++ x :: rest) (length done) = Some x.
Proof.
  rewrite nth_error_app2 by lia. rewrite Nat.sub_diag. reflexivity.
Qed.

Lemma thread_length (f : Population -> Rand -> Population * Rand)
  (pops : list Population) (r : Rand) :
  length (fst (thread f pops r)) = length pops.
Proof.
  revert r. induction pops as [|p pops IH]; intros r; [reflexivity|].
  cbn [thread fst length]. rewrite IH. reflexivity.
Qed.

(** A loop over the nodes whose body replaces the node's population by
    the result of [f] and records the events [E]: the populations are
    threaded through [f] in node order. *)
Lemma node_loop_exact (s : Metapopulation)
  (f : Population -> Rand -> Population * Rand) (E : nat -> list event)
  (body : nat -> M unit) :
  (forall n pops r h p,
     nth_error pops n = Some p ->
     body n (mkMachine (set_populations s pops) r h)
     = OK (tt, mkMachine
                 (set_populations s (replace_nth pops n (fst (f p r))))
                 (snd (f p r)) (h ++ E n))) ->
  forall rest done r h,
    for_each (seq (length done) (length rest)) body
      (mkMachine (set_populations s (done ++ rest)) r h)
    = OK (tt, mkMachine
                (set_populations s (done ++ fst (thread f rest r)))
                (snd (thread f rest r))
                (h ++ flat_map E (seq (length done) (length rest)))).
Proof.
  intros Hbody. induction rest as [|p rest IH]; intros done r h.
  - simpl. unfold ret. rewrite !app_nil_r. reflexivity.
  - cbn [length seq for_each flat_map thread fst snd].
    run (Hbody (length done) (done ++ p :: rest) r h p
           (nth_error_middle done rest p)).
    rewrite replace_nth_middle.
    replace (done ++ fst (f p r) :: rest)
      with ((done ++ [fst (f p r)]) ++ rest)
      by (rewrite <- app_assoc; reflexivity).
    replace (S (length done)) with (length (done ++ [fst (f p r)]))
      by (rewrite length_app; simpl; lia).
    rewrite IH. rewrite <- !app_assoc. reflexivity.
Qed.

Lemma flat_map_singleton {A B} (g : A -> B) (l : list A) :
  flat_map (fun x => [g x]) l = map g l.
Proof. induction l as [|x l IH]; simpl; [|rewrite IH]; reflexivity. Qed.

(** The same loop run by an engine method on all the nodes. *)
Lemma for_each_node_exact (w : Machine)
  (f : Population -> Rand -> Population * Rand) (E : nat -> list event)
  (body : nat -> M unit) :
  length (populations (self w)) = number_of_nodes (topology (self w)) ->
  (forall n pops r h p,
     nth_error pops n = Some p ->
     body n (mkMachine (set_populations (self w) pops) r h)
     = OK (tt, mkMachine
                 (set_populations (self w) (replace_nth pops n (fst (f p r))))
                 (snd (f p r)) (h ++ E n))) ->
  forall h,
    for_each_node body
      (mkMachine (self w) (random_state w) h)
    = OK (tt, mkMachine
                (set_populations (self w)
                   (fst (thread f (populations (self w)) (random_state w))))
                (snd (thread f (populations (self w)) (random_state w)))
                (h ++ flat_map E (nodes (topology (self w))))).
Proof.
  intros Hlen Hbody h. unfold for_each_node.
  run (get_self_OK _). cbn [self]. unfold nodes. rewrite <- Hlen.
  pose proof (node_loop_exact (self w) f E body Hbody
                (populations (self w)) [] (random_state w) h) as HE.
  cbn [app length] in HE.
  replace (set_populations (self w) (populations (self w))) with (self w)
    in HE by (destruct (self w); reflexivity).
  exact HE.
Qed.

Lemma call_population_step (s : Metapopulation) (n : nat) (m : pop_method)
  (f : Population -> Rand -> Population * Rand)
  (pops : list Population) (r : Rand) (h : list event) (p : Population) :
  nth_error pops n = Some p ->
  call_population n m f (mkMachine (set_populations s pops) r h)
  = OK (tt, mkMachine
              (set_populations s (replace_nth pops n (fst (f p r))))
              (snd (f p r)) (h ++ [PopCall n m])).
Proof.
  intros Hp.
  rewrite (call_population_OK _ n m f p)
    by (cbn [self populations set_populations]; exact Hp).
  reflexivity.
Qed.

Lemma method_loop_exact (w : Machine) (e : step) (m : pop_method)
  (f : Population -> Rand -> Population * Rand) (body : nat -> M unit) :
  length (populations (self w)) = number_of_nodes (topology (self w)) ->
  (forall n pops r h p,
     nth_error pops n = Some p ->
     body n (mkMachine (set_populations (self w) pops) r h)
     = OK (tt, mkMachine
                 (set_populations (self w) (replace_nth pops n (fst (f p r))))
                 (snd (f p r)) (h ++ [PopCall n m]))) ->
  bind (record (Enter e)) (fun _ => for_each_node body) w
  = OK (tt, mkMachine
              (set_populations (self w)
                 (fst (thread f (populations (self w)) (random_state w))))
              (snd (thread f (populations (self w)) (random_state w)))
              (history w
               ++ Enter e
                  :: map (fun n => PopCall n m) (nodes (topology (self w))))).
Proof.
  intros Hlen Hbody. run (record_OK _ _).
  rewrite (for_each_node_exact w f (fun n => [PopCall n m]) body Hlen Hbody).
  rewrite flat_map_singleton, <- app_assoc. reflexivity.
Qed.

(** X17: [grow] calls [Population.grow] exactly once on every node's
    population, in node order, each call drawing from the generator
    where the previous one left it and reading the fitness landscape the
    engine holds when [grow] is entered; [mutate] does the same with
    [Population.mutate] and the mutation matrix. Nothing else of the
    object changes. *)
Theorem grow_and_mutate_visit_each_node_once (w : Machine) :
  length (populations (self w)) = number_of_nodes (topology (self w)) ->
  let g := thread (pop_grow (fitness_landscape (self w)))
             (populations (self w)) (random_state w) in
  let u := thread (pop_mutate (mutation_probs (self w)))
             (populations (self w)) (random_state w) in
  grow w
  = OK (tt, mkMachine (set_populations (self w) (fst g)) (snd g)
              (history w
               ++ Enter Grow
                  :: map (fun n => PopCall n PGrow)
                         (nodes (topology (self w)))))
  /\ mutate w
     = OK (tt, mkMachine (set_populations (self w) (fst u)) (snd u)
                 (history w
                  ++ Enter Mutate
                     :: map (fun n => PopCall n PMutate)
                            (nodes (topology (self w))))).
Proof.
  intros Hlen g u. split.
  - apply (method_loop_exact w Grow PGrow); [exact Hlen|].
    intros n pops r h p Hp. run (get_self_OK _).
    apply call_population_step. exact Hp.
  - apply (method_loop_exact w Mutate PMutate); [exact Hlen|].
    intros n pops r h p Hp. run (get_self_OK _).
    apply call_population_step. exact Hp.
Qed.

(** X18: [dilute(stochastic)] calls [Population.dilute] with that very
    flag exactly once on every node's population, in node order,
    threading the generator, and changes nothing else; on an engine that
    lacks the population of some node it raises [KeyError]. *)
Theorem dilute_visits_each_node_once (stochastic : bool) (w : Machine) :
  (length (populations (self w)) = number_of_nodes (topology (self w)) ->
   let d := thread (pop_dilute stochastic) (populations (self w))
              (random_state w) in
   dilute stochastic w
   = OK (tt, mkMachine (set_populations (self w) (fst d)) (snd d)
               (history w
                ++ Enter Dilute
                   :: map (fun n => PopCall n (PDilute stochastic))
                          (nodes (topology (self w))))))
  /\ ((length (populations (self w))
       < number_of_nodes (topology (self w)))%nat ->
      dilute stochastic w = Raise KeyError).
Proof.
  split.
  - intros Hlen d.
    apply (method_loop_exact w Dilute (PDilute stochastic)); [exact Hlen|].
    intros n pops r h p Hp. apply call_population_step. exact Hp.
  - intros Hlt. unfold dilute. run (record_OK _ _).
    unfold for_each_node. run (get_self_OK _). cbn [self].
    set (k := length (populations (self w))) in *.
    set (N := number_of_nodes (topology (self w))) in *.
    assert (EN : nodes (topology (self w)) = seq 0 k ++ seq k (N - k)).
    { unfold nodes. fold N.
      replace N with (k + (N - k))%nat at 1 by lia.
      apply seq_app. }
    rewrite EN, for_each_app.
    pose proof (node_loop_exact (self w) (pop_dilute stochastic)
                  (fun n => [PopCall n (PDilute stochastic)])
                  (fun n => call_population n (PDilute stochastic)
                              (pop_dilute stochastic))
                  (fun n pops r h p Hp =>
                     call_population_step (self w) n _ _ pops r h p Hp)
                  (populations (self w)) [] (random_state w)
                  (history w ++ [Enter Dilute])) as HE.
    cbn [app length] in HE. fold k in HE.
    replace (set_populations (self w) (populations (self w))) with (self w)
      in HE by (destruct (self w); reflexivity).
    run HE.
    destruct (N - k)%nat as [|j] eqn:Ej; [lia|].
    cbn [seq for_each]. apply bind_Raise.
    unfold call_population. apply bind_Raise.
    unfold population_at. run (get_self_OK _).
    cbn [self populations set_populations].
    assert (Hnone : nth_error
                      (fst (thread (pop_dilute stochastic)
                              (populations (self w)) (random_state w))) k
                    = None).
    { apply nth_error_None. rewrite thread_length. unfold k. lia. }
    rewrite Hnone. reflexivity.
Qed.

End MethodFacts.

Lemma grow_and_mutate_visit_each_node_once_witness :
  exists w1 w2,
    grow Reference.engine = OK (tt, w1)
    /\ mutate Reference.engine = OK (tt, w2)
    /\ history w1
       = history Reference.engine
         ++ [Enter Grow; PopCall 0 PGrow; PopCall 1 PGrow; PopCall 2 PGrow].
Proof.
  destruct (@grow_and_mutate_visit_each_node_once Reference.externals
              Reference.engine eq_refl) as [Eg Em].
  eexists. eexists. split; [exact Eg|]. split; [exact Em|]. reflexivity.
Defined.

Lemma dilute_visits_each_node_once_witness :
  (exists w1, dilute true Reference.engine = OK (tt, w1))
  /\ dilute true
       (fresh Reference.example_config (Reference.ring 3) Reference.seed)
     = Raise KeyError.
Proof.
  split.
  - eexists.
    apply (proj1 (@dilute_visits_each_node_once Reference.externals true
                    Reference.engine)).
    reflexivity.
  - apply (proj2 (@dilute_visits_each_node_once Reference.externals true
                    (fresh Reference.example_config (Reference.ring 3)
                       Reference.seed))).
    simpl. lia.
Defined.

Section MethodFacts2.

Context {ext : Externals} {ok : ExternalsOk ext}.

Lemma replace_nth_twice {A} (l : list A) (n : nat) (x y : A) :
  replace_nth (replace_nth l n x) n y = replace_nth l n y.
Proof.
  revert n. induction l as [|z l IH]; intros [|n]; simpl;
    try reflexivity. rewrite IH. reflexivity.
Qed.

Lemma nth_error_Some_lt {A} (l : list A) (n : nat) (x : A) :
  nth_error l n = Some x -> (n < length l)%nat.
Proof. intros H. apply nth_error_Some. congruence. Qed.

(** X19: [change_environment] raises [AssertionError] when the genome
    length or the base fitness is negative, and numpy's [ValueError]
    when both assertions pass, the effects are exponential and
    [fitness_avg_effect] is negative. Otherwise it installs the table of
    freshly drawn effects as the fitness landscape and then, on every
    node in node order, calls [bottleneck] with
    [mutation_rate_tolerance] as the survival rate and then
    [reset_loci]; it changes nothing else, the flag
    [environment_changed] included. *)
Theorem change_environment_bottlenecks_then_resets (w : Machine) :
  length (populations (self w)) = number_of_nodes (topology (self w)) ->
  let cfg := config (self w) in
  let tol := mutation_rate_tolerance cfg in
  let t := thread (bottleneck_and_reset tol) (populations (self w))
             (snd (effects_sampler cfg (random_state w))) in
  (genome_length cfg < 0 \/ ~ (0 <= base_fitness cfg)%Q ->
   change_environment w = Raise AssertionError)
  /\ (0 <= genome_length cfg -> (0 <= base_fitness cfg)%Q ->
      fitness_exponential cfg = true ->
      ~ (0 <= fitness_avg_effect cfg)%Q ->
      change_environment w = Raise ValueError)
  /\ (0 <= genome_length cfg -> (0 <= base_fitness cfg)%Q ->
      (fitness_exponential cfg = true -> (0 <= fitness_avg_effect cfg)%Q) ->
      exists landscape,
        landscape_table (genome_length cfg) (base_fitness cfg)
          (production_cost cfg)
          (fst (effects_sampler cfg (random_state w))) = OK landscape
        /\ change_environment w
           = OK (tt, mkMachine
                       (set_populations
                          (set_fitness_landscape (self w) landscape) (fst t))
                       (snd t)
                       (history w
                        ++ Enter ChangeEnvironment
                           :: flat_map
                                (fun n => [PopCall n (PBottleneck tol);
                                           PopCall n PResetLoci])
                                (nodes (topology (self w)))))).
Proof.
  intros Hlen cfg tol t. split; [|split].
  - intros Hbad. unfold change_environment. run (record_OK _ _).
    apply bind_Raise. apply build_fitness_landscape_asserts.
    cbn [self config]. fold cfg.
    destruct Hbad as [H|H]; [left; exact H | right].
    destruct (Qle_bool 0 (base_fitness cfg)) eqn:Hb; [|reflexivity].
    apply Qle_bool_iff in Hb. contradiction.
  - intros HL Hb Hexp Havg. unfold change_environment. run (record_OK _ _).
    apply bind_Raise. apply build_fitness_landscape_refuses_scale;
      cbn [self config]; fold cfg; try assumption.
    destruct (effects_scale_ok cfg) eqn:Hs; [|reflexivity].
    exfalso. apply Havg. apply (proj1 (effects_scale_ok_spec cfg) Hs Hexp).
  - intros HL Hb Hscale. apply effects_scale_ok_spec in Hscale.
    unfold change_environment. run (record_OK _ _).
    match goal with
    | |- context [bind build_fitness_landscape _ ?w1] =>
        destruct (build_fitness_landscape_runs w1 HL Hb Hscale)
          as [landscape [El Et]];
        cbn [self config random_state history] in El, Et
    end.
    exists landscape. split; [exact Et|].
    run El. run (get_self_OK _). run (put_self_OK _ _).
    cbn [self random_state history config].
    match goal with
    | |- for_each_node ?body ?w2 = _ =>
        pose proof (for_each_node_exact w2 (bottleneck_and_reset tol)
                      (fun n => [PopCall n (PBottleneck tol);
                                 PopCall n PResetLoci])
                      body) as HE
    end.
    cbn [self random_state history set_fitness_landscape populations
         topology] in HE.
    rewrite (HE Hlen).
    + rewrite <- app_assoc. reflexivity.
    + intros n pops r h p Hp.
      rewrite (bind_OK _ _ _ _ _
                 (call_population_step _ n _ _ pops r h p Hp)).
      rewrite (call_population_step _ n _ _ _ _ _ _
                 (nth_error_replace_nth_eq pops n _
                    (nth_error_Some_lt _ _ _ Hp))).
      rewrite replace_nth_twice, <- app_assoc. reflexivity.
Qed.

Lemma sumZ_nonneg (a : list Z) : Forall (Z.le 0) a -> 0 <= Array.sumZ a.
Proof.
  induction 1 as [|x a Hx _ IH]; [simpl; lia|].
  cbn [Array.sumZ fold_right].
  change (fold_right Z.add 0 ?l) with (Array.sumZ l). lia.
Qed.

(** Sums of non-negative entries that stay below [2^63] do not wrap. *)
Lemma int64_add_exact (a : list Z) :
  Forall (Z.le 0) a ->
  forall b,
    Forall (Z.le 0) b ->
    Array.sumZ a + Array.sumZ b < 2 ^ 63 ->
    Array.map2 Int64.add a b = Array.map2 Z.add a b
    /\ Forall (Z.le 0) (Array.map2 Z.add a b).
Proof.
  induction 1 as [|x a Hx Ha IH]; intros b Hb Hsum.
  - split; [reflexivity | constructor].
  - destruct Hb as [|y b Hy Hb]; [split; [reflexivity | constructor]|].
    cbn [Array.sumZ fold_right] in Hsum.
    change (fold_right Z.add 0 ?l) with (Array.sumZ l) in Hsum.
    pose proof (sumZ_nonneg a Ha). pose proof (sumZ_nonneg b Hb).
    destruct (IH b Hb ltac:(lia)) as [E Hnn].
    cbn [Array.map2]. rewrite E. unfold Int64.add.
    rewrite wrap_small by lia.
    split; [reflexivity|]. constructor; [lia | exact Hnn].
Qed.

Lemma pooled_from (G : nat) (pops : list Population) :
  Forall (fun p => length (abundances p) = G /\ length (immigrants p) = G)
         pops ->
  Forall (fun p => Forall (Z.le 0) (abundances p)) pops ->
  forall acc,
    length acc = G ->
    Forall (Z.le 0) acc ->
    Array.sumZ acc + Array.sumZ (map Pop.size pops) < 2 ^ 63 ->
    let pool :=
      fold_left (fun acc p => Array.map2 Int64.add acc (abundances p))
        pops acc in
    length pool = G
    /\ Forall (Z.le 0) pool
    /\ Array.sumZ pool = Array.sumZ acc + Array.sumZ (map Pop.size pops).
Proof.
  intros Hs Hnn. cbv zeta. revert Hnn.
  induction Hs as [|p pops [Hp _] _ IH]; intros Hnn acc Hacc Hpos Hsum.
  - simpl. split; [exact Hacc|]. split; [exact Hpos | lia].
  - inversion Hnn as [|? ? Hnp Hnn']; subst.
    cbn [fold_left map Array.sumZ fold_right] in *.
    change (fold_right Z.add 0 ?l) with (Array.sumZ l) in *.
    assert (Hrest : 0 <= Array.sumZ (map Pop.size pops)).
    { apply sumZ_nonneg. apply Forall_map.
      apply Forall_impl with (2 := Hnn'). intros q Hq.
      apply sumZ_nonneg. exact Hq. }
    unfold Pop.size in Hsum at 1.
    destruct (int64_add_exact acc Hpos (abundances p) Hnp ltac:(lia))
      as [E Hpos'].
    rewrite E.
    destruct (IH Hnn' (Array.map2 Z.add acc (abundances p))) as [Hl [Hq Hsm]].
    + rewrite length_map2 by congruence. exact Hacc.
    + exact Hpos'.
    + rewrite sumZ_map2_add by congruence. unfold Pop.size in *. lia.
    + split; [exact Hl|]. split; [exact Hq|].
      rewrite Hsm, sumZ_map2_add by congruence. unfold Pop.size. lia.
Qed.

Lemma population_at_Some (w : Machine) (n : nat) (p : Population) :
  nth_error (populations (self w)) n = Some p ->
  population_at n w = OK (p, w).
Proof.
  intros Hp. unfold population_at, bind, get_self. rewrite Hp. reflexivity.
Qed.

Lemma flat_map_nil {A B} (l : list A) :
  flat_map (fun _ : A => @nil B) l = [].
Proof. induction l as [|x l IH]; [reflexivity | exact IH]. Qed.

Lemma thread_redraw_immigrants (pool : list Z) (q : Q)
  (pops : list Population) (r : Rand) :
  map immigrants (fst (thread (redraw pool q) pops r)) = map immigrants pops.
Proof.
  revert r. induction pops as [|p pops IH]; intros r; [reflexivity|].
  cbn [thread fst map]. rewrite IH. reflexivity.
Qed.

(** The closed form of [mix] in the model, where the binomial draw
    always returns. *)
Lemma mix_exact (w : Machine) :
  length (populations (self w)) = number_of_nodes (topology (self w)) ->
  let pool := pooled_abundances (self w) in
  let q := (1 / inject_Z (Z.of_nat (number_of_nodes (topology (self w)))))%Q in
  let t := thread (redraw pool q) (populations (self w)) (random_state w) in
  mix w
  = OK (tt, mkMachine (set_populations (self w) (fst t)) (snd t)
              (history w ++ [Enter Mix])).
Proof.
  intros Hlen pool q t.
  unfold mix. run (record_OK _ _). run (get_self_OK _).
  cbn [self]. fold (pooled_abundances (self w)). fold pool. fold q.
  match goal with
  | |- for_each_node ?body ?w2 = _ =>
      pose proof (for_each_node_exact w2 (redraw pool q) (fun _ => [])
                    body) as HE
  end.
  cbn [self random_state history] in HE.
  rewrite (HE Hlen).
  - rewrite flat_map_nil, app_nil_r. reflexivity.
  - intros n pops r h p Hp.
    run (population_at_Some
           (mkMachine (set_populations (self w) pops) r h) n p Hp).
    run (sample_OK _ _).
    rewrite store_population_OK.
    cbn [self populations set_populations random_state history].
    rewrite app_nil_r. reflexivity.
Qed.

(** X20: on populations of the landscape's size [mix] pools the live
    abundances of all nodes once, into an int64 array, before any node
    is changed. Whenever it returns, every node has received, in node
    order, its own binomial draw from that one pool with probability
    [1 / number of nodes], the immigrant buffers are as they were, and
    no population method has been called. When moreover no abundance is
    negative and the metapopulation's size is below [2^63], so that the
    int64 sums do not wrap, [mix] returns and the pool has the
    landscape's size, has no negative entry and sums to the size of the
    metapopulation. *)
Theorem mix_redraws_every_node_from_one_pool (G : nat) (w : Machine) :
  length (populations (self w)) = number_of_nodes (topology (self w)) ->
  shaped G (self w) ->
  length (fitness_landscape (self w)) = G ->
  let pool := pooled_abundances (self w) in
  let q := (1 / inject_Z (Z.of_nat (number_of_nodes (topology (self w)))))%Q in
  let t := thread (redraw pool q) (populations (self w)) (random_state w) in
  (forall w',
     mix w = OK (tt, w') ->
     w' = mkMachine (set_populations (self w) (fst t)) (snd t)
            (history w ++ [Enter Mix])
     /\ map immigrants (populations (self w'))
        = map immigrants (populations (self w)))
  /\ (Forall (fun p => Forall (Z.le 0) (abundances p)) (populations (self w)) ->
      size (self w) < 2 ^ 63 ->
      (exists w', mix w = OK (tt, w'))
      /\ length pool = G
      /\ Forall (Z.le 0) pool
      /\ Array.sumZ pool = size (self w)).
Proof.
  intros Hlen Hs HG pool q t.
  pose proof (mix_exact w Hlen) as E. cbv zeta in E.
  fold pool q t in E. split.
  - intros w' E'.
    match type of E with
    | _ = OK (tt, ?c) => assert (Ew : w' = c) by congruence
    end.
    rewrite Ew.
    split; [reflexivity|]. cbn [self populations set_populations].
    apply thread_redraw_immigrants.
  - intros Hnn Hsize.
    split; [eexists; exact E|].
    unfold pool, pooled_abundances.
    destruct (pooled_from G (populations (self w)) Hs Hnn
                (Array.zeros 0 (length (fitness_landscape (self w)))))
      as [Hl [Hpos Hsum]].
    + unfold Array.zeros. rewrite repeat_length. exact HG.
    + unfold Array.zeros. apply Forall_forall. intros x Hx.
      apply repeat_spec in Hx. lia.
    + rewrite sumZ_zeros. exact Hsize.
    + split; [exact Hl|]. split; [exact Hpos|].
      rewrite Hsum, sumZ_zeros. unfold size. lia.
Qed.

Lemma sink_updates (t : Z) (l : list sink) (w : Machine) :
  for_each l (fun k => record (SinkUpdate k t)) w
  = OK (tt, mkMachine (self w) (random_state w)
              (history w ++ map (fun k => SinkUpdate k t) l)).
Proof.
  revert w. induction l as [|k l IH]; intros w.
  - simpl. unfold ret. rewrite app_nil_r. destruct w. reflexivity.
  - cbn [for_each map]. run (record_OK _ _). rewrite IH.
    cbn [self random_state history]. rewrite <- app_assoc. reflexivity.
Qed.

(** X21: [write_logfiles] raises [ZeroDivisionError] when
    [log_frequency] is 0; otherwise it changes nothing and, exactly when
    [time] is a multiple of [log_frequency], notifies every log object
    once, in the order they were attached, with the current [time]. *)
Theorem write_logfiles_updates_sinks_on_multiples (w : Machine) :
  let s := self w in
  (log_frequency (config s) = 0 -> write_logfiles w = Raise ZeroDivisionError)
  /\ (log_frequency (config s) <> 0 ->
      write_logfiles w
      = OK (tt, mkMachine s (random_state w)
                  (history w
                   ++ Enter WriteLogfiles
                      :: (if time s mod log_frequency (config s) =? 0
                          then map (fun k => SinkUpdate k (time s))
                                   (log_objects s)
                          else [])))).
Proof.
  intros s. split; intros Hf.
  - unfold write_logfiles. run (record_OK _ _). run (get_self_OK _).
    cbn [self]. fold s. unfold py_mod. rewrite Hf. reflexivity.
  - unfold write_logfiles. run (record_OK _ _). run (get_self_OK _).
    cbn [self]. fold s. unfold py_mod.
    destruct (Z.eqb_spec (log_frequency (config s)) 0) as [|_];
      [contradiction|].
    run (ret_OK _ _).
    destruct (time s mod log_frequency (config s) =? 0).
    + rewrite sink_updates. cbn [self random_state history].
      rewrite <- app_assoc. reflexivity.
    + reflexivity.
Qed.

End MethodFacts2.

Lemma change_environment_bottlenecks_then_resets_witness :
  exists landscape w',
    change_environment Reference.engine = OK (tt, w')
    /\ fitness_landscape (self w') = landscape
    /\ history w'
       = history Reference.engine
         ++ [Enter ChangeEnvironment;
             PopCall 0 (PBottleneck (1 # 10)); PopCall 0 PResetLoci;
             PopCall 1 (PBottleneck (1 # 10)); PopCall 1 PResetLoci;
             PopCall 2 (PBottleneck (1 # 10)); PopCall 2 PResetLoci].
Proof.
  destruct (proj2 (proj2 (@change_environment_bottlenecks_then_resets
                            Reference.externals reference_ok Reference.engine
                            eq_refl)))
    as [landscape [_ E]].
  - vm_compute. discriminate.
  - vm_compute. discriminate.
  - intros H. vm_compute in H. discriminate H.
  - exists landscape. eexists. split; [exact E|]. split; reflexivity.
Defined.

Lemma reference_engine_nonnegative :
  Forall (fun p => Forall (Z.le 0) (abundances p))
    (populations (self Reference.engine)).
Proof. vm_compute. repeat constructor. all: discriminate. Qed.

Lemma mix_redraws_every_node_from_one_pool_witness :
  exists w',
    mix Reference.engine = OK (tt, w')
    /\ Array.sumZ (pooled_abundances (self Reference.engine))
       = size (self Reference.engine).
Proof.
  destruct (@mix_redraws_every_node_from_one_pool Reference.externals
              4 Reference.engine eq_refl reference_engine_shaped eq_refl)
    as [_ H].
  destruct (H reference_engine_nonnegative eq_refl)
    as [[w' E] [_ [_ Hs]]].
  exists w'. split; [exact E | exact Hs].
Defined.

Lemma write_logfiles_updates_sinks_on_multiples_witness :
  write_logfiles Reference.engine
  = OK (tt, mkMachine (self Reference.engine)
              (random_state Reference.engine)
              (history Reference.engine
               ++ [Enter WriteLogfiles; SinkUpdate Demographics 0])).
Proof.
  apply (proj2 (@write_logfiles_updates_sinks_on_multiples
                  Reference.externals Reference.engine)).
  vm_compute. discriminate.
Defined.

Section CycleExtras.

Context {ext : Externals} {ok : ExternalsOk ext}.

(** X22: in a cycle of a constructed engine that returns, [mix] is
    entered if and only if [mix_frequency > 0], [time > 0] and
    [time mod mix_frequency = 0]. The first cycle after construction
    ([time = 0]) therefore never mixes and never changes the
    environment: it enters grow, mutate, migrate, census, write_logfiles
    and dilute, and nothing else. *)
Theorem mix_entered_iff_due (w w' : Machine) :
  well_formed w ->
  cycle w = OK (tt, w') ->
  let cfg := config (self w) in
  let t := time (self w) in
  exists evs,
    history w' = history w ++ evs
    /\ (In (Enter Mix) evs
        <-> 0 < mix_frequency cfg /\ 0 < t /\ t mod mix_frequency cfg = 0)
    /\ (t = 0 ->
        filter is_enter evs
        = map Enter [Grow; Mutate; Migrate; Census; WriteLogfiles; Dilute]
        /\ environment_changed (self w') = false).
Proof.
  intros Hw E cfg t.
  destruct (cycle_cycled w w' Hw E)
    as [_ [_ [Hv [_ [e1 [e2 [e3 [e4 [e5 [e6 [e7 H]]]]]]]]]]].
  destruct H as [S1 [S2 [S3 [S4 [S5 [S6 [S7 Hh]]]]]]].
  fold cfg t in Hh, Hv.
  pose proof (cycle_events_order cfg t (topology (self w))
                e1 e2 e3 e4 e5 e6 e7 S1 S2 S3 S4 S5 S6 S7) as Ho.
  set (evs := cycle_events cfg t (topology (self w)) e1 e2 e3 e4 e5 e6 e7)
    in *.
  exists evs. split; [exact Hh|].
  assert (Hin : forall e, In (Enter e) evs <-> In (Enter e) (cycle_order cfg t)).
  { intros e. rewrite <- Ho, filter_In. split; [|tauto].
    intros Hi. split; [exact Hi | reflexivity]. }
  split.
  - rewrite Hin, <- due_spec. unfold cycle_order.
    destruct (due (mix_frequency cfg) t),
      (due (env_change_frequency cfg) t); cbn [map app In];
      split; intros Hx; try reflexivity; try discriminate;
      repeat (destruct Hx as [Hx|Hx]; try discriminate Hx);
      try contradiction; tauto.
  - intros Ht.
    assert (Hd : forall f, due f t = false).
    { intros f. unfold due. rewrite Ht. destruct (0 <? f); reflexivity. }
    split.
    + rewrite Ho. unfold cycle_order. rewrite !Hd. reflexivity.
    + rewrite Hv. apply Hd.
Qed.

Lemma select_migrants_Some (w : Machine) (n : nat) (rate : Q)
  (p : Population) :
  nth_error (populations (self w)) n = Some p ->
  select_migrants n rate w
  = OK (fst (pop_select_migrants rate p (random_state w)),
        mkMachine (self w)
          (snd (pop_select_migrants rate p (random_state w)))
          (history w ++ [PopCall n (PSelectMigrants rate)])).
Proof.
  intros Hp. unfold select_migrants.
  run (population_at_Some w n p Hp). run (record_OK _ _).
  rewrite sample_OK. reflexivity.
Qed.

(** X23: with the destination mode [neighbors], [migrate] returns on
    every constructed engine, isolated nodes included, touching only
    populations. With the mode [single] and a rate other than 0 it
    raises [ValueError] as soon as the first node has no neighbor and
    its draw against [migration_p_far] asks for a local destination. *)
Theorem migrate_error_behaviour (w : Machine) :
  well_formed w ->
  (migration_dest (config (self w)) = Neighbors ->
   exists w', migrate w = OK (tt, w') /\ same_frame (self w) (self w'))
  /\ (migration_dest (config (self w)) = Single ->
      Qeq_bool (migration_rate (config (self w))) 0 = false ->
      forall p0,
        nth_error (populations (self w)) 0 = Some p0 ->
        neighbors (topology (self w)) 0 = [] ->
        fst (np_binomial1 (migration_p_far (config (self w)))
               (snd (pop_select_migrants (migration_rate (config (self w)))
                       p0 (random_state w)))) = false ->
        migrate w = Raise ValueError).
Proof.
  intros Hw. split.
  - intros Hd. pose proof (migrate_runs 0 w Hw) as H. unfold outcome in H.
    destruct (migrate w) as [[[] w']|err].
    + exists w'. split; [reflexivity|]. exact (proj1 (proj1 H)).
    + exfalso. apply H. intros _ Hs. congruence.
  - intros Hd Hrate p0 Hp0 Hn Hfar.
    assert (HN : (0 < number_of_nodes (topology (self w)))%nat).
    { destruct Hw as [_ [Hl _]]. rewrite <- Hl.
      apply (nth_error_Some_lt _ _ _ Hp0). }
    unfold migrate. run (record_OK _ _). run (get_self_OK _).
    cbn [self]. rewrite Hrate. unfold for_each_node.
    run (get_self_OK _). cbn [self]. unfold nodes.
    destruct (number_of_nodes (topology (self w))) as [|N]; [lia|].
    cbn [seq for_each]. apply bind_Raise. rewrite Hd.
    unfold migrate_single. run (get_self_OK _). cbn [self].
    match goal with
    | |- bind (select_migrants 0 ?rate) _ ?w1 = _ =>
        rewrite (bind_OK _ _ _ _ _ (select_migrants_Some w1 0 rate p0 Hp0))
    end.
    cbn [self random_state history].
    run (sample_OK _ _). cbn [self random_state history].
    rewrite Hfar. apply bind_Raise. rewrite Hn. reflexivity.
Qed.

(** X24: whatever the number of cycles run on a freshly constructed
    engine over a topology whose neighbors are nodes, the engine stays
    well formed: the configuration, the topology, the mutation matrix
    computed at construction and the log objects are the ones it was
    built with, there is still one population per node, and [time]
    counts the cycles. *)
Theorem cycles_preserve_construction (cfg : Config) (topo : Topology)
  (r : Rand) (w0 w : Machine) (k : nat) :
  new_metapopulation cfg topo r = OK w0 ->
  topology_ok topo ->
  run_cycles k w0 = OK (tt, w) ->
  well_formed w
  /\ config (self w) = cfg
  /\ topology (self w) = topo
  /\ Mutation.get_mutation_probabilities cfg = OK (mutation_probs (self w))
  /\ log_objects (self w) = sinks cfg
  /\ length (populations (self w)) = number_of_nodes topo
  /\ time (self w) = Z.of_nat k.
Proof.
  intros E0 Ht E.
  destruct (construction_establishes cfg topo r w0 E0)
    as [Hc [Hto [Hti [Hm [Hv [Hl _]]]]]].
  pose proof (construction_attaches_sinks cfg topo r w0 E0) as Hs.
  assert (Hw0 : well_formed w0).
  { unfold well_formed. rewrite Hc, Hto. auto. }
  pose proof (run_cycles_spec k w0 Hw0) as H. unfold outcome in H.
  rewrite E in H. destruct H as [Hcore Htime].
  pose proof (well_formed_core w0 w Hw0 Hcore) as Hw.
  destruct Hcore as [C1 [C2 [C3 [C4 C5]]]].
  split; [exact Hw|].
  rewrite C1, C2, C3, C4, C5, Htime, Hti.
  repeat (split; [assumption|]). lia.
Qed.

Lemma thread_pure (f : Population -> Population) (pops : list Population)
  (r : Rand) :
  thread (fun p r => (f p, r)) pops r = (map f pops, r).
Proof.
  induction pops as [|p pops IH]; [reflexivity|].
  cbn [thread fst snd map]. rewrite IH. reflexivity.
Qed.

Lemma pending_after_census (pops : list Population) :
  Array.sumZ (map Pop.pending (map Pop.census pops)) = 0.
Proof.
  induction pops as [|p pops IH]; [reflexivity|].
  cbn [map Array.sumZ fold_right].
  change (fold_right Z.add 0 ?l) with (Array.sumZ l). rewrite IH.
  unfold Pop.pending, Pop.census. cbn [immigrants]. rewrite sumZ_zeros.
  reflexivity.
Qed.

(** X25: [census] calls [Population.census] exactly once on every
    node's population, in node order, and draws no random number; when
    it returns no immigrant is pending any more and, on populations of
    one size, the metapopulation's size is what was live plus what was
    pending. *)
Theorem census_visits_each_node_once (G : nat) (w : Machine) :
  length (populations (self w)) = number_of_nodes (topology (self w)) ->
  exists w',
    census w = OK (tt, w')
    /\ w' = mkMachine
              (set_populations (self w)
                 (map Pop.census (populations (self w))))
              (random_state w)
              (history w
               ++ Enter Census
                  :: map (fun n => PopCall n PCensus)
                         (nodes (topology (self w))))
    /\ pending (self w') = 0
    /\ (shaped G (self w) -> size (self w') = total (self w)).
Proof.
  intros Hlen. eexists. split; [|split; [reflexivity|]].
  - pose proof (method_loop_exact w Census PCensus
                  (fun p r => (Pop.census p, r))
                  (fun n => update_population n PCensus Pop.census) Hlen)
      as HE.
    rewrite thread_pure in HE. cbn [fst snd] in HE.
    apply HE. intros n pops r h p Hp.
    unfold update_population.
    run (population_at_Some
           (mkMachine (set_populations (self w) pops) r h) n p Hp).
    run (record_OK _ _). rewrite store_population_OK. reflexivity.
  - cbn [self set_populations populations]. split.
    + unfold pending. cbn [populations]. apply pending_after_census.
    + intros Hs. unfold size, total, size, pending. cbn [populations].
      apply (size_after_census G). exact Hs.
Qed.

Lemma producers_within_size (F : N -> bool) (a : list Z) :
  Forall (Z.le 0) a ->
  forall idx : list N,
    0 <= Array.sumZ (Array.map2 (fun g x => if F g then x else 0) idx a)
      <= Array.sumZ a.
Proof.
  induction 1 as [|x a Hx Ha IH]; intros idx.
  - destruct idx; simpl; lia.
  - destruct idx as [|g idx].
    + pose proof (sumZ_nonneg (x :: a) (Forall_cons _ Hx Ha)).
      cbn [Array.map2]. change (Array.sumZ []) with 0. lia.
    + cbn [Array.map2 Array.sumZ fold_right].
      change (fold_right Z.add 0 ?l) with (Array.sumZ l).
      specialize (IH idx). destruct (F g); lia.
Qed.

Lemma num_producers_within_size (s : Metapopulation) :
  Forall (fun p => Forall (Z.le 0) (abundances p)) (populations s) ->
  0 <= num_producers s <= size s.
Proof.
  unfold num_producers, size. generalize (config s). intros cfg.
  induction 1 as [|p pops Hp _ IH]; [simpl; lia|].
  cbn [map Array.sumZ fold_right].
  change (fold_right Z.add 0 ?l) with (Array.sumZ l).
  assert (H : 0 <= Pop.num_producers cfg p <= Pop.size p).
  { unfold Pop.num_producers, Pop.size.
    apply (producers_within_size
             (fun g => Genome.is_producer g (Z.to_N (genome_length cfg)))).
    exact Hp. }
  lia.
Qed.

(** X26: when no abundance is negative, the producers never outnumber
    the metapopulation, and [prop_producers] answers either ['NA'], for
    an empty metapopulation, or a proportion between 0 and 1. *)
Theorem prop_producers_is_a_proportion (s : Metapopulation) :
  Forall (fun p => Forall (Z.le 0) (abundances p)) (populations s) ->
  0 <= num_producers s <= size s
  /\ match prop_producers s with
     | NA => size s = 0
     | Proportion p => 0 < size s /\ (0 <= p <= 1)%Q
     end.
Proof.
  intros Hnn. pose proof (num_producers_within_size s Hnn) as Hb.
  split; [exact Hb|]. unfold prop_producers.
  destruct (Z.eqb_spec (size s) 0) as [E0|Hne]; [exact E0|].
  assert (Hpos : 0 < size s) by lia.
  split; [exact Hpos|].
  assert (HposQ : (0 < inject_Z (size s))%Q).
  { rewrite (Zlt_Qlt 0 (size s)) in Hpos. exact Hpos. }
  rewrite Qmult_1_l. split.
  - apply Qle_shift_div_l; [exact HposQ|]. rewrite Qmult_0_l.
    rewrite <- (Zle_Qle 0). lia.
  - apply Qle_shift_div_r; [exact HposQ|]. rewrite Qmult_1_l.
    rewrite <- Zle_Qle. lia.
Qed.

End CycleExtras.

Lemma mix_entered_iff_due_witness :
  exists w' evs,
    cycle Reference.engine = OK (tt, w')
    /\ history w' = history Reference.engine ++ evs
    /\ ~ In (Enter Mix) evs.
Proof.
  destruct (@cycle_returns Reference.externals reference_ok Reference.engine
              reference_engine_well_formed reference_engine_can_migrate)
    as [w' E].
  destruct (@mix_entered_iff_due Reference.externals reference_ok
              Reference.engine w' reference_engine_well_formed E)
    as [evs [Hh [Hm _]]].
  exists w', evs. split; [exact E|]. split; [exact Hh|].
  intros Hin. apply Hm in Hin. destruct Hin as [_ [H0 _]].
  vm_compute in H0. discriminate.
Defined.

Lemma migrate_error_behaviour_witness :
  migrate Reference.lonely_engine = Raise ValueError.
Proof.
  apply (proj2 (@migrate_error_behaviour Reference.externals
                  reference_ok Reference.lonely_engine
                  (proj1 migrate_raises_on_isolated_node))
           eq_refl eq_refl
           (nth 0 (populations (self Reference.lonely_engine))
                (Pop.new Reference.local_config)));
    reflexivity.
Defined.

Lemma run_cycles_returns {ext : Externals} {ok : ExternalsOk ext} (k : nat)
  (w : Machine) :
  well_formed w ->
  can_migrate (config (self w)) (topology (self w)) ->
  exists w', run_cycles k w = OK (tt, w').
Proof.
  intros Hw Hcan. pose proof (run_cycles_spec k w Hw) as H.
  unfold outcome in H.
  destruct (run_cycles k w) as [[[] w']|err]; [|contradiction].
  exists w'. reflexivity.
Qed.

Lemma reference_engine_constructed :
  new_metapopulation Reference.example_config (Reference.ring 3)
    Reference.seed = OK Reference.engine.
Proof. vm_compute. reflexivity. Qed.

Lemma cycles_preserve_construction_witness :
  exists w,
    run_cycles 2 Reference.engine = OK (tt, w)
    /\ well_formed w
    /\ time (self w) = 2.
Proof.
  destruct (@run_cycles_returns Reference.externals reference_ok 2
              Reference.engine reference_engine_well_formed
              reference_engine_can_migrate) as [w E].
  exists w. split; [exact E|].
  destruct (@cycles_preserve_construction Reference.externals reference_ok
              Reference.example_config (Reference.ring 3) Reference.seed
              Reference.engine w 2 reference_engine_constructed
              (reference_ring_ok 3) E)
    as [Hw [_ [_ [_ [_ [_ Ht]]]]]].
  split; [exact Hw | exact Ht].
Defined.

Lemma census_visits_each_node_once_witness :
  exists w',
    census Reference.engine = OK (tt, w')
    /\ pending (self w') = 0
    /\ size (self w') = total (self Reference.engine).
Proof.
  destruct (@census_visits_each_node_once Reference.externals 4
              Reference.engine eq_refl)
    as [w' [E [_ [Hp Hs]]]].
  exists w'. split; [exact E|]. split; [exact Hp|].
  apply Hs. exact reference_engine_shaped.
Defined.

Lemma prop_producers_is_a_proportion_witness :
  0 <= num_producers (self Reference.engine) <= size (self Reference.engine).
Proof.
  destruct (prop_producers_is_a_proportion (self Reference.engine)
              reference_engine_nonnegative) as [H _].
  exact H.
Defined.
